(** * A shallow embedding of the tornado TCP example: wire codec,
      stream framing, source state and listener broadcast.

    Source files embedded here:
    - [base/message.py]   (AbstractMessage, SourceMessage, ServerMessage,
                           xor_checksum, trim_bytes)
    - [base/source.py]    (BaseSource, Source)
    - [base/listener.py]  (BaseListener)
    - [base/server.py]    (BaseServer: the dispatcher of a connection)
    - [app/app_server.py] (ApplicationServer)
    - [app/app_client.py] (ApplicationSourceClient)

    Conventions.
    - A Python [int] is a [Z]; a Python [bytes] object is a [list Z] whose
      elements lie in [0, 256) (see [is_bytes]).
    - A Python [str] is a Rocq [string] holding the UTF-8 encoding of the
      text, so [s.encode()] only changes the carrier and [b.decode()] is
      the strict UTF-8 validity check of CPython.  Lone surrogates, which
      [str.encode] refuses, are not representable.
    - A raised exception is a value of [exn]; a computation that may raise
      returns a [result].
    - [date_received] (the wall clock) is not a field of the messages;
      the one place that reads it, [Source.__str__], takes the text of
      the elapsed time as a parameter. *)

From Stdlib Require Import ZArith Lia Bool Ascii String List.
From stdpp Require Import gmap strings list fin_maps sorting pretty.

Local Open Scope Z_scope.

(** ** Exceptions and the error monad *)

Inductive exn : Set :=
| EncodeMessageError
| DecodeMessageError
| InvalidMessageException
| SourceException
| ListenerClosedException
| StreamClosedError
| OverflowError
| ValueError
| IndexError
| TypeError
| UnicodeDecodeError
| KeyError
| RuntimeError
| AttributeError.

Inductive result (A : Type) : Type :=
| Ok (a : A)
| Raise (e : exn).
Arguments Ok {A} a.
Arguments Raise {A} e.

Global Instance result_ret : MRet result := λ A a, Ok a.
Global Instance result_bind : MBind result := λ A B k r,
  match r with
  | Ok a => k a
  | Raise e => Raise e
  end.

Global Instance exn_eq_dec : EqDecision exn.
Proof. solve_decision. Defined.

(** [try: r except e: raise e'] *)
Definition except_as {A} (r : result A) (e e' : exn) : result A :=
  match r with
  | Ok a => Ok a
  | Raise x => if decide (x = e) then Raise e' else Raise x
  end.

(** [try: r except: raise e'] (a bare [except] catches everything) *)
Definition except_all {A} (r : result A) (e' : exn) : result A :=
  match r with
  | Ok a => Ok a
  | Raise _ => Raise e'
  end.

(** ** Python built-ins used by the codec *)

(** [raise e(fmt.format(args))]: the message is formatted before the
    exception object exists, and [str.format] raises [IndexError] when the
    template has more [{}] placeholders than there are arguments. *)
Definition raise_fmt {A} (e : exn) (placeholders args : nat) : result A :=
  if (args <? placeholders)%nat then Raise IndexError else Raise e.

Definition is_byte (b : Z) : bool := (0 <=? b) && (b <? 256).
Definition is_bytes (l : list Z) : Prop := Forall (λ b, 0 ≤ b < 256) l.

(** [bytes(iterable_of_ints)]: [ValueError] unless every item is in
    [range(0, 256)]. *)
Definition py_bytes (l : list Z) : result (list Z) :=
  if forallb is_byte l then Ok l else Raise ValueError.

(** Big-endian digits, most significant first. *)
Fixpoint be_digits (n : nat) (v : Z) : list Z :=
  match n with
  | O => []
  | S n' => be_digits n' (v / 256) ++ [v mod 256]
  end.

(** [v.to_bytes(n, 'big')]: [OverflowError] for a negative [v] or one
    that needs more than [n] bytes. *)
Definition to_bytes (n : nat) (v : Z) : result (list Z) :=
  if (0 <=? v) && (v <? 256 ^ Z.of_nat n) then Ok (be_digits n v)
  else Raise OverflowError.

(** [int.from_bytes(l, 'big')] *)
Definition from_bytes (l : list Z) : Z :=
  fold_left (λ acc b, acc * 256 + b) l 0.

(** [l[i]] for a non-negative index. *)
Definition py_index (l : list Z) (i : nat) : result Z :=
  match l !! i with
  | Some b => Ok b
  | None => Raise IndexError
  end.

(** [l[-1]] *)
Definition py_last (l : list Z) : result Z :=
  match last l with
  | Some b => Ok b
  | None => Raise IndexError
  end.

(** [l[a:b]] for [0 <= a <= b] and [l[1:-1]]. *)
Definition py_slice (l : list Z) (a b : nat) : list Z := take (b - a) (drop a l).
Definition py_slice_1_m1 (l : list Z) : list Z :=
  take (length l - 2) (drop 1 l).

(** [reduce(lambda x, y: x ^ y, bytes_data)]; [reduce] over an empty
    sequence without an initial value raises [TypeError]. *)
Definition xor_checksum (bytes_data : list Z) : result Z :=
  match bytes_data with
  | [] => Raise TypeError
  | x :: rest => Ok (fold_left Z.lxor rest x)
  end.

(** [trim_bytes(bytes_data, num)] *)
Definition trim_bytes (bytes_data : list Z) (num : nat) : list Z :=
  let data := take num bytes_data in
  if (length data <? num)%nat
  then replicate (num - length data) 0 ++ data
  else data.

(** *** Text *)

Definition byte_of_ascii (c : ascii) : Z := Z.of_N (N_of_ascii c).
Definition ascii_of_byte (b : Z) : ascii := ascii_of_N (Z.to_N b).

(** [s.encode()] *)
Definition str_encode (s : string) : list Z :=
  map byte_of_ascii (list_ascii_of_string s).

Definition is_cont (b : Z) : bool := (0x80 <=? b) && (b <=? 0xBF).
Definition between (lo hi b : Z) : bool := (lo <=? b) && (b <=? hi).

(** Well-formed UTF-8 byte sequences, as accepted by CPython's strict
    decoder. *)
Fixpoint utf8_valid (l : list Z) : bool :=
  match l with
  | [] => true
  | b0 :: l1 =>
    if between 0x00 0x7F b0 then utf8_valid l1
    else if between 0xC2 0xDF b0 then
      match l1 with
      | b1 :: l2 => is_cont b1 && utf8_valid l2
      | _ => false
      end
    else if between 0xE0 0xEF b0 then
      match l1 with
      | b1 :: b2 :: l3 =>
        (if b0 =? 0xE0 then between 0xA0 0xBF b1
         else if b0 =? 0xED then between 0x80 0x9F b1
         else is_cont b1)
        && is_cont b2 && utf8_valid l3
      | _ => false
      end
    else if between 0xF0 0xF4 b0 then
      match l1 with
      | b1 :: b2 :: b3 :: l4 =>
        (if b0 =? 0xF0 then between 0x90 0xBF b1
         else if b0 =? 0xF4 then between 0x80 0x8F b1
         else is_cont b1)
        && is_cont b2 && is_cont b3 && utf8_valid l4
      | _ => false
      end
    else false
  end.

(** [b.decode()] *)
Definition str_decode (b : list Z) : result string :=
  if utf8_valid b
  then Ok (string_of_list_ascii (map ascii_of_byte b))
  else Raise UnicodeDecodeError.

(** [s.replace('\0', '')] *)
Fixpoint replace_nul (s : string) : string :=
  match s with
  | EmptyString => EmptyString
  | String c s' =>
    if Ascii.eqb c zero then replace_nul s' else String c (replace_nul s')
  end.

(** [len(s)]: the number of code points, i.e. of bytes that are not
    continuation bytes. *)
Definition str_len (s : string) : nat :=
  length (filter (λ b, is_cont b = false) (str_encode s)).

(** [sorted(keys)] on [str] keys: code-point order, which on UTF-8 is the
    byte-wise lexicographic order. *)
Definition str_le (a b : string) : Prop := String.leb a b = true.
Global Instance str_le_dec a b : Decision (str_le a b).
Proof. unfold str_le. apply _. Defined.
Definition sorted (keys : list string) : list string := merge_sort str_le keys.

(** ** [SourceMessage] *)

Module SourceMessage.

Definition STATUS_IDLE : Z := 0x01.
Definition STATUS_ACTIVE : Z := 0x02.
Definition STATUS_RECHARGE : Z := 0x03.

(** [status in STATUS] *)
Definition in_STATUS (status : Z) : bool :=
  (status =? STATUS_IDLE) || (status =? STATUS_ACTIVE)
  || (status =? STATUS_RECHARGE).

Definition DEFAULT_HEADER : Z := 0x01.
Definition in_HEADERS (header : Z) : bool := header =? DEFAULT_HEADER.

Record t : Type := mk {
  header : Z;
  num : Z;
  source_id : string;
  status : Z;
  data : option (gmap string Z)
}.

(** Truthiness of an optional int and of an optional dict. *)
Definition truthy_int (o : option Z) : bool :=
  match o with
  | Some v => negb (v =? 0)
  | None => false
  end.
Definition truthy_dict (o : option (gmap string Z)) : bool :=
  match o with
  | Some d => negb (Nat.eqb (size d) 0)
  | None => false
  end.

(** [SourceMessage(num, source_id, status, header=None, data=None)] *)
Definition init (num : Z) (source_id : string) (status : Z)
    (header : option Z) (data : option (gmap string Z)) : result t :=
  let header := if truthy_int header then default 0 header else DEFAULT_HEADER in
  if negb (in_HEADERS header) then raise_fmt InvalidMessageException 3 3
  else if negb (in_STATUS status) then raise_fmt InvalidMessageException 2 2
  else Ok (mk header num source_id status data).

(** One iteration of the loop of [_encode_data]. *)
Definition encode_field (d : gmap string Z) (key : string) : result (list Z) :=
  except_as
    (match d !! key with
     | Some v => value ← to_bytes 4 v; Ok (trim_bytes (str_encode key) 8 ++ value)
     | None => Raise KeyError
     end)
    OverflowError EncodeMessageError.

Fixpoint encode_fields (d : gmap string Z) (keys : list string) : result (list Z) :=
  match keys with
  | [] => Ok []
  | key :: keys' =>
    chunk ← encode_field d key;
    rest ← encode_fields d keys';
    Ok (chunk ++ rest)
  end.

(** [self._encode_data()] *)
Definition _encode_data (d : gmap string Z) : result (list Z) :=
  encode_fields d (sorted (map_to_list d).*1).

(** [self.get_raw()] *)
Definition get_raw (m : t) : result (list Z) :=
  num_b ← except_as (to_bytes 2 (num m)) OverflowError EncodeMessageError;
  let id_b := trim_bytes (str_encode (source_id m)) 8 in
  status_b ← except_all (to_bytes 1 (status m)) EncodeMessageError;
  tail ← (if truthy_dict (data m)
          then fields ← _encode_data (default ∅ (data m));
               Ok (Z.of_nat (size (default ∅ (data m))) :: fields)
          else Ok [0x00]);
  py_bytes (header m :: num_b ++ id_b ++ status_b ++ tail).

(** [self.check_sum(bytes_data=None)] *)
Definition check_sum (m : t) (bytes_data : option (list Z)) : result Z :=
  match bytes_data with
  | Some (b :: bs) => xor_checksum (b :: bs)
  | _ => raw ← get_raw m; xor_checksum raw
  end.

(** [self.encode()] *)
Definition encode (m : t) : result (list Z) :=
  raw_body ← get_raw m;
  cs ← check_sum m (Some raw_body);
  extra ← py_bytes [cs];
  Ok (raw_body ++ extra).

(** The list comprehension of [_decode_data]:
    [[bytes_data[i*12:(i+1)*12] for i in range(num_fields)]] *)
Definition chunk_size : nat := 12.
Definition chunks_of (bytes_data : list Z) (num_fields : nat) : list (list Z) :=
  (λ i, py_slice bytes_data (i * chunk_size) ((i + 1) * chunk_size))
    <$> seq 0 num_fields.

(** The [for chunk in chunks] loop of [_decode_data]; a later chunk
    overwrites an earlier one with the same name. *)
Fixpoint decode_chunks (chunks : list (list Z)) (res : gmap string Z)
    : result (gmap string Z) :=
  match chunks with
  | [] => Ok res
  | chunk :: chunks' =>
    let field := take 8 chunk in
    let value := drop 8 chunk in
    name ← str_decode field;
    decode_chunks chunks' (<[replace_nul name := from_bytes value]> res)
  end.

(** [cls._decode_data(bytes_data, num_fields)] *)
Definition _decode_data (bytes_data : list Z) (num_fields : Z)
    : result (gmap string Z) :=
  if negb (Z.of_nat (length bytes_data) =? num_fields * Z.of_nat chunk_size)
  then Raise DecodeMessageError
  else decode_chunks (chunks_of bytes_data (Z.to_nat num_fields)) ∅.

(** [SourceMessage.decode(bytes_data)] *)
Definition decode (bytes_data : list Z) : result t :=
  header ← py_index bytes_data 0;
  check_sum_b ← py_last bytes_data;
  let data_body := py_slice_1_m1 bytes_data in
  let num := from_bytes (py_slice data_body 0 2) in
  sid ← str_decode (py_slice data_body 2 10);
  let source_id := replace_nul sid in
  status ← py_index data_body 10;
  num_fields ← py_index data_body 11;
  data ← (if 0 <? num_fields
          then d ← except_as (_decode_data (drop 12 data_body) num_fields)
                     DecodeMessageError InvalidMessageException;
               Ok (Some d)
          else Ok None);
  message ← init num source_id status (Some header) data;
  cs ← check_sum message None;
  if negb (cs =? check_sum_b)
  then raise_fmt InvalidMessageException 2 2
  else Ok message.

End SourceMessage.

(** ** [ServerMessage] *)

Module ServerMessage.

Definition HEADER_SUCCESS : Z := 0x11.
Definition HEADER_ERROR : Z := 0x12.
Definition DEFAULT_HEADER : Z := HEADER_SUCCESS.
Definition in_HEADERS (header : Z) : bool :=
  (header =? HEADER_SUCCESS) || (header =? HEADER_ERROR).

Record t : Type := mk {
  header : Z;
  num : Z
}.

(** [ServerMessage(num, header=None)] *)
Definition init (num : Z) (header : option Z) : result t :=
  let header :=
    if SourceMessage.truthy_int header then default 0 header else DEFAULT_HEADER in
  if negb (in_HEADERS header) then raise_fmt InvalidMessageException 1 1
  else if (header =? HEADER_ERROR) && negb (num =? 0x0000)
  then raise_fmt InvalidMessageException 2 2
  else Ok (mk header num).

(** [self.get_raw()] *)
Definition get_raw (m : t) : result (list Z) :=
  num_b ← except_as (to_bytes 2 (num m)) OverflowError EncodeMessageError;
  py_bytes (header m :: num_b).

(** [self.check_sum(bytes_data=None)] *)
Definition check_sum (m : t) (bytes_data : option (list Z)) : result Z :=
  match bytes_data with
  | Some (b :: bs) => xor_checksum (b :: bs)
  | _ => raw ← get_raw m; xor_checksum raw
  end.

(** [self.encode()] *)
Definition encode (m : t) : result (list Z) :=
  raw_body ← get_raw m;
  cs ← check_sum m (Some raw_body);
  extra ← py_bytes [cs];
  Ok (raw_body ++ extra).

(** [ServerMessage.decode(bytes_data)].  The message of the checksum
    failure is built from a template with two placeholders and a single
    argument. *)
Definition decode (bytes_data : list Z) : result t :=
  header ← py_index bytes_data 0;
  check_sum_b ← py_last bytes_data;
  let data_body := py_slice_1_m1 bytes_data in
  let num := from_bytes (py_slice data_body 0 2) in
  message ← init num (Some header);
  cs ← check_sum message None;
  if negb (cs =? check_sum_b)
  then raise_fmt InvalidMessageException 2 1
  else Ok message.

End ServerMessage.

(** ** The byte stream ([tornado.iostream.IOStream])

    Only what the repository uses: [read_bytes(n)], which completes once
    [n] bytes have arrived and raises [StreamClosedError] when the
    connection ends before that, and [write(data)], which raises
    [StreamClosedError] on a closed stream.  [incoming] lists the chunks
    the peer will still deliver, in order; when it runs dry the peer has
    closed the connection. *)

Record IOStream : Type := mkStream {
  rbuf : list Z;
  incoming : list (list Z);
  closed : bool;
  written : list (list Z)
}.

(** Computations on one stream: a state and error monad. *)
Definition io (A : Type) : Type := IOStream → result A * IOStream.

Global Instance io_ret : MRet io := λ A a s, (Ok a, s).
Global Instance io_bind : MBind io := λ A B k c s,
  match c s with
  | (Ok a, s') => k a s'
  | (Raise e, s') => (Raise e, s')
  end.

Definition lift {A} (r : result A) : io A := λ s, (r, s).

(** Pull chunks into the buffer until it holds [n] bytes. *)
Fixpoint fill (n : nat) (buf : list Z) (chunks : list (list Z))
    : option (list Z * list (list Z)) :=
  if (n <=? length buf)%nat then Some (buf, chunks)
  else match chunks with
       | [] => None
       | c :: chunks' => fill n (buf ++ c) chunks'
       end.

(** [yield stream.read_bytes(n)].  The buffer is looked at before the
    state of the connection: a read that the bytes already buffered
    satisfy is served on a closed stream too. *)
Definition read_bytes (n : nat) : io (list Z) := λ s,
  if closed s
  then if (n <=? length (rbuf s))%nat
       then (Ok (take n (rbuf s)),
             mkStream (drop n (rbuf s)) (incoming s) true (written s))
       else (Raise StreamClosedError, s)
  else match fill n (rbuf s) (incoming s) with
       | Some (buf, chunks) =>
         (Ok (take n buf), mkStream (drop n buf) chunks false (written s))
       | None =>
         (Raise StreamClosedError,
          mkStream (rbuf s ++ concat (incoming s)) [] true (written s))
       end.

(** [stream.write(data)] *)
Definition write (data : list Z) : io unit := λ s,
  if closed s then (Raise StreamClosedError, s)
  else (Ok tt, mkStream (rbuf s) (incoming s) false (written s ++ [data])).

(** [SourceMessage.decode_stream(stream, header)] *)
Definition SourceMessage_decode_stream (header : Z) : io SourceMessage.t :=
  b0 ← lift (to_bytes 1 header);
  b1 ← read_bytes 2;
  b2 ← read_bytes 8;
  b3 ← read_bytes 1;
  num_fields ← read_bytes 1;
  let byte_data := b0 ++ b1 ++ b2 ++ b3 ++ num_fields in
  let num := from_bytes num_fields in
  byte_data ← (if 0 <? num
               then b4 ← read_bytes (Z.to_nat (num * Z.of_nat SourceMessage.chunk_size));
                    mret (byte_data ++ b4)
               else mret byte_data);
  b5 ← read_bytes 1;
  lift (SourceMessage.decode (byte_data ++ b5)).

(** [ServerMessage.decode_stream(stream, header)] *)
Definition ServerMessage_decode_stream (header : Z) : io ServerMessage.t :=
  b0 ← lift (to_bytes 1 header);
  b1 ← read_bytes 2;
  b2 ← read_bytes 1;
  lift (ServerMessage.decode (b0 ++ b1 ++ b2)).

(** ** [BaseSource] and [Source] *)

(** The class attributes a subclass of [BaseSource] overrides. *)
Record source_class : Type := mkClass {
  DEFAULT_STATUS : Z;
  STATUS : list Z
}.

Module BaseSource.

Definition class : source_class := mkClass 0x00 [].

Record t : Type := mk {
  source_id : string;
  messages : list SourceMessage.t;
  _status : option Z
}.

(** The [status] setter. *)
Definition set_status (cls : source_class) (self : t) (value : Z) : result t :=
  if negb (Nat.eqb (length (STATUS cls)) 0)
     && negb (bool_decide (value ∈ STATUS cls))
  then raise_fmt SourceException 2 2
  else Ok (mk (source_id self) (messages self) (Some value)).

(** [BaseSource.__init__(source_id, status=None)] *)
Definition init (cls : source_class) (source_id : string) (status : option Z)
    : result t :=
  let self := mk source_id [] None in
  let status :=
    if SourceMessage.truthy_int status then default 0 status
    else DEFAULT_STATUS cls in
  set_status cls self status.

(** [self.get_message(message)] *)
Definition get_message (cls : source_class) (self : t) (message : SourceMessage.t)
    : result t :=
  self ← set_status cls self (SourceMessage.status message);
  Ok (mk (source_id self) (messages self ++ [message]) (_status self)).

(** [self.last_message]: the last item of [messages], [None] when there
    is none. *)
Definition last_message (self : t) : option SourceMessage.t := last (messages self).

End BaseSource.

Module Source.

Definition STATUS_IDLE : Z := 0x01.
Definition STATUS_ACTIVE : Z := 0x02.
Definition STATUS_RECHARGE : Z := 0x03.
Definition SOURCE_NAME_LENGTH : nat := 8.

Definition class : source_class :=
  mkClass STATUS_IDLE [STATUS_IDLE; STATUS_ACTIVE; STATUS_RECHARGE].

(** [Source(source_id, status=None)] *)
Definition init (source_id : string) (status : option Z) : result BaseSource.t :=
  if (SOURCE_NAME_LENGTH <? str_len source_id)%nat
  then raise_fmt SourceException 1 1
  else BaseSource.init class source_id status.

(** [source.status = value] *)
Definition set_status : BaseSource.t → Z → result BaseSource.t :=
  BaseSource.set_status class.

(** The values of [Source.STATUS]. *)
Definition STATUS_name (status : Z) : option string :=
  if status =? STATUS_IDLE then Some "IDLE"%string
  else if status =? STATUS_ACTIVE then Some "ACTIVE"%string
  else if status =? STATUS_RECHARGE then Some "RECHARGE"%string
  else None.

(** [source.status_str]: [Source.STATUS] is not empty, so the name is
    looked up, [STATUS[self._status]]. *)
Definition status_str (self : BaseSource.t) : result string :=
  match BaseSource._status self with
  | Some status =>
    match STATUS_name status with
    | Some name => Ok name
    | None => Raise KeyError
    end
  | None => Raise KeyError
  end.

(** [str(source)].  [milliseconds] is the text of the time elapsed since
    the last message was received, read off the clock.  A source without
    messages has [last_message = None], and [last_message.num] raises. *)
Definition str (milliseconds : SourceMessage.t → string) (self : BaseSource.t)
    : result string :=
  match BaseSource.last_message self with
  | None => Raise AttributeError
  | Some last_message =>
    let milliseconds := milliseconds last_message in
    status_str ← status_str self;
    Ok (String.append "["
          (String.append (BaseSource.source_id self)
             (String.append "] "
                (String.append (pretty (SourceMessage.num last_message))
                   (String.append " | "
                      (String.append status_str
                         (String.append " | " milliseconds)))))))
  end.

(** [source.get_message(message)] *)
Definition get_message : BaseSource.t → SourceMessage.t → result BaseSource.t :=
  BaseSource.get_message class.

(** [source.new_message(data)] with [MESSAGE_CLASS = SourceMessage]: the
    message, and the source with the message appended to its list.  A
    source whose [_status] is still [None] hands [None] to the
    constructor, which refuses it. *)
Definition new_message (self : BaseSource.t) (data : option (gmap string Z))
    : result (SourceMessage.t * BaseSource.t) :=
  match BaseSource._status self with
  | Some status =>
    message ← SourceMessage.init (Z.of_nat (length (BaseSource.messages self)))
                (BaseSource.source_id self) status None data;
    Ok (message,
        BaseSource.mk (BaseSource.source_id self)
          (BaseSource.messages self ++ [message]) (BaseSource._status self))
  | None => raise_fmt InvalidMessageException 2 2
  end.

End Source.

(** ** [BaseListener] *)

Module BaseListener.

Record t : Type := mk { stream : IOStream }.

(** [yield listener.send(bytes_data)] *)
Definition send (self : t) (bytes_data : list Z) : result unit * t :=
  match write bytes_data (stream self) with
  | (Ok tt, s') => (Ok tt, mk s')
  | (Raise StreamClosedError, s') => (Raise ListenerClosedException, mk s')
  | (Raise e, s') => (Raise e, mk s')
  end.

End BaseListener.

(** ** [ApplicationServer]: the listener registry and the broadcast *)

(** A connection address, [(host, port)]. *)
Definition address : Type := string * Z.

(** A Python [dict]: its items in insertion order, keys unique. *)
Definition dict (V : Type) : Type := list (address * V).

(** [d.pop(k)] *)
Fixpoint dict_pop {V} (k : address) (d : dict V) : result (dict V) :=
  match d with
  | [] => Raise KeyError
  | (k', v) :: d' =>
    if decide (k = k') then Ok d'
    else d'' ← dict_pop k d'; Ok ((k', v) :: d'')
  end.

(** The object stored under [k] has changed state. *)
Fixpoint dict_update {V} (k : address) (v : V) (d : dict V) : dict V :=
  match d with
  | [] => []
  | (k', v') :: d' =>
    if decide (k = k') then (k', v) :: d' else (k', v') :: dict_update k v d'
  end.

Module ApplicationServer.

Section Broadcast.

(** [str(message).encode()], whatever the class of [message]. *)
Context {Message : Type} (message_text : Message → list Z).

(** The [for listener_id, listener in self.listeners.items()] loop.
    [used] is the size the dict had when the iterator was created and
    [items] are the entries the iterator has not yielded yet.  Every call
    of the iterator's [__next__] first compares the dict's current size
    with [used] and raises [RuntimeError] ("dictionary changed size during
    iteration") when they differ, also when no entry is left. *)
Fixpoint broadcast_loop (used : nat) (items : dict BaseListener.t)
    (message : Message) (listeners : dict BaseListener.t)
    : result unit * dict BaseListener.t :=
  if negb (Nat.eqb (length listeners) used) then (Raise RuntimeError, listeners)
  else match items with
       | [] => (Ok tt, listeners)
       | (listener_id, listener) :: items' =>
         match BaseListener.send listener (message_text message) with
         | (Ok tt, listener') =>
           broadcast_loop used items' message
             (dict_update listener_id listener' listeners)
         | (Raise ListenerClosedException, listener') =>
           match dict_pop listener_id (dict_update listener_id listener' listeners) with
           | Ok listeners' => broadcast_loop used items' message listeners'
           | Raise e => (Raise e, listeners)
           end
         | (Raise e, listener') =>
           (Raise e, dict_update listener_id listener' listeners)
         end
       end.

(** [self.broadcast_message(message)]: the outcome for the caller and the
    registry afterwards. *)
Definition broadcast_message (message : Message) (listeners : dict BaseListener.t)
    : result unit * dict BaseListener.t :=
  if negb (Nat.eqb (length listeners) 0)
  then broadcast_loop (length listeners) listeners message listeners
  else (Ok tt, listeners).

End Broadcast.

(** [d[k] = v] on the registry of listeners: an existing key keeps its
    place, a new one goes to the end. *)
Fixpoint dict_set {V} (k : address) (v : V) (d : dict V) : dict V :=
  match d with
  | [] => [(k, v)]
  | (k', v') :: d' =>
    if decide (k = k') then (k', v) :: d' else (k', v') :: dict_set k v d'
  end.

(** The registry of sources, a [dict] with [str] keys: [d.get(k)] and
    [d[k] = v]. *)
Definition sources_dict : Type := list (string * BaseSource.t).

Fixpoint sources_get (k : string) (d : sources_dict) : option BaseSource.t :=
  match d with
  | [] => None
  | (k', v) :: d' => if decide (k = k') then Some v else sources_get k d'
  end.

Fixpoint sources_set (k : string) (v : BaseSource.t) (d : sources_dict) : sources_dict :=
  match d with
  | [] => [(k, v)]
  | (k', v') :: d' =>
    if decide (k = k') then (k', v) :: d' else (k', v') :: sources_set k v d'
  end.

(** The two class-level registries of [ApplicationServer]. *)
Record t : Type := mk {
  sources : sources_dict;
  listeners : dict BaseListener.t
}.

(** A coroutine of the server working on one connection: it may change
    the registries and the stream, and raise. *)
Definition conn (A : Type) : Type := t * IOStream → result A * (t * IOStream).

Global Instance conn_ret : MRet conn := λ A a w, (Ok a, w).
Global Instance conn_bind : MBind conn := λ A B k c w,
  match c w with
  | (Ok a, w') => k a w'
  | (Raise e, w') => (Raise e, w')
  end.

(** [yield] on an operation of the connection's stream. *)
Definition on_stream {A} (c : io A) : conn A := λ w,
  let (r, stream') := c w.2 in (r, (w.1, stream')).

(** An expression that may raise and touches neither registry nor
    stream. *)
Definition eval {A} (r : result A) : conn A := λ w, (r, w).

Definition get_sources : conn sources_dict := λ w, (Ok (sources w.1), w).
Definition put_sources (d : sources_dict) : conn unit := λ w,
  (Ok tt, (mk d (listeners w.1), w.2)).

(** [try: body except (e1, e2, ...): handler] *)
Definition try_except {A} (body : conn A) (caught : list exn) (handler : conn A)
    : conn A := λ w,
  match body w with
  | (Ok a, w') => (Ok a, w')
  | (Raise e, w') => if bool_decide (e ∈ caught) then handler w' else (Raise e, w')
  end.

Section Handlers.

(** [str(message).encode()] for a [SourceMessage], and the reading of the
    clock in [str(source)]. *)
Context (message_text : SourceMessage.t → list Z).
Context (milliseconds : SourceMessage.t → string).

(** [yield self.broadcast_message(message)] *)
Definition broadcast (message : SourceMessage.t) : conn unit := λ w,
  let (r, listeners') := broadcast_message message_text message (listeners w.1) in
  (r, (mk (sources w.1) listeners', w.2)).

(** [self.handler_SourceMessage(stream, address, header)].  The source
    held by the registry is one object: what [get_message] does to it
    shows in the registry. *)
Definition handler_SourceMessage (header : Z) : conn unit :=
  try_except
    (message ← on_stream (SourceMessage_decode_stream header);
     let source_id := SourceMessage.source_id message in
     let status := SourceMessage.status message in
     registry ← get_sources;
     source ← match sources_get source_id registry with
              | Some source => mret source
              | None =>
                source ← eval (Source.init source_id (Some status));
                _ ← put_sources (sources_set source_id source registry);
                mret source
              end;
     source ← eval (Source.get_message source message);
     registry ← get_sources;
     _ ← put_sources (sources_set source_id source registry);
     ok_message ← eval (ServerMessage.init (SourceMessage.num message)
                          (Some ServerMessage.HEADER_SUCCESS));
     frame ← eval (ServerMessage.encode ok_message);
     _ ← on_stream (write frame);
     broadcast message)
    [InvalidMessageException; SourceException]
    (error_message ← eval (ServerMessage.init 0 (Some ServerMessage.HEADER_ERROR));
     frame ← eval (ServerMessage.encode error_message);
     on_stream (write frame)).

(** [self.handler_default(stream, address, header)] *)
Definition handler_default (header : Z) : conn unit := mret tt.

(** [self.catch_message(header, stream, address)] with
    [ALLOWED_MESSAGES = (SourceMessage,)]; the handler of that class
    exists, so the [AttributeError] branch is not taken on its account. *)
Definition catch_message (header : Z) : conn unit :=
  if SourceMessage.in_HEADERS header then handler_SourceMessage header
  else handler_default header.

(** [BaseServer.handle]: the [while True] loop, which only an exception
    leaves.  [fuel] bounds the number of turns; [None] means the bound
    was reached. *)
Fixpoint handle (fuel : nat) (w : t * IOStream) : option (exn * (t * IOStream)) :=
  match fuel with
  | O => None
  | S fuel' =>
    match (byte_header ← on_stream (read_bytes 1);
           catch_message (from_bytes byte_header)) w with
    | (Ok tt, w') => handle fuel' w'
    | (Raise e, w') => Some (e, w')
    end
  end.

(** [BaseServer.handle_stream] for a connection on the source port:
    [StreamClosedError] ends the connection quietly
    ([stream_closed_handler] does nothing), any other exception leaves
    the coroutine. *)
Definition handle_stream (fuel : nat) (w : t * IOStream)
    : option (result unit * (t * IOStream)) :=
  match handle fuel w with
  | None => None
  | Some (StreamClosedError, w') => Some (Ok tt, w')
  | Some (e, w') => Some (Raise e, w')
  end.

(** ['\n'.join(parts)] *)
Fixpoint join_lines (parts : list string) : string :=
  match parts with
  | [] => EmptyString
  | [part] => part
  | part :: parts' => String.append part (String "010" (join_lines parts'))
  end.

(** [[str(source) for source in self.sources.values()]] *)
Fixpoint source_lines (sources : list BaseSource.t) : result (list string) :=
  match sources with
  | [] => Ok []
  | source :: sources' =>
    line ← Source.str milliseconds source;
    lines ← source_lines sources';
    Ok (line :: lines)
  end.

(** [self.handle_listener(stream, address)]: the connection's stream
    becomes the stream of a registered listener.  The listener is stored
    before the greeting is built, so it stays stored when [str(source)]
    raises. *)
Definition handle_listener (address_ : address) (w : t * IOStream)
    : result unit * t :=
  let listener := BaseListener.mk w.2 in
  let registry := dict_set address_ listener (listeners w.1) in
  match source_lines (sources w.1).*2 with
  | Raise e => (Raise e, mk (sources w.1) registry)
  | Ok lines =>
    let last_messages := join_lines lines in
    let last_messages :=
      if decide (last_messages = EmptyString) then "No sources yet"%string
      else last_messages in
    let last_messages := String.append last_messages (String "010" EmptyString) in
    match BaseListener.send listener (str_encode last_messages) with
    | (Ok tt, listener') =>
      (Ok tt, mk (sources w.1) (dict_update address_ listener' registry))
    | (Raise ListenerClosedException, listener') =>
      match dict_pop address_ (dict_update address_ listener' registry) with
      | Ok registry' => (Ok tt, mk (sources w.1) registry')
      | Raise e => (Raise e, mk (sources w.1) registry)
      end
    | (Raise e, listener') =>
      (Raise e, mk (sources w.1) (dict_update address_ listener' registry))
    end
  end.

End Handlers.

End ApplicationServer.

(** ** [ApplicationSourceClient] *)

Module ApplicationSourceClient.

(** The exceptions that leave the client: its own [ClientException],
    raised in place of an [EncodeMessageError], or any other one. *)
Inductive client_exn : Type :=
| ClientException
| Other (e : exn).

(** A connected client: its source and its stream. *)
Record t : Type := mk {
  source : BaseSource.t;
  stream : IOStream
}.

(** [yield client.send_message(data)].  [new_message] has appended the
    message to the source before [encode] runs. *)
Definition send_message (self : t) (data : option (gmap string Z))
    : (unit + client_exn) * t :=
  match Source.new_message (source self) data with
  | Raise e =>
    (inr (if decide (e = EncodeMessageError) then ClientException else Other e), self)
  | Ok (message, source') =>
    match SourceMessage.encode message with
    | Raise e =>
      (inr (if decide (e = EncodeMessageError) then ClientException else Other e),
       mk source' (stream self))
    | Ok frame =>
      match write frame (stream self) with
      | (Ok tt, stream') => (inl tt, mk source' stream')
      | (Raise e, stream') =>
        (inr (if decide (e = EncodeMessageError) then ClientException else Other e),
         mk source' stream')
      end
    end
  end.

(** [yield client.listen()]: the acknowledgement, or [None] when the
    header is not one of [ServerMessage] or the message is invalid. *)
Definition listen : io (option ServerMessage.t) := λ s,
  match read_bytes 1 s with
  | (Raise e, s') => (Raise e, s')
  | (Ok header, s') =>
    let header := from_bytes header in
    if ServerMessage.in_HEADERS header
    then match ServerMessage_decode_stream header s' with
         | (Ok message, s'') => (Ok (Some message), s'')
         | (Raise InvalidMessageException, s'') => (Ok None, s'')
         | (Raise e, s'') => (Raise e, s'')
         end
    else (Ok None, s')
  end.

End ApplicationSourceClient.


(** * Vocabulary of the statements *)

(** The XOR of all bytes of [l]. *)
Definition xor_all (l : list Z) : Z := fold_left Z.lxor l 0.

(** Text that fills at most the eight bytes of its slot, is well-formed
    and has no NUL character. *)
Definition fits_slot (s : string) : Prop :=
  utf8_valid (str_encode s) = true ∧ (length (str_encode s) ≤ 8)%nat.
Definition no_nul (s : string) : Prop := 0 ∉ str_encode s.
Definition text_ok (s : string) : Prop := fits_slot s ∧ no_nul s.

(** The requirement the codec puts on one key of a field map. *)
Definition key_ok (d : gmap string Z) (key : string) : Prop :=
  text_ok key ∧ ∃ v, d !! key = Some v ∧ 0 ≤ v < 2 ^ 32.

(** A field map that fits the wire format. *)
Definition fields_ok (d : gmap string Z) : Prop :=
  map_Forall (λ k v, text_ok k ∧ 0 ≤ v < 2 ^ 32) d ∧ (size d ≤ 255)%nat.

(** The mapping a message carries: no map and the empty map both carry
    no field. *)
Definition field_map (o : option (gmap string Z)) : gmap string Z := default ∅ o.

(** A status message whose every value fits the wire format. *)
Definition valid_status_message (m : SourceMessage.t) : Prop :=
  SourceMessage.header m = SourceMessage.DEFAULT_HEADER
  ∧ 0 ≤ SourceMessage.num m ≤ 65535
  ∧ SourceMessage.in_STATUS (SourceMessage.status m) = true
  ∧ text_ok (SourceMessage.source_id m)
  ∧ fields_ok (field_map (SourceMessage.data m)).

(** An acknowledgement that fits the wire format. *)
Definition valid_ack_message (m : ServerMessage.t) : Prop :=
  ServerMessage.in_HEADERS (ServerMessage.header m) = true
  ∧ 0 ≤ ServerMessage.num m ≤ 65535
  ∧ (ServerMessage.header m = ServerMessage.HEADER_ERROR → ServerMessage.num m = 0).

(** What the decoder hands back for [m]: an empty field map comes back as
    no field map. *)
Definition normalise (m : SourceMessage.t) : SourceMessage.t :=
  SourceMessage.mk (SourceMessage.header m) (SourceMessage.num m)
    (SourceMessage.source_id m) (SourceMessage.status m)
    (if SourceMessage.truthy_dict (SourceMessage.data m)
     then SourceMessage.data m else None).

(** A status message that [get_raw] can lay out and whose text [decode]
    reads back, whatever its header and status bytes are. *)
Definition encodable (m : SourceMessage.t) : Prop :=
  0 ≤ SourceMessage.header m < 256
  ∧ 0 ≤ SourceMessage.num m ≤ 65535
  ∧ 0 ≤ SourceMessage.status m < 256
  ∧ text_ok (SourceMessage.source_id m)
  ∧ fields_ok (field_map (SourceMessage.data m)).

(** The field count [nf] and the field bytes [fb] that stand for the
    optional field map [data] on the wire. *)
Definition tail_of (data : option (gmap string Z)) (nf : Z) (fb : list Z) : Prop :=
  is_bytes fb ∧
  ((SourceMessage.truthy_dict data = false ∧ nf = 0 ∧ fb = [])
   ∨ (∃ d, data = Some d ∧ SourceMessage.truthy_dict data = true
           ∧ nf = Z.of_nat (size d) ∧ 0 < nf ≤ 255
           ∧ length fb = (size d * SourceMessage.chunk_size)%nat
           ∧ SourceMessage._decode_data fb nf = Ok d)).

(** The parts of a status frame that hold text or fields: the
    identifier slot, the field bytes (what lies between the count byte
    and the checksum byte), their twelve-byte chunks, the text a slot
    stands for, and with these the text slots and the field names of a
    frame. *)
Definition id_slot (frame : list Z) : list Z := py_slice frame 3 11.
Definition field_bytes (frame : list Z) : list Z :=
  py_slice frame 13 (length frame - 1).
Definition field_chunks (frame : list Z) : list (list Z) :=
  SourceMessage.chunks_of (field_bytes frame)
    (length (field_bytes frame) / SourceMessage.chunk_size).
Definition slot_text (slot : list Z) : string :=
  replace_nul (string_of_list_ascii (map ascii_of_byte slot)).
Definition text_slots (frame : list Z) : list (list Z) :=
  id_slot frame :: (take 8 <$> field_chunks frame).
Definition field_names (frame : list Z) : list string :=
  (λ chunk, slot_text (take 8 chunk)) <$> field_chunks frame.

(** The exception a computation ends with, if any. *)
Definition exn_of {A} (r : result A) : option exn :=
  match r with
  | Ok _ => None
  | Raise e => Some e
  end.

(** [frame] with bit [k] of its byte at index [i] flipped. *)
Definition flip_bit (i : nat) (k : Z) (frame : list Z) : list Z :=
  alter (λ b, Z.lxor b (2 ^ k)) i frame.

(** Every flip of one bit in a frame of [n] bytes: the index of the byte
    and the number of the bit. *)
Definition all_flips (n : nat) : list (nat * Z) :=
  i ← seq 0 n; k ← seq 0 8; [(i, Z.of_nat k)].

(** In a frame of [n] bytes, the index [i] lies in the identifier slot
    or in the name slot of a field. *)
Definition in_text_slot (n i : nat) : bool :=
  ((3 <=? i) && (i <? 11))%nat
  || ((13 <=? i) && (i <? n - 1) && ((i - 13) mod 12 <? 8))%nat.

(** The conditions under which a flipped frame is sure to be rejected
    as an invalid message. *)
Definition flip_covered (frame : list Z) (i : nat) (k : Z) : Prop :=
  flip_bit i k frame !! 0%nat ≠ Some 0
  ∧ Forall (λ slot, utf8_valid slot = true) (text_slots (flip_bit i k frame))
  ∧ NoDup (field_names (flip_bit i k frame))
  ∧ (i = 12%nat → frame !! 12%nat = Some (2 ^ k) →
     xor_all (field_bytes frame) ≠ 2 ^ k).

(** [StatusMessage(seq=1, id="abc", status=IDLE,
                   fields={"a": 0x62, "c": 0})], a message with two field
    names one bit apart, and the message with the field [c] alone. *)
Definition msg_near_names : SourceMessage.t :=
  SourceMessage.mk 0x01 1 "abc" SourceMessage.STATUS_IDLE
    (Some (<["a"%string := 0x62]> (<["c"%string := 0]> ∅))).
Definition msg_field_c : SourceMessage.t :=
  SourceMessage.mk 0x01 1 "abc" SourceMessage.STATUS_IDLE
    (Some (<["c"%string := 0]> ∅)).
Definition frame_near_names : list Z :=
  [0x01; 0x00; 0x01; 0x00; 0x00; 0x00; 0x00; 0x00; 0x61; 0x62; 0x63; 0x01; 0x02;
   0x00; 0x00; 0x00; 0x00; 0x00; 0x00; 0x00; 0x61; 0x00; 0x00; 0x00; 0x62;
   0x00; 0x00; 0x00; 0x00; 0x00; 0x00; 0x00; 0x63; 0x00; 0x00; 0x00; 0x00;
   0x03].

(** The bytes a stream will still hand to its reader, in order. *)
Definition remaining (s : IOStream) : list Z := rbuf s ++ concat (incoming s).

(** The layout of a status frame: thirteen fixed bytes, twelve bytes for
    each of the fields the count byte announces, one checksum byte. *)
Definition status_frame_shape (frame : list Z) : Prop :=
  is_bytes frame
  ∧ ∃ nf, frame !! 12%nat = Some nf
          ∧ length frame = (14 + 12 * Z.to_nat nf)%nat.

(** The layout of an acknowledgement frame: four bytes. *)
Definition ack_frame_shape (frame : list Z) : Prop :=
  is_bytes frame ∧ length frame = 4%nat.

(** ** Concrete messages of the test-suite and of the statements *)

(** The two-field frame of the test-suite and a stream that delivers it,
    after its header byte, in four pieces followed by the first byte of
    the next frame. *)
Definition frame_two_fields : list Z :=
  [0x01; 0x00; 0x01; 0x00; 0x00; 0x00; 0x00; 0x00; 0x61; 0x62; 0x63; 0x01; 0x02;
   0x00; 0x00; 0x00; 0x00; 0x00; 0x61; 0x62; 0x63; 0x00; 0x01; 0x02; 0x03;
   0x00; 0x00; 0x00; 0x00; 0x00; 0x64; 0x65; 0x66; 0x00; 0x03; 0x02; 0x01;
   0x64].
Definition stream_two_fields : IOStream :=
  mkStream [0x00]
    [[0x01; 0x00; 0x00; 0x00];
     [0x00; 0x00; 0x61; 0x62; 0x63; 0x01; 0x02; 0x00; 0x00; 0x00; 0x00; 0x00; 0x61];
     [];
     [0x62; 0x63; 0x00; 0x01; 0x02; 0x03; 0x00; 0x00; 0x00; 0x00; 0x00; 0x64; 0x65;
      0x66; 0x00; 0x03; 0x02; 0x01; 0x64; 0x01]]
    false [].
Definition stream_ack : IOStream := mkStream [] [[0x00]; [0x01; 0x10; 0x11]] false [].

(** [StatusMessage(seq=1, id="abc", status=IDLE, fields=None)] *)
Definition msg_abc_plain : SourceMessage.t :=
  SourceMessage.mk 0x01 1 "abc" SourceMessage.STATUS_IDLE None.

(** [StatusMessage(seq=1, id="abc", status=IDLE,
                   fields={"abc": 0x010203, "def": 0x030201})] *)
Definition msg_abc_fields : SourceMessage.t :=
  SourceMessage.mk 0x01 1 "abc" SourceMessage.STATUS_IDLE
    (Some (<["abc"%string := 0x010203]> (<["def"%string := 0x030201]> ∅))).

(** The identifier [a\0b]: three characters, the second one NUL. *)
Definition id_with_nul : string := String "a" (String zero (String "b" EmptyString)).
Definition msg_nul_id : SourceMessage.t :=
  SourceMessage.mk 0x01 1 id_with_nul SourceMessage.STATUS_IDLE None.

(** [AckMessage(seq=1, header=SUCCESS)] *)
Definition ack_success_1 : ServerMessage.t :=
  ServerMessage.mk ServerMessage.HEADER_SUCCESS 1.

(** [StatusMessage(seq=1, id="abc", status=IDLE, fields={"a": 0x60})]:
    the XOR of the bytes of its single field equals its field count. *)
Definition msg_one_field : SourceMessage.t :=
  SourceMessage.mk 0x01 1 "abc" SourceMessage.STATUS_IDLE
    (Some (<["a"%string := 0x60]> ∅)).
Definition frame_one_field : list Z :=
  [0x01; 0x00; 0x01; 0x00; 0x00; 0x00; 0x00; 0x00; 0x61; 0x62; 0x63; 0x01; 0x01;
   0x00; 0x00; 0x00; 0x00; 0x00; 0x00; 0x00; 0x61; 0x00; 0x00; 0x00; 0x60;
   0x61].
Definition frame_plain : list Z :=
  [0x01; 0x00; 0x01; 0x00; 0x00; 0x00; 0x00; 0x00; 0x61; 0x62; 0x63; 0x01; 0x00;
   0x61].

(** [m] with another header, sequence number and status. *)
Definition with_fixed (m : SourceMessage.t) (h n st : Z) : SourceMessage.t :=
  SourceMessage.mk h n (SourceMessage.source_id m) st (SourceMessage.data m).

(** [n] fields named [aa], [ab], ..., all with value 0. *)
Definition field_name (i : nat) : string :=
  String (ascii_of_nat (97 + i / 16)) (String (ascii_of_nat (97 + i mod 16)) EmptyString).
Definition many_fields (n : nat) : gmap string Z :=
  list_to_map ((λ i, (field_name i, 0)) <$> seq 0 n).
Definition msg_256_fields : SourceMessage.t :=
  SourceMessage.mk 0x01 1 "abc" SourceMessage.STATUS_IDLE (Some (many_fields 256)).

(** Three registered listeners; the transport of the second one is
    already closed. *)
Definition open_listener : BaseListener.t := BaseListener.mk (mkStream [] [] false []).
Definition closed_listener : BaseListener.t := BaseListener.mk (mkStream [] [] true []).
Definition listener_1 : address := ("10.0.0.1"%string, 50001).
Definition listener_2 : address := ("10.0.0.2"%string, 50002).
Definition listener_3 : address := ("10.0.0.3"%string, 50003).
Definition three_listeners : dict BaseListener.t :=
  [(listener_1, open_listener); (listener_2, closed_listener);
   (listener_3, open_listener)].

(** A listener that has been sent [payload] and nothing else. *)
Definition delivered (payload : list Z) : BaseListener.t :=
  BaseListener.mk (mkStream [] [] false [payload]).

(** An identifier of five characters and nine bytes, and the message a
    source of that name generates first. *)
Definition id_nine_bytes : string := "aéééé".
Definition msg_nine_bytes : SourceMessage.t :=
  SourceMessage.mk 0x01 0 id_nine_bytes SourceMessage.STATUS_IDLE None.

(** A source as [Source('abc')] leaves it. *)
Definition source_abc : BaseSource.t := BaseSource.mk "abc" [] (Some Source.STATUS_IDLE).

(** ** Closed forms of the encoder *)

(** The twelve bytes of the field [key] of [d]: its name in an eight-byte
    slot, then its value on four bytes. *)
Definition field_chunk (d : gmap string Z) (key : string) : list Z :=
  trim_bytes (str_encode key) 8 ++ be_digits 4 (default 0 (d !! key)).

(** The field bytes of a frame for the fields [keys] of [d], in that
    order. *)
Definition field_section (d : gmap string Z) (keys : list string) : list Z :=
  concat (field_chunk d <$> keys).

(** The names of the fields of [d] in the order [_encode_data] writes
    them. *)
Definition wire_order (d : gmap string Z) : list string :=
  sorted (map_to_list d).*1.

(** The body of the frame of [m], without the checksum byte. *)
Definition layout (m : SourceMessage.t) : list Z :=
  [SourceMessage.header m] ++ be_digits 2 (SourceMessage.num m)
  ++ trim_bytes (str_encode (SourceMessage.source_id m)) 8
  ++ [SourceMessage.status m]
  ++ Z.of_nat (size (field_map (SourceMessage.data m)))
     :: field_section (field_map (SourceMessage.data m))
          (wire_order (field_map (SourceMessage.data m))).

(** Every number of [m] fits the width the wire format gives it. *)
Definition fits_wire (m : SourceMessage.t) : Prop :=
  0 ≤ SourceMessage.header m < 256
  ∧ 0 ≤ SourceMessage.num m < 65536
  ∧ 0 ≤ SourceMessage.status m < 256
  ∧ map_Forall (λ _ v, 0 ≤ v < 2 ^ 32) (field_map (SourceMessage.data m))
  ∧ (size (field_map (SourceMessage.data m)) ≤ 255)%nat.

(** The sequence number, the status or a field value of [m] is negative
    or too wide. *)
Definition value_overflows (m : SourceMessage.t) : Prop :=
  ¬ (0 ≤ SourceMessage.num m < 65536)
  ∨ ¬ (0 ≤ SourceMessage.status m < 256)
  ∨ ∃ k v, field_map (SourceMessage.data m) !! k = Some v ∧ ¬ (0 ≤ v < 2 ^ 32).

(** ** Sources over time *)

(** What a program does to a source. *)
Inductive source_op : Type :=
| SetStatus (value : Z)
| GetMessage (message : SourceMessage.t)
| NewMessage (data : option (gmap string Z)).

Definition source_step (self : BaseSource.t) (op : source_op) : result BaseSource.t :=
  match op with
  | SetStatus value => Source.set_status self value
  | GetMessage message => Source.get_message self message
  | NewMessage data => r ← Source.new_message self data; Ok r.2
  end.

(** The source after [op], whether [op] went through or raised: the
    three operations raise before they change anything. *)
Definition source_after (self : BaseSource.t) (op : source_op) : BaseSource.t :=
  match source_step self op with
  | Ok self' => self'
  | Raise _ => self
  end.

(** The status of a source is one of the three defined ones. *)
Definition status_defined (self : BaseSource.t) : Prop :=
  ∃ v, BaseSource._status self = Some v ∧ 1 ≤ v ≤ 3.

(** ** Listeners *)

(** The listener [l] after [payload] has been written to its stream. *)
Definition sent (payload : list Z) (l : BaseListener.t) : BaseListener.t :=
  BaseListener.mk
    (mkStream (rbuf (BaseListener.stream l)) (incoming (BaseListener.stream l))
       false (written (BaseListener.stream l) ++ [payload])).

Definition listener_open (l : BaseListener.t) : Prop :=
  closed (BaseListener.stream l) = false.

(** Every listener of [d] after [payload] has been written to it. *)
Definition sent_all (payload : list Z) (d : dict BaseListener.t) : dict BaseListener.t :=
  (λ kv, (kv.1, sent payload kv.2)) <$> d.

(** ** The dispatcher *)

(** The frames the server answers with. *)
Definition success_ack (n : Z) : list Z :=
  ServerMessage.HEADER_SUCCESS :: be_digits 2 n
  ++ [xor_all (ServerMessage.HEADER_SUCCESS :: be_digits 2 n)].
Definition error_ack : list Z := [0x12; 0x00; 0x00; 0x12].

(** A registry of listeners with distinct addresses, all of them with an
    open stream. *)
Definition listeners_ok (d : dict BaseListener.t) : Prop :=
  NoDup d.*1 ∧ Forall (λ kv, listener_open kv.2) d.

(** The source registered under the identifier of [m] once [m] has been
    received: the one there was, updated, or a new one. *)
Definition source_after_message (registry : ApplicationServer.sources_dict)
    (m : SourceMessage.t) : BaseSource.t :=
  match ApplicationServer.sources_get (SourceMessage.source_id m) registry with
  | Some source =>
    BaseSource.mk (BaseSource.source_id source) (BaseSource.messages source ++ [m])
      (Some (SourceMessage.status m))
  | None =>
    BaseSource.mk (SourceMessage.source_id m) [m] (Some (SourceMessage.status m))
  end.

(** The stream [s] after [frame] has been written to it. *)
Definition wrote (frame : list Z) (s : IOStream) : IOStream :=
  mkStream (rbuf s) (incoming s) false (written s ++ [frame]).

(** The server once the status message [m] has been received and
    processed: its source registered or updated, its text sent to every
    listener. *)
Definition server_after (text : SourceMessage.t → list Z)
    (self : ApplicationServer.t) (m : SourceMessage.t) : ApplicationServer.t :=
  ApplicationServer.mk
    (ApplicationServer.sources_set (SourceMessage.source_id m)
       (source_after_message (ApplicationServer.sources self) (normalise m))
       (ApplicationServer.sources self))
    (sent_all (text (normalise m)) (ApplicationServer.listeners self)).

(** * Properties *)

(** ** Integers and bytes *)

Lemma is_byte_spec b : is_byte b = true ↔ 0 ≤ b < 256.
Proof. unfold is_byte. rewrite andb_true_iff, Z.leb_le, Z.ltb_lt. tauto. Qed.

Lemma py_bytes_ok l : is_bytes l → py_bytes l = Ok l.
Proof.
  intros H. unfold py_bytes.
  assert (forallb is_byte l = true) as ->; [|done].
  apply forallb_forall. intros b Hb. apply is_byte_spec.
  unfold is_bytes in H. rewrite Forall_forall in H. apply H.
  by apply list_elem_of_In.
Qed.

Lemma length_be_digits n v : length (be_digits n v) = n.
Proof.
  revert v. induction n as [|n IH]; intros v; simpl; [done|].
  rewrite length_app, IH. simpl. lia.
Qed.

Lemma is_bytes_be_digits n v : is_bytes (be_digits n v).
Proof.
  revert v. induction n as [|n IH]; intros v; simpl; [constructor|].
  apply Forall_app. split; [apply IH|].
  repeat constructor; apply Z.mod_pos_bound; lia.
Qed.

Lemma from_bytes_snoc l b : from_bytes (l ++ [b]) = from_bytes l * 256 + b.
Proof. unfold from_bytes. by rewrite fold_left_app. Qed.

Lemma from_bytes_be_digits n v :
  0 ≤ v < 256 ^ Z.of_nat n → from_bytes (be_digits n v) = v.
Proof.
  revert v. induction n as [|n IH]; intros v Hv.
  - simpl in *. unfold from_bytes. simpl. lia.
  - simpl be_digits. rewrite from_bytes_snoc, IH.
    + pose proof (Z.div_mod v 256). lia.
    + rewrite Nat2Z.inj_succ, Z.pow_succ_r in Hv by lia.
      split; [apply Z.div_pos; lia|].
      apply Z.div_lt_upper_bound; lia.
Qed.

Lemma to_bytes_ok n v :
  0 ≤ v < 256 ^ Z.of_nat n → to_bytes n v = Ok (be_digits n v).
Proof.
  intros [H1 H2]. unfold to_bytes.
  apply Z.leb_le in H1. apply Z.ltb_lt in H2. by rewrite H1, H2.
Qed.

Lemma to_bytes_overflow n v :
  ¬ (0 ≤ v < 256 ^ Z.of_nat n) → to_bytes n v = Raise OverflowError.
Proof.
  intros H. unfold to_bytes.
  destruct (0 <=? v) eqn:E1; [|done].
  destruct (v <? 256 ^ Z.of_nat n) eqn:E2; [|done].
  apply Z.leb_le in E1. apply Z.ltb_lt in E2. lia.
Qed.

(** ** The XOR fold *)

Lemma fold_lxor_init l a : fold_left Z.lxor l a = Z.lxor a (xor_all l).
Proof.
  unfold xor_all. revert a. induction l as [|b l IH]; intros a.
  - simpl. by rewrite Z.lxor_0_r.
  - change (fold_left Z.lxor l (Z.lxor a b)
            = Z.lxor a (fold_left Z.lxor l (Z.lxor 0 b))).
    rewrite (IH (Z.lxor a b)), (IH (Z.lxor 0 b)), Z.lxor_0_l.
    by rewrite Z.lxor_assoc.
Qed.

Lemma xor_all_cons b l : xor_all (b :: l) = Z.lxor b (xor_all l).
Proof. unfold xor_all at 1. simpl. apply fold_lxor_init. Qed.

Lemma xor_all_app l1 l2 : xor_all (l1 ++ l2) = Z.lxor (xor_all l1) (xor_all l2).
Proof.
  induction l1 as [|b l1 IH]; simpl.
  - done.
  - by rewrite !xor_all_cons, IH, Z.lxor_assoc.
Qed.

Lemma xor_checksum_cons b l : xor_checksum (b :: l) = Ok (xor_all (b :: l)).
Proof. simpl. by rewrite fold_lxor_init, xor_all_cons. Qed.

Lemma lxor_byte a b : 0 ≤ a < 256 → 0 ≤ b < 256 → 0 ≤ Z.lxor a b < 256.
Proof.
  intros Ha Hb.
  assert (0 ≤ Z.lxor a b) as Hnn by (apply Z.lxor_nonneg; lia).
  split; [done|].
  destruct (Z.eq_dec (Z.lxor a b) 0) as [->|Hne]; [lia|].
  apply (Z.log2_lt_pow2 _ 8); [lia|].
  pose proof (Z.log2_lxor a b ltac:(lia) ltac:(lia)) as Hl.
  assert (Z.log2 a < 8).
  { destruct (Z.eq_dec a 0) as [->|]; [simpl; lia|].
    apply Z.log2_lt_pow2; lia. }
  assert (Z.log2 b < 8).
  { destruct (Z.eq_dec b 0) as [->|]; [simpl; lia|].
    apply Z.log2_lt_pow2; lia. }
  lia.
Qed.

Lemma xor_all_byte l : is_bytes l → 0 ≤ xor_all l < 256.
Proof.
  induction 1 as [|b l Hb Hl IH]; [unfold xor_all; simpl; lia|].
  rewrite xor_all_cons. by apply lxor_byte.
Qed.

Lemma lxor_pow2_ne a k : 0 ≤ k → Z.lxor a (2 ^ k) ≠ a.
Proof.
  intros Hk Heq.
  assert (Z.lxor a (Z.lxor a (2 ^ k)) = 0) as H by (rewrite Heq; apply Z.lxor_nilpotent).
  rewrite <- Z.lxor_assoc, Z.lxor_nilpotent, Z.lxor_0_l in H.
  pose proof (Z.pow_pos_nonneg 2 k). lia.
Qed.

Lemma lxor_pow2_byte a k : 0 ≤ a < 256 → 0 ≤ k < 8 → 0 ≤ Z.lxor a (2 ^ k) < 256.
Proof.
  intros Ha Hk. apply lxor_byte; [done|].
  split; [apply Z.pow_nonneg; lia|].
  change 256 with (2 ^ 8). apply Z.pow_lt_mono_r; lia.
Qed.

(** ** [trim_bytes] *)

Lemma length_trim_bytes l n : length (trim_bytes l n) = n.
Proof.
  unfold trim_bytes. destruct (length (take n l) <? n)%nat eqn:E.
  - apply Nat.ltb_lt in E. rewrite length_app, length_replicate. lia.
  - apply Nat.ltb_ge in E. rewrite length_take in *. lia.
Qed.

Lemma trim_bytes_short l n :
  (length l ≤ n)%nat → trim_bytes l n = replicate (n - length l) 0 ++ l.
Proof.
  intros H. unfold trim_bytes. rewrite take_ge by done.
  destruct (length l <? n)%nat eqn:E; [done|].
  apply Nat.ltb_ge in E. by replace (n - length l)%nat with 0%nat by lia.
Qed.


Lemma is_bytes_trim_bytes l n : is_bytes l → is_bytes (trim_bytes l n).
Proof.
  intros H. unfold trim_bytes.
  assert (is_bytes (take n l)) by (by apply Forall_take).
  destruct (_ <? _)%nat; [|done].
  apply Forall_app. split; [|done].
  apply Forall_replicate. lia.
Qed.

(** ** Text *)

Lemma byte_of_ascii_range c : 0 ≤ byte_of_ascii c < 256.
Proof.
  unfold byte_of_ascii. pose proof (N_ascii_bounded c). lia.
Qed.

Lemma ascii_of_byte_of_ascii c : ascii_of_byte (byte_of_ascii c) = c.
Proof. unfold ascii_of_byte, byte_of_ascii. by rewrite N2Z.id, ascii_N_embedding. Qed.

Lemma is_bytes_str_encode s : is_bytes (str_encode s).
Proof.
  unfold str_encode, is_bytes. apply Forall_forall. intros b Hb.
  apply list_elem_of_In, in_map_iff in Hb as (c & <- & _). apply byte_of_ascii_range.
Qed.

Lemma string_of_str_encode s :
  string_of_list_ascii (map ascii_of_byte (str_encode s)) = s.
Proof.
  unfold str_encode. rewrite map_map.
  rewrite (map_ext _ id), map_id; [apply string_of_list_ascii_of_string|].
  intros c. apply ascii_of_byte_of_ascii.
Qed.

Lemma utf8_valid_zeros k l : utf8_valid (replicate k 0 ++ l) = utf8_valid l.
Proof. induction k as [|k IH]; [done|]. simpl replicate. simpl app. by simpl. Qed.

Lemma replace_nul_id s : no_nul s → replace_nul s = s.
Proof.
  unfold no_nul, str_encode. induction s as [|c s IH]; intros H; [done|].
  simpl in *. apply not_elem_of_cons in H as [Hc Hs].
  destruct (Ascii.eqb c zero) eqn:E.
  - apply Ascii.eqb_eq in E. subst c. by destruct Hc.
  - by rewrite IH.
Qed.

Lemma replace_nul_zeros k l :
  replace_nul (string_of_list_ascii (map ascii_of_byte (replicate k 0 ++ l)))
  = replace_nul (string_of_list_ascii (map ascii_of_byte l)).
Proof. induction k as [|k IH]; [done|]. simpl. apply IH. Qed.

(** Decoding a slot written by [trim_bytes] gives the text back. *)
Lemma decode_slot s :
  text_ok s →
  ∃ s', str_decode (trim_bytes (str_encode s) 8) = Ok s' ∧ replace_nul s' = s.
Proof.
  intros [[Hv Hl] Hn]. rewrite trim_bytes_short by done.
  unfold str_decode. rewrite utf8_valid_zeros, Hv.
  eexists. split; [done|].
  by rewrite replace_nul_zeros, string_of_str_encode, replace_nul_id.
Qed.

(** ** Layout of a frame seen by [decode] *)

Lemma py_slice_1_m1_frame h body c : py_slice_1_m1 (h :: body ++ [c]) = body.
Proof.
  unfold py_slice_1_m1.
  replace (length (h :: body ++ [c]) - 2)%nat with (length body)
    by (simpl; rewrite length_app; simpl; lia).
  change (drop 1 (h :: body ++ [c])) with (body ++ [c]).
  apply take_app_length.
Qed.

Lemma py_last_frame l c : py_last (l ++ [c]) = Ok c.
Proof. unfold py_last. by rewrite last_snoc. Qed.

(** What [SourceMessage.decode] computes on a frame that has the fixed
    thirteen-byte prefix, whatever follows it. *)
Lemma SourceMessage_decode_frame h n1 n0 id8 st nf rest c :
  length id8 = 8%nat →
  SourceMessage.decode ([h; n1; n0] ++ id8 ++ [st; nf] ++ rest ++ [c])
  = (sid ← str_decode id8;
     data ← (if 0 <? nf
             then d ← except_as (SourceMessage._decode_data rest nf)
                        DecodeMessageError InvalidMessageException;
                  Ok (Some d)
             else Ok None);
     message ← SourceMessage.init (from_bytes [n1; n0]) (replace_nul sid) st (Some h) data;
     cs ← SourceMessage.check_sum message None;
     if negb (cs =? c) then raise_fmt InvalidMessageException 2 2 else Ok message).
Proof.
  intros Hlen.
  destruct id8 as [|i0 [|i1 [|i2 [|i3 [|i4 [|i5 [|i6 [|i7 [|]]]]]]]]]; try done.
  set (body := n1 :: n0 :: i0 :: i1 :: i2 :: i3 :: i4 :: i5 :: i6 :: i7
               :: st :: nf :: rest).
  match goal with
  | |- SourceMessage.decode ?f = _ => change f with ((h :: body) ++ [c])
  end.
  unfold SourceMessage.decode.
  rewrite py_last_frame.
  change ((h :: body) ++ [c]) with (h :: body ++ [c]).
  rewrite py_slice_1_m1_frame. done.
Qed.

(** ** The field section *)

Local Arguments be_digits : simpl never.
Local Arguments from_bytes : simpl never.
Local Arguments trim_bytes : simpl never.
Local Arguments str_encode : simpl never.

Lemma chunks_of_cons chunk rest n :
  length chunk = SourceMessage.chunk_size →
  SourceMessage.chunks_of (chunk ++ rest) (S n)
  = chunk :: SourceMessage.chunks_of rest n.
Proof.
  intros Hlen. unfold SourceMessage.chunks_of, SourceMessage.chunk_size in *.
  rewrite <- cons_seq, fmap_cons, <- fmap_S_seq, <- list_fmap_compose.
  f_equal.
  - unfold py_slice. change ((0 + 1) * 12 - 0 * 12)%nat with 12%nat.
    change (drop (0 * 12) (chunk ++ rest)) with (chunk ++ rest).
    by apply take_app_length'.
  - apply list_fmap_ext. intros _ i _. unfold compose, py_slice.
    replace ((S i + 1) * 12 - S i * 12)%nat with ((i + 1) * 12 - i * 12)%nat by lia.
    f_equal.
    replace (S i * 12)%nat with (length chunk + i * 12)%nat by lia.
    apply drop_app_add.
Qed.

Lemma encode_field_ok d key v :
  d !! key = Some v → 0 ≤ v < 2 ^ 32 →
  SourceMessage.encode_field d key
  = Ok (trim_bytes (str_encode key) 8 ++ be_digits 4 v).
Proof.
  intros Hk Hv. unfold SourceMessage.encode_field. rewrite Hk.
  rewrite to_bytes_ok by (simpl; lia). done.
Qed.

Lemma encode_decode_fields d keys :
  Forall (key_ok d) keys →
  ∃ fb, SourceMessage.encode_fields d keys = Ok fb
        ∧ length fb = (length keys * SourceMessage.chunk_size)%nat
        ∧ is_bytes fb
        ∧ ∀ acc, SourceMessage.decode_chunks
                   (SourceMessage.chunks_of fb (length keys)) acc
                 = Ok (foldl (λ a k, <[k := default 0 (d !! k)]> a) acc keys).
Proof.
  induction 1 as [|key keys [Htext (v & Hk & Hv)] _ (fb & Henc & Hlen & Hb & Hdec)].
  - exists []. split; [done|]. split; [done|]. split; [constructor|done].
  - exists ((trim_bytes (str_encode key) 8 ++ be_digits 4 v) ++ fb).
    assert (length (trim_bytes (str_encode key) 8 ++ be_digits 4 v)
            = SourceMessage.chunk_size) as Hchunk.
    { rewrite length_app, length_trim_bytes, length_be_digits. done. }
    split; [|split; [|split]].
    + simpl. rewrite (encode_field_ok _ _ v) by done. simpl. by rewrite Henc.
    + rewrite length_app, Hchunk, Hlen. simpl. lia.
    + apply Forall_app. split; [|done]. apply Forall_app. split.
      * apply is_bytes_trim_bytes, is_bytes_str_encode.
      * apply is_bytes_be_digits.
    + intros acc. simpl length. rewrite chunks_of_cons by done.
      simpl SourceMessage.decode_chunks.
      rewrite take_app_length' by (by rewrite length_trim_bytes).
      rewrite drop_app_length' by (by rewrite length_trim_bytes).
      destruct (decode_slot key Htext) as (s' & -> & Hs').
      change (Ok s' ≫= ?f) with (f s'). cbv beta.
      rewrite Hs', from_bytes_be_digits by (simpl; lia).
      rewrite Hdec. simpl. by rewrite Hk.
Qed.

(** Re-inserting every binding of [d], in any order, rebuilds [d]. *)
Lemma foldl_insert_lookup (d acc : gmap string Z) keys k :
  foldl (λ a k, <[k := default 0 (d !! k)]> a) acc keys !! k
  = if decide (k ∈ keys) then Some (default 0 (d !! k)) else acc !! k.
Proof.
  revert acc. induction keys as [|k' keys IH]; intros acc.
  - destruct (decide (k ∈ [])) as [H|_]; [by apply elem_of_nil in H|done].
  - cbn [foldl]. rewrite IH.
    destruct (decide (k ∈ keys)) as [Hin|Hnin];
      destruct (decide (k ∈ k' :: keys)) as [Hin'|Hnin']; try done.
    + destruct Hnin'. by right.
    + apply elem_of_cons in Hin' as [->|?]; [|done]. by rewrite lookup_insert_eq.
    + apply not_elem_of_cons in Hnin' as [Hne _]. by rewrite lookup_insert_ne.
Qed.

Lemma foldl_insert_rebuild (d : gmap string Z) keys :
  keys ≡ₚ (map_to_list d).*1 →
  foldl (λ a k, <[k := default 0 (d !! k)]> a) ∅ keys = d.
Proof.
  intros Hp. apply map_eq. intros k. rewrite foldl_insert_lookup.
  destruct (decide (k ∈ keys)) as [Hin|Hnin].
  - rewrite Hp in Hin. apply list_elem_of_fmap in Hin as ([k' v] & -> & Hin).
    apply elem_of_map_to_list in Hin. simpl. by rewrite Hin.
  - rewrite lookup_empty. symmetry. apply eq_None_not_Some. intros [v Hv].
    apply Hnin. rewrite Hp. apply list_elem_of_fmap. exists (k, v).
    split; [done|]. by apply elem_of_map_to_list.
Qed.

Lemma sorted_Permutation keys : sorted keys ≡ₚ keys.
Proof. apply merge_sort_Permutation. Qed.

Lemma length_sorted_keys (d : gmap string Z) :
  length (sorted (map_to_list d).*1) = size d.
Proof.
  rewrite sorted_Permutation, length_fmap. apply length_map_to_list.
Qed.

Lemma keys_ok_sorted d :
  map_Forall (λ k v, text_ok k ∧ 0 ≤ v < 2 ^ 32) d →
  Forall (key_ok d) (sorted (map_to_list d).*1).
Proof.
  intros H. rewrite sorted_Permutation. apply Forall_forall. intros k Hk.
  apply list_elem_of_fmap in Hk as ([k' v] & -> & Hin).
  apply elem_of_map_to_list in Hin. simpl.
  destruct (H _ _ Hin) as [Ht Hv]. split; [done|]. by exists v.
Qed.

(** ** [get_raw] and [decode] on encodable messages *)

Lemma fields_tail data :
  fields_ok (field_map data) →
  ∃ nf fb,
    (if SourceMessage.truthy_dict data
     then fields ← SourceMessage._encode_data (default ∅ data);
          Ok (Z.of_nat (size (default ∅ data)) :: fields)
     else Ok [0x00]) = Ok (nf :: fb)
    ∧ 0 ≤ nf < 256 ∧ tail_of data nf fb.
Proof.
  intros [Hall Hsize]. destruct (SourceMessage.truthy_dict data) eqn:Ht.
  - destruct data as [d|]; [|done]. simpl in *.
    apply negb_true_iff, Nat.eqb_neq in Ht.
    destruct (encode_decode_fields d _ (keys_ok_sorted d Hall))
      as (fb & Henc & Hlen & Hb & Hdec).
    rewrite length_sorted_keys in Hlen, Hdec.
    exists (Z.of_nat (size d)), fb. unfold SourceMessage._encode_data.
    rewrite Henc. split; [done|]. split; [lia|]. split; [done|].
    right. exists d. repeat split; try done; try lia.
    + simpl. by apply negb_true_iff, Nat.eqb_neq.
    + unfold SourceMessage._decode_data. rewrite Hlen.
      rewrite Nat2Z.inj_mul, Z.eqb_refl. simpl negb. cbv iota.
      rewrite Nat2Z.id, Hdec. f_equal. apply foldl_insert_rebuild.
      apply sorted_Permutation.
  - exists 0, []. split; [done|]. split; [lia|]. split; [constructor|].
    by left.
Qed.

Lemma get_raw_layout m :
  encodable m →
  ∃ nf fb,
    SourceMessage.get_raw m
    = Ok ([SourceMessage.header m] ++ be_digits 2 (SourceMessage.num m)
          ++ trim_bytes (str_encode (SourceMessage.source_id m)) 8
          ++ [SourceMessage.status m; nf] ++ fb)
    ∧ 0 ≤ nf < 256 ∧ tail_of (SourceMessage.data m) nf fb.
Proof.
  intros (Hh & Hn & Hs & Hid & Hf).
  destruct (fields_tail _ Hf) as (nf & fb & Htail & Hnf & Hrel).
  exists nf, fb. split; [|done].
  unfold SourceMessage.get_raw.
  rewrite (to_bytes_ok 2), (to_bytes_ok 1), Htail by (simpl; lia).
  simpl except_as. simpl except_all.
  repeat (change (Ok ?x ≫= ?f) with (f x); cbv beta).
  assert (be_digits 1 (SourceMessage.status m) = [SourceMessage.status m]) as ->.
  { unfold be_digits. simpl. by rewrite Z.mod_small. }
  rewrite py_bytes_ok; [done|].
  destruct Hrel as [Hb _].
  apply Forall_cons. split; [done|].
  apply Forall_app. split; [apply is_bytes_be_digits|].
  apply Forall_app. split; [apply is_bytes_trim_bytes, is_bytes_str_encode|].
  apply Forall_cons. split; [done|]. by apply Forall_cons.
Qed.

Lemma get_raw_normalise m : SourceMessage.get_raw (normalise m) = SourceMessage.get_raw m.
Proof.
  destruct m as [h n s st [d|]]; [|done].
  unfold normalise, SourceMessage.get_raw. simpl.
  by destruct (size d =? 0)%nat eqn:E; simpl; rewrite ?E.
Qed.

Lemma be_digits_2 v : be_digits 2 v = [Z.modulo (v / 256) 256; Z.modulo v 256].
Proof. done. Qed.

(** What [decode] does with the bytes [get_raw] lays out for an encodable
    message, followed by any trailing byte [c]. *)
Lemma decode_layout m c :
  encodable m →
  ∃ raw, SourceMessage.get_raw m = Ok raw
    ∧ is_bytes raw
    ∧ xor_checksum raw = Ok (xor_all raw)
    ∧ SourceMessage.decode (raw ++ [c])
      = (message ← SourceMessage.init (SourceMessage.num m)
                     (SourceMessage.source_id m) (SourceMessage.status m)
                     (Some (SourceMessage.header m))
                     (SourceMessage.data (normalise m));
         cs ← SourceMessage.check_sum message None;
         if negb (cs =? c) then raise_fmt InvalidMessageException 2 2
         else Ok message).
Proof.
  intros Hm. destruct (get_raw_layout m Hm) as (nf & fb & Hraw & Hnf & Hb & Htail).
  destruct Hm as (Hh & Hn & Hs & Hid & Hf).
  eexists. split; [exact Hraw|]. split; [|split].
  - apply Forall_cons. split; [done|].
    apply Forall_app. split; [apply is_bytes_be_digits|].
    apply Forall_app. split; [apply is_bytes_trim_bytes, is_bytes_str_encode|].
    apply Forall_cons. split; [done|]. by apply Forall_cons.
  - exact (xor_checksum_cons _ _).
  - rewrite be_digits_2.
    rewrite <- !app_assoc.
    change ([SourceMessage.header m] ++ [?a; ?b] ++ ?l)
      with ([SourceMessage.header m; a; b] ++ l).
    rewrite SourceMessage_decode_frame by apply length_trim_bytes.
    destruct (decode_slot _ Hid) as (s' & -> & Hs').
    change (Ok s' ≫= ?f) with (f s'). cbv beta. rewrite Hs'.
    rewrite <- be_digits_2, from_bytes_be_digits by (simpl; lia).
    destruct Htail as [(Ht & -> & ->)|(d & Hd & Ht & -> & Hpos & Hlen & Hdec)].
    + unfold normalise. simpl SourceMessage.data. rewrite Ht. done.
    + unfold normalise. simpl SourceMessage.data. rewrite Ht, Hd.
      assert ((0 <? Z.of_nat (size d)) = true) as -> by (apply Z.ltb_lt; lia).
      rewrite Hdec. done.
Qed.

Lemma init_valid m :
  valid_status_message m →
  SourceMessage.init (SourceMessage.num m) (SourceMessage.source_id m)
    (SourceMessage.status m) (Some (SourceMessage.header m))
    (SourceMessage.data (normalise m)) = Ok (normalise m).
Proof.
  intros (Hh & _ & Hs & _). unfold SourceMessage.init, normalise.
  rewrite Hh. simpl. by rewrite Hs.
Qed.

Lemma in_STATUS_range st : SourceMessage.in_STATUS st = true → 1 ≤ st ≤ 3.
Proof.
  unfold SourceMessage.in_STATUS, SourceMessage.STATUS_IDLE,
    SourceMessage.STATUS_ACTIVE, SourceMessage.STATUS_RECHARGE.
  rewrite !orb_true_iff, !Z.eqb_eq. lia.
Qed.

Lemma valid_encodable m : valid_status_message m → encodable m.
Proof.
  intros (Hh & Hn & Hs%in_STATUS_range & Hid & Hf). unfold encodable.
  rewrite Hh. unfold SourceMessage.DEFAULT_HEADER.
  split; [lia|]. split; [lia|]. split; [lia|]. done.
Qed.

(** The heart of the codec: the frame of a valid message, with any
    trailing byte in place of the checksum, decodes to the message exactly
    when that byte is the XOR of the body. *)
Lemma decode_valid m c :
  valid_status_message m →
  ∃ raw, SourceMessage.get_raw m = Ok raw
    ∧ is_bytes raw
    ∧ SourceMessage.encode m = Ok (raw ++ [xor_all raw])
    ∧ SourceMessage.decode (raw ++ [c])
      = if xor_all raw =? c then Ok (normalise m)
        else Raise InvalidMessageException.
Proof.
  intros Hm.
  destruct (decode_layout m c (valid_encodable m Hm)) as (raw & Hraw & Hb & Hx & Hdec).
  exists raw. split; [done|]. split; [done|]. split.
  - unfold SourceMessage.encode. rewrite Hraw.
    change (Ok raw ≫= ?f) with (f raw). cbv beta.
    assert (SourceMessage.check_sum m (Some raw) = Ok (xor_all raw)) as ->.
    { unfold SourceMessage.check_sum. destruct raw; [done|]. done. }
    change (Ok ?x ≫= ?f) with (f x). cbv beta.
    rewrite py_bytes_ok; [done|].
    apply Forall_cons. split; [by apply xor_all_byte|constructor].
  - rewrite Hdec, init_valid by done.
    change (Ok ?x ≫= ?f) with (f x). cbv beta.
    unfold SourceMessage.check_sum. rewrite get_raw_normalise, Hraw.
    change (Ok ?x ≫= ?f) with (f x). cbv beta. rewrite Hx.
    change (Ok ?x ≫= ?f) with (f x). cbv beta.
    by destruct (xor_all raw =? c).
Qed.

(** ** [ServerMessage] *)

Lemma ServerMessage_decode_frame h a b c :
  ServerMessage.decode [h; a; b; c]
  = (message ← ServerMessage.init (from_bytes [a; b]) (Some h);
     cs ← ServerMessage.check_sum message None;
     if negb (cs =? c) then raise_fmt InvalidMessageException 2 1
     else Ok message).
Proof. done. Qed.

Lemma ServerMessage_get_raw_ok m :
  valid_ack_message m →
  ServerMessage.get_raw m
  = Ok (ServerMessage.header m :: be_digits 2 (ServerMessage.num m)).
Proof.
  intros (Hh & Hn & _). unfold ServerMessage.get_raw.
  rewrite to_bytes_ok by (simpl; lia). simpl except_as.
  change (Ok ?x ≫= ?f) with (f x). cbv beta.
  apply py_bytes_ok. apply Forall_cons. split; [|apply is_bytes_be_digits].
  unfold ServerMessage.in_HEADERS, ServerMessage.HEADER_SUCCESS,
    ServerMessage.HEADER_ERROR in Hh.
  apply orb_true_iff in Hh as [?%Z.eqb_eq|?%Z.eqb_eq]; lia.
Qed.

Lemma ServerMessage_init_valid m :
  valid_ack_message m →
  ServerMessage.init (ServerMessage.num m) (Some (ServerMessage.header m)) = Ok m.
Proof.
  intros (Hh & Hn & He). unfold ServerMessage.init.
  destruct m as [h n]. simpl ServerMessage.header in *. simpl ServerMessage.num in *.
  assert (SourceMessage.truthy_int (Some h) = true) as ->.
  { unfold ServerMessage.in_HEADERS, ServerMessage.HEADER_SUCCESS,
      ServerMessage.HEADER_ERROR in Hh. simpl. apply negb_true_iff, Z.eqb_neq.
    apply orb_true_iff in Hh as [?%Z.eqb_eq|?%Z.eqb_eq]; lia. }
  simpl default. rewrite Hh. simpl negb. cbv iota.
  destruct (h =? ServerMessage.HEADER_ERROR) eqn:E; [|done].
  apply Z.eqb_eq in E. by rewrite (He E).
Qed.

(** An acknowledgement frame with any trailing byte [c]: accepted exactly
    when [c] is the XOR of the three bytes before it; a wrong [c] ends in
    the [IndexError] of the ill-formed message template. *)
Lemma ServerMessage_decode_valid m c :
  valid_ack_message m →
  ∃ raw, ServerMessage.get_raw m = Ok raw
    ∧ ServerMessage.encode m = Ok (raw ++ [xor_all raw])
    ∧ ServerMessage.decode (raw ++ [c])
      = if xor_all raw =? c then Ok m else Raise IndexError.
Proof.
  intros Hm. pose proof (ServerMessage_get_raw_ok m Hm) as Hraw.
  destruct Hm as (Hh & Hn & He).
  assert (is_bytes (ServerMessage.header m :: be_digits 2 (ServerMessage.num m))) as Hb.
  { apply Forall_cons. split; [|apply is_bytes_be_digits].
    unfold ServerMessage.in_HEADERS, ServerMessage.HEADER_SUCCESS,
      ServerMessage.HEADER_ERROR in Hh.
    apply orb_true_iff in Hh as [?%Z.eqb_eq|?%Z.eqb_eq]; lia. }
  eexists. split; [exact Hraw|]. split.
  - unfold ServerMessage.encode. rewrite Hraw.
    change (Ok ?x ≫= ?f) with (f x). cbv beta.
    unfold ServerMessage.check_sum. rewrite xor_checksum_cons.
    change (Ok ?x ≫= ?f) with (f x). cbv beta.
    rewrite py_bytes_ok; [done|].
    apply Forall_cons. split; [by apply xor_all_byte|constructor].
  - rewrite be_digits_2 in *.
    change ((?h :: [?a; ?b]) ++ [c]) with [h; a; b; c].
    rewrite ServerMessage_decode_frame, <- be_digits_2.
    rewrite from_bytes_be_digits by (simpl; lia).
    rewrite ServerMessage_init_valid by done.
    change (Ok ?x ≫= ?f) with (f x). cbv beta.
    unfold ServerMessage.check_sum. rewrite Hraw.
    change (Ok ?x ≫= ?f) with (f x). cbv beta.
    rewrite be_digits_2, xor_checksum_cons.
    change (Ok ?x ≫= ?f) with (f x). cbv beta.
    by destruct (_ =? c).
Qed.

(** ** Round trip *)

(** C2, as amended: for every status message whose sequence number,
    status, field values and field count fit their wire widths and whose
    identifier and field names are well-formed text of at most eight bytes
    without NUL characters, [decode(encode(m))] succeeds and gives back
    the header, the sequence number, the identifier, the status and the
    field map of [m] (a message without fields comes back without
    fields); for every acknowledgement with an allowed header, a sequence
    number that fits two bytes and sequence 0 under the error header,
    [decode(encode(m))] gives back [m]. *)
Theorem decode_encode_roundtrip :
  (∀ m, valid_status_message m →
     ∃ frame m', SourceMessage.encode m = Ok frame
       ∧ SourceMessage.decode frame = Ok m'
       ∧ SourceMessage.header m' = SourceMessage.header m
       ∧ SourceMessage.num m' = SourceMessage.num m
       ∧ SourceMessage.source_id m' = SourceMessage.source_id m
       ∧ SourceMessage.status m' = SourceMessage.status m
       ∧ field_map (SourceMessage.data m') = field_map (SourceMessage.data m))
  ∧ (∀ a, valid_ack_message a →
       ∃ frame, ServerMessage.encode a = Ok frame
         ∧ ServerMessage.decode frame = Ok a).
Proof.
  split.
  - intros m Hm.
    destruct (decode_valid m (xor_all (default [] (match SourceMessage.get_raw m
                                                     with Ok r => Some r | _ => None end))) Hm)
      as (raw & Hraw & Hb & Henc & Hdec).
    rewrite Hraw in Hdec. simpl default in Hdec. rewrite Z.eqb_refl in Hdec.
    exists (raw ++ [xor_all raw]), (normalise m).
    split; [done|]. split; [done|].
    repeat split. unfold normalise, field_map. simpl.
    destruct m as [h n s st [d|]]; simpl; [|done].
    destruct (size d =? 0)%nat eqn:E; simpl; [|done].
    apply Nat.eqb_eq in E. symmetry. by apply map_size_empty_inv.
  - intros a Ha.
    destruct (ServerMessage_decode_valid a
                (xor_all (default [] (match ServerMessage.get_raw a
                                      with Ok r => Some r | _ => None end))) Ha)
      as (raw & Hraw & Henc & Hdec).
    rewrite Hraw in Hdec. simpl default in Hdec. rewrite Z.eqb_refl in Hdec.
    by exists (raw ++ [xor_all raw]).
Qed.

(** Closes [text_ok s] for a concrete [s]. *)
Ltac solve_text_ok :=
  split; [split; [vm_compute; reflexivity | vm_compute; lia]
         | unfold no_nul; apply (bool_decide_unpack _); vm_compute; exact I].

Lemma decode_encode_roundtrip_witness :
  (∃ frame m', SourceMessage.encode msg_abc_fields = Ok frame
     ∧ SourceMessage.decode frame = Ok m'
     ∧ SourceMessage.header m' = SourceMessage.header msg_abc_fields
     ∧ SourceMessage.num m' = SourceMessage.num msg_abc_fields
     ∧ SourceMessage.source_id m' = SourceMessage.source_id msg_abc_fields
     ∧ SourceMessage.status m' = SourceMessage.status msg_abc_fields
     ∧ field_map (SourceMessage.data m') = field_map (SourceMessage.data msg_abc_fields))
  ∧ (∃ frame, ServerMessage.encode ack_success_1 = Ok frame
       ∧ ServerMessage.decode frame = Ok ack_success_1).
Proof.
  split.
  - apply (proj1 decode_encode_roundtrip msg_abc_fields).
    split; [reflexivity|]. split; [simpl; lia|]. split; [reflexivity|].
    split; [solve_text_ok|]. split; [|vm_compute; lia].
    unfold msg_abc_fields, field_map. simpl default.
    apply map_Forall_insert_2; [split; [solve_text_ok|lia]|].
    apply map_Forall_insert_2; [split; [solve_text_ok|lia]|].
    apply map_Forall_empty.
  - apply (proj2 decode_encode_roundtrip ack_success_1).
    split; [reflexivity|]. split; [simpl; lia|]. intros H. discriminate H.
Defined.

(** The claim of C2 fails on an identifier with a NUL character: the
    message encodes, its frame decodes, and the identifier that comes
    back is ["ab"], not the three-character identifier that went in. *)
Lemma roundtrip_drops_nul :
  (fits_slot (SourceMessage.source_id msg_nul_id)
   ∧ 0 ≤ SourceMessage.num msg_nul_id ≤ 65535
   ∧ SourceMessage.in_STATUS (SourceMessage.status msg_nul_id) = true)
  ∧ (frame ← SourceMessage.encode msg_nul_id; SourceMessage.decode frame)
    = Ok (SourceMessage.mk 0x01 1 "ab" SourceMessage.STATUS_IDLE None)
  ∧ SourceMessage.source_id msg_nul_id ≠ "ab"%string.
Proof.
  split; [|split].
  - split; [split; [vm_compute; reflexivity|vm_compute; lia]|].
    split; [simpl; lia|reflexivity].
  - vm_compute. reflexivity.
  - discriminate.
Qed.

(** ** Test vectors *)

(** C3: [StatusMessage(seq=1, id="abc", status=IDLE, fields=None)] encodes
    to exactly the fourteen bytes
    [01 00 01 00 00 00 00 00 61 62 63 01 00 61], and the same message with
    fields [{"abc": 0x010203, "def": 0x030201}] encodes to a frame whose
    last byte, the checksum, is [0x64]. *)
Theorem encode_end_to_end_vectors :
  (m ← SourceMessage.init 1 "abc" SourceMessage.STATUS_IDLE None None;
   SourceMessage.encode m)
  = Ok [0x01; 0x00; 0x01; 0x00; 0x00; 0x00; 0x00; 0x00; 0x61; 0x62; 0x63;
        0x01; 0x00; 0x61]
  ∧ ∃ frame,
      (m ← SourceMessage.init 1 "abc" SourceMessage.STATUS_IDLE None
             (SourceMessage.data msg_abc_fields);
       SourceMessage.encode m) = Ok frame
      ∧ last frame = Some 0x64
      ∧ frame = [0x01; 0x00; 0x01; 0x00; 0x00; 0x00; 0x00; 0x00; 0x61; 0x62; 0x63;
                 0x01; 0x02;
                 0x00; 0x00; 0x00; 0x00; 0x00; 0x61; 0x62; 0x63; 0x00; 0x01; 0x02; 0x03;
                 0x00; 0x00; 0x00; 0x00; 0x00; 0x64; 0x65; 0x66; 0x00; 0x03; 0x02; 0x01;
                 0x64].
Proof.
  split; [vm_compute; reflexivity|].
  eexists. split; [vm_compute; reflexivity|]. split; reflexivity.
Qed.

(** ** Padding *)



(** ** Frames with a zero field count *)

(** With a zero count byte [decode] never looks at what lies between the
    count byte and the last byte. *)
Lemma decode_zero_count_ignores h n1 n0 id8 st extra c :
  length id8 = 8%nat →
  SourceMessage.decode ([h; n1; n0] ++ id8 ++ [st; 0] ++ extra ++ [c])
  = SourceMessage.decode ([h; n1; n0] ++ id8 ++ [st; 0] ++ [] ++ [c]).
Proof. intros Hlen. by rewrite !SourceMessage_decode_frame. Qed.

(** C10: [SourceMessage.decode] does not check the frame length when the
    field-count byte is 0.  For a valid message without fields, the frame
    with any bytes [extra] inserted between the count byte and the
    checksum byte decodes to the same message as the genuine frame; the
    inserted bytes are discarded.  When their XOR is zero (two equal bytes,
    say) the trailing byte is moreover still the XOR of all bytes before
    it. *)
Theorem decode_accepts_padding_after_zero_count m extra :
  valid_status_message m →
  field_map (SourceMessage.data m) = ∅ →
  ∃ raw, SourceMessage.get_raw m = Ok raw
    ∧ SourceMessage.encode m = Ok (raw ++ [xor_all raw])
    ∧ SourceMessage.decode (raw ++ [xor_all raw]) = Ok (normalise m)
    ∧ SourceMessage.decode (raw ++ extra ++ [xor_all raw]) = Ok (normalise m)
    ∧ (xor_all extra = 0 → xor_all (raw ++ extra) = xor_all raw).
Proof.
  intros Hm Hempty.
  destruct (decode_valid m (xor_all (default [] (match SourceMessage.get_raw m
                                                   with Ok r => Some r | _ => None end))) Hm)
    as (raw & Hraw & Hb & Henc & Hdec).
  rewrite Hraw in Hdec. simpl default in Hdec. rewrite Z.eqb_refl in Hdec.
  exists raw. split; [done|]. split; [done|]. split; [done|]. split.
  - destruct (get_raw_layout m (valid_encodable m Hm)) as (nf & fb & Hraw' & _ & _ & Htail).
    destruct Htail as [(_ & -> & ->)|(d & Hd & Ht & _)].
    + assert (raw = [SourceMessage.header m] ++ be_digits 2 (SourceMessage.num m)
                    ++ trim_bytes (str_encode (SourceMessage.source_id m)) 8
                    ++ [SourceMessage.status m; 0] ++ []) as -> by congruence.
      rewrite <- Hdec. rewrite be_digits_2, <- !app_assoc.
      change ([SourceMessage.header m] ++ [?a; ?b] ++ ?l)
        with ([SourceMessage.header m; a; b] ++ l).
      apply decode_zero_count_ignores, length_trim_bytes.
    + rewrite Hd in Hempty, Ht. simpl in Hempty, Ht. subst d.
      by rewrite map_size_empty in Ht.
  - intros Hx. by rewrite xor_all_app, Hx, Z.lxor_0_r.
Qed.

Lemma decode_accepts_padding_after_zero_count_witness :
  ∃ raw, SourceMessage.get_raw msg_abc_plain = Ok raw
    ∧ SourceMessage.encode msg_abc_plain = Ok (raw ++ [xor_all raw])
    ∧ SourceMessage.decode (raw ++ [xor_all raw]) = Ok (normalise msg_abc_plain)
    ∧ SourceMessage.decode (raw ++ [0x07; 0x07] ++ [xor_all raw])
      = Ok (normalise msg_abc_plain)
    ∧ (xor_all [0x07; 0x07] = 0 → xor_all (raw ++ [0x07; 0x07]) = xor_all raw).
Proof.
  apply (decode_accepts_padding_after_zero_count msg_abc_plain [0x07; 0x07]).
  - split; [reflexivity|]. split; [simpl; lia|]. split; [reflexivity|].
    split; [solve_text_ok|]. split; [apply map_Forall_empty|vm_compute; lia].
  - reflexivity.
Defined.

(** ** Failure modes of the acknowledgement decoder *)

(** Any four-byte acknowledgement frame that passes the header and
    sequence checks but carries a wrong checksum byte ends in
    [IndexError], not in [InvalidMessageException]. *)
Lemma ServerMessage_bad_checksum_IndexError m c :
  valid_ack_message m → c ≠ xor_all (ServerMessage.header m :: be_digits 2 (ServerMessage.num m)) →
  ServerMessage.decode
    ((ServerMessage.header m :: be_digits 2 (ServerMessage.num m)) ++ [c])
  = Raise IndexError.
Proof.
  intros Hm Hc.
  destruct (ServerMessage_decode_valid m c Hm) as (raw & Hraw & _ & Hdec).
  rewrite ServerMessage_get_raw_ok in Hraw by done. injection Hraw as <-.
  rewrite Hdec. destruct (_ =? c) eqn:E; [|done].
  apply Z.eqb_eq in E. congruence.
Qed.

(** C6 (the code departs from the claim): the acknowledgement frame
    [11 00 01 00] has an allowed header and a trailing byte that differs
    from the XOR [0x10] of the bytes before it; [ServerMessage.decode]
    leaves with [IndexError], raised while the message of the intended
    [InvalidMessageException] is formatted. *)
Theorem ServerMessage_decode_bad_checksum :
  ServerMessage.in_HEADERS 0x11 = true
  ∧ xor_all [0x11; 0x00; 0x01] = 0x10
  ∧ ServerMessage.decode [0x11; 0x00; 0x01; 0x10] = Ok ack_success_1
  ∧ ServerMessage.decode [0x11; 0x00; 0x01; 0x00] = Raise IndexError.
Proof. repeat split. Qed.

(** ** Overflow in [encode] *)

Lemma get_raw_num_overflow m :
  ¬ (0 ≤ SourceMessage.num m ≤ 65535) →
  SourceMessage.encode m = Raise EncodeMessageError.
Proof.
  intros H. unfold SourceMessage.encode, SourceMessage.get_raw.
  rewrite (to_bytes_overflow 2); [reflexivity|].
  change (256 ^ Z.of_nat 2) with 65536. lia.
Qed.

Lemma get_raw_status_overflow m :
  ¬ (0 ≤ SourceMessage.status m ≤ 255) →
  SourceMessage.encode m = Raise EncodeMessageError.
Proof.
  intros H. unfold SourceMessage.encode, SourceMessage.get_raw.
  rewrite (to_bytes_overflow 1)
    by (change (256 ^ Z.of_nat 1) with 256; lia).
  unfold to_bytes. by destruct (_ && _).
Qed.

(** C5 (the code departs from the claim): a status message with 256
    fields, every other value within its width, does not fail with
    [EncodeMessageError]: [get_raw] appends the count 256 to the list of
    byte values and the final [bytes(...)] raises [ValueError].  With 255
    fields the same message encodes. *)
Theorem encode_256_fields_ValueError :
  size (many_fields 256) = 256%nat
  ∧ SourceMessage.encode msg_256_fields = Raise ValueError
  ∧ (∃ frame, SourceMessage.encode
                (SourceMessage.mk 0x01 1 "abc" SourceMessage.STATUS_IDLE
                   (Some (many_fields 255))) = Ok frame).
Proof.
  split; [vm_compute; reflexivity|]. split; [vm_compute; reflexivity|].
  eexists. vm_compute. reflexivity.
Qed.

Lemma encode_field_overflow d key v :
  d !! key = Some v → ¬ (0 ≤ v < 2 ^ 32) →
  SourceMessage.encode_field d key = Raise EncodeMessageError.
Proof.
  intros Hk Hv. unfold SourceMessage.encode_field. rewrite Hk.
  rewrite to_bytes_overflow; [done|].
  change (256 ^ Z.of_nat 4) with (2 ^ 32). lia.
Qed.

Lemma encode_fields_overflow d keys :
  (∀ k, k ∈ keys → is_Some (d !! k)) →
  (∃ k v, k ∈ keys ∧ d !! k = Some v ∧ ¬ (0 ≤ v < 2 ^ 32)) →
  SourceMessage.encode_fields d keys = Raise EncodeMessageError.
Proof.
  induction keys as [|key keys IH]; intros Hdom (k & v & Hin & Hk & Hv).
  - by apply elem_of_nil in Hin.
  - destruct (Hdom key ltac:(left)) as [v' Hkey].
    cbn [SourceMessage.encode_fields].
    destruct (decide (0 ≤ v' < 2 ^ 32)) as [Hv'|Hv'].
    + rewrite (encode_field_ok _ _ v') by done.
      change (Ok ?x ≫= ?f) with (f x). cbv beta.
      rewrite IH; [done| |].
      * intros k' Hk'. apply Hdom. by right.
      * apply elem_of_cons in Hin as [->|Hin]; [congruence|]. by exists k, v.
    + by rewrite (encode_field_overflow _ _ v').
Qed.

(** A field value that needs more than four bytes makes [encode] fail
    with [EncodeMessageError], whatever the number of fields. *)
Lemma encode_value_overflow m d k v :
  SourceMessage.data m = Some d → d !! k = Some v → ¬ (0 ≤ v < 2 ^ 32) →
  SourceMessage.encode m = Raise EncodeMessageError.
Proof.
  intros Hd Hk Hv. unfold SourceMessage.encode, SourceMessage.get_raw.
  unfold to_bytes.
  destruct ((0 <=? SourceMessage.num m) && _); [|reflexivity]. simpl except_as.
  change (Ok ?x ≫= ?f) with (f x). cbv beta.
  destruct ((0 <=? SourceMessage.status m) && _); [|reflexivity]. simpl except_all.
  change (Ok ?x ≫= ?f) with (f x). cbv beta.
  rewrite Hd. simpl default.
  assert (SourceMessage.truthy_dict (Some d) = true) as ->.
  { simpl. apply negb_true_iff, Nat.eqb_neq. intros Hs.
    apply map_size_empty_inv in Hs. subst d. by rewrite lookup_empty in Hk. }
  unfold SourceMessage._encode_data. rewrite encode_fields_overflow; [done| |].
  - intros k' Hk'. rewrite sorted_Permutation in Hk'.
    apply list_elem_of_fmap in Hk' as ([k'' v''] & -> & Hin).
    apply elem_of_map_to_list in Hin. by exists v''.
  - exists k, v. split; [|done]. rewrite sorted_Permutation.
    apply list_elem_of_fmap. exists (k, v). split; [done|].
    by apply elem_of_map_to_list.
Qed.

(** ** Status values outside the defined set *)

(** C9, as amended: a status value outside [{IDLE=1, ACTIVE=2,
    RECHARGING=3}] is rejected when a status message is constructed with
    it, when a source is updated from a received message that carries it,
    and when it is assigned to the [status] property of a source; a source
    constructed with it is rejected too unless the value is 0, which the
    constructor takes for an omitted status and replaces by the default
    [IDLE]. *)
Theorem status_outside_set_rejected (v : Z) :
  ¬ (1 ≤ v ≤ 3) →
  (∀ num source_id header data,
     SourceMessage.init num source_id v header data = Raise InvalidMessageException)
  ∧ (v ≠ 0 → ∀ source_id, Source.init source_id (Some v) = Raise SourceException)
  ∧ (∀ source message,
       SourceMessage.status message = v →
       Source.get_message source message = Raise SourceException)
  ∧ (∀ source, Source.set_status source v = Raise SourceException)
  ∧ (∀ source_id, (str_len source_id ≤ Source.SOURCE_NAME_LENGTH)%nat →
       Source.init source_id (Some 0)
       = Ok (BaseSource.mk source_id [] (Some Source.STATUS_IDLE))).
Proof.
  intros Hv.
  assert (SourceMessage.in_STATUS v = false) as Hmsg.
  { unfold SourceMessage.in_STATUS, SourceMessage.STATUS_IDLE,
      SourceMessage.STATUS_ACTIVE, SourceMessage.STATUS_RECHARGE.
    rewrite !orb_false_iff, !Z.eqb_neq. lia. }
  assert (∀ source, BaseSource.set_status Source.class source v
                    = Raise SourceException) as Hset.
  { intros source. unfold BaseSource.set_status. simpl.
    rewrite bool_decide_eq_false_2; [done|].
    unfold Source.STATUS_IDLE, Source.STATUS_ACTIVE, Source.STATUS_RECHARGE.
    rewrite !elem_of_cons, elem_of_nil. lia. }
  split; [|split; [|split; [|split]]].
  - intros num source_id header data. unfold SourceMessage.init.
    rewrite Hmsg. by destruct (negb _).
  - intros Hne source_id. unfold Source.init.
    destruct (_ <? _)%nat; [done|]. unfold BaseSource.init.
    assert (SourceMessage.truthy_int (Some v) = true) as ->
      by (simpl; apply negb_true_iff, Z.eqb_neq; done).
    apply Hset.
  - intros source message <-. unfold Source.get_message, BaseSource.get_message.
    by rewrite Hset.
  - apply Hset.
  - intros source_id Hlen. unfold Source.init.
    apply Nat.ltb_ge in Hlen. by rewrite Hlen.
Qed.

Lemma status_outside_set_rejected_witness :
  (∀ num source_id header data,
     SourceMessage.init num source_id 0x22 header data = Raise InvalidMessageException)
  ∧ (0x22 ≠ 0 → ∀ source_id, Source.init source_id (Some 0x22) = Raise SourceException)
  ∧ (∀ source message,
       SourceMessage.status message = 0x22 →
       Source.get_message source message = Raise SourceException)
  ∧ (∀ source, Source.set_status source 0x22 = Raise SourceException)
  ∧ (∀ source_id, (str_len source_id ≤ Source.SOURCE_NAME_LENGTH)%nat →
       Source.init source_id (Some 0)
       = Ok (BaseSource.mk source_id [] (Some Source.STATUS_IDLE))).
Proof. apply (status_outside_set_rejected 0x22). lia. Defined.

(** The claim of C9 fails for the status 0 at the construction of a
    source: [Source('abc', 0)] is not rejected, it yields a source in
    status [IDLE]. *)
Lemma source_with_status_0_accepted :
  ¬ (1 ≤ 0 ≤ 3)
  ∧ Source.init "abc" (Some 0) = Ok source_abc
  ∧ BaseSource._status source_abc = Some Source.STATUS_IDLE.
Proof. split; [lia|]. split; reflexivity. Qed.

(** ** Broadcast *)

(** When every listener accepts the write, each of them is sent the text
    of the message once and the broadcast returns normally. *)
Lemma broadcast_loop_all_open {Message} (text : Message → list Z) message
    used (items listeners : dict BaseListener.t) :
  length listeners = used →
  Forall (λ kv, closed (BaseListener.stream kv.2) = false) items →
  ∃ listeners',
    ApplicationServer.broadcast_loop text used items message listeners
    = (Ok tt, listeners')
    ∧ length listeners' = used.
Proof.
  intros Hlen Hopen. revert listeners Hlen.
  induction Hopen as [|[k l] items Hk _ IH]; intros listeners Hlen.
  - exists listeners. simpl. by rewrite Hlen, Nat.eqb_refl.
  - simpl in Hk. cbn [ApplicationServer.broadcast_loop].
    rewrite Hlen, Nat.eqb_refl. simpl negb. cbv iota.
    unfold BaseListener.send, write. rewrite Hk.
    apply IH. rewrite <- Hlen. clear.
    induction listeners as [|[k' v'] d IHd]; [done|].
    simpl. destruct (decide (k = k')); simpl; by rewrite ?IHd.
Qed.

(** C1 (the code departs from the claim): with three registered
    listeners of which the second has a closed transport, the broadcast
    writes to the first listener, fails on the second and removes it, and
    then the iteration over the registry, whose size has changed under
    it, raises [RuntimeError]: the error reaches the caller and the third
    listener is never written to. *)
Theorem broadcast_stops_after_removal :
  ∀ (Message : Type) (text : Message → list Z) (message : Message),
    ApplicationServer.broadcast_message text message three_listeners
    = (Raise RuntimeError,
       [(listener_1, delivered (text message)); (listener_3, open_listener)]).
Proof. intros Message text message. reflexivity. Qed.

(** ** Reading frames off a stream *)

Lemma fill_spec n chunks buf l :
  buf ++ concat chunks = l → (n ≤ length l)%nat →
  ∃ buf' chunks', fill n buf chunks = Some (buf', chunks')
    ∧ buf' ++ concat chunks' = l ∧ (n ≤ length buf')%nat.
Proof.
  revert buf. induction chunks as [|c chunks IH]; intros buf Hl Hn.
  - simpl in Hl. rewrite app_nil_r in Hl. subst l.
    exists buf, []. simpl. apply Nat.leb_le in Hn as Hn'. rewrite Hn'.
    by rewrite app_nil_r.
  - cbn [fill]. destruct (n <=? length buf)%nat eqn:E.
    + apply Nat.leb_le in E. by exists buf, (c :: chunks).
    + apply IH; [|done]. rewrite <- Hl. simpl. by rewrite app_assoc.
Qed.

(** A read of [n] bytes that the stream can serve returns the next [n]
    bytes, whatever pieces they arrive in, and consumes exactly those. *)
Lemma read_bytes_take {B} n (k : list Z → io B) s l :
  closed s = false → remaining s = l → (n ≤ length l)%nat →
  ∃ s', (read_bytes n ≫= k) s = k (take n l) s'
    ∧ closed s' = false ∧ remaining s' = drop n l.
Proof.
  intros Hc Hl Hn.
  destruct (fill_spec n (incoming s) (rbuf s) l Hl Hn) as (buf & chunks & Hf & Hl' & Hn').
  exists (mkStream (drop n buf) chunks false (written s)).
  split; [|split; [done|]].
  - unfold mbind, io_bind, read_bytes. rewrite Hc, Hf.
    by rewrite <- Hl', take_app_le.
  - unfold remaining. simpl. by rewrite <- Hl', drop_app_le.
Qed.

Lemma lift_bind {A B} (a : A) (k : A → io B) s : (lift (Ok a) ≫= k) s = k a s.
Proof. done. Qed.

Lemma mret_bind {A B} (a : A) (k : A → io B) s : (mret a ≫= k) s = k a s.
Proof. done. Qed.

Lemma io_bind_assoc {A B C} (c : io A) (k1 : A → io B) (k2 : B → io C) s :
  ((c ≫= k1) ≫= k2) s = (c ≫= (λ a, k1 a ≫= k2)) s.
Proof. unfold mbind, io_bind. by destruct (c s) as [[a|e] s']. Qed.

Lemma to_bytes_1 h : 0 ≤ h < 256 → to_bytes 1 h = Ok [h].
Proof.
  intros H. rewrite to_bytes_ok by (change (256 ^ Z.of_nat 1) with 256; lia).
  unfold be_digits. simpl. by rewrite Z.mod_small.
Qed.

(** One [yield stream.read_bytes(n)] of a coroutine, served from the
    stream [s] whose pending bytes are known. *)
Ltac read_step s Hc Hr s' Hc' Hr' :=
  match goal with
  | |- context [(read_bytes ?n ≫= ?k) s] =>
    let H := fresh in
    destruct (read_bytes_take n k s _ Hc Hr) as (s' & H & Hc' & Hr');
    [rewrite ?length_drop, ?length_app; cbn [length]; lia | rewrite H; clear H]
  end.

Lemma SourceMessage_decode_stream_spec header rest extra s :
  status_frame_shape (header :: rest) →
  closed s = false → remaining s = rest ++ extra →
  ∃ s', SourceMessage_decode_stream header s
        = (SourceMessage.decode (header :: rest), s')
    ∧ closed s' = false ∧ remaining s' = extra.
Proof.
  intros (Hb & nf & Hnf & Hlen) Hc Hr.
  destruct rest as [|r0 [|r1 [|r2 [|r3 [|r4 [|r5 [|r6 [|r7 [|r8 [|r9 [|r10 [|r11 rest]]]]]]]]]]]];
    try done.
  cbn [lookup list_lookup] in Hnf. injection Hnf as ->.
  assert (length rest = (12 * Z.to_nat nf + 1)%nat) as Hlen'
    by (cbn [length] in Hlen; lia).
  clear Hlen.
  assert (0 ≤ header < 256 ∧ 0 ≤ nf < 256) as [Hh Hnfb].
  { unfold is_bytes in Hb. rewrite Forall_forall in Hb. split; apply Hb.
    - left.
    - do 12 right. left. }
  unfold SourceMessage_decode_stream.
  rewrite to_bytes_1, lift_bind by done.
  read_step s Hc Hr s1 Hc1 Hr1.
  read_step s1 Hc1 Hr1 s2 Hc2 Hr2.
  read_step s2 Hc2 Hr2 s3 Hc3 Hr3.
  read_step s3 Hc3 Hr3 s4 Hc4 Hr4.
  cbn [app take drop] in *.
  change (take 0 (rest ++ extra)) with (@nil Z) in *.
  change (from_bytes [nf]) with nf.
  destruct (0 <? nf) eqn:E.
  - apply Z.ltb_lt in E.
    assert (Z.to_nat (nf * Z.of_nat SourceMessage.chunk_size) = (12 * Z.to_nat nf)%nat) as ->
      by (unfold SourceMessage.chunk_size; lia).
    rewrite io_bind_assoc.
    read_step s4 Hc4 Hr4 s5 Hc5 Hr5.
    rewrite mret_bind.
    read_step s5 Hc5 Hr5 s6 Hc6 Hr6.
    exists s6. split; [|split; [done|]].
    + unfold lift. do 2 f_equal. cbn [app]. do 13 f_equal.
      rewrite take_take_drop. apply take_app_length'. lia.
    + rewrite Hr6, drop_drop. apply drop_app_length'. lia.
  - apply Z.ltb_ge in E. assert (nf = 0) as -> by lia.
    rewrite mret_bind.
    read_step s4 Hc4 Hr4 s6 Hc6 Hr6.
    exists s6. split; [|split; [done|]].
    + unfold lift. do 2 f_equal. cbn [app]. do 13 f_equal.
      apply take_app_length'. simpl in Hlen'. lia.
    + rewrite Hr6. apply drop_app_length'. simpl in Hlen'. lia.
Qed.

Lemma ServerMessage_decode_stream_spec header rest extra s :
  ack_frame_shape (header :: rest) →
  closed s = false → remaining s = rest ++ extra →
  ∃ s', ServerMessage_decode_stream header s
        = (ServerMessage.decode (header :: rest), s')
    ∧ closed s' = false ∧ remaining s' = extra.
Proof.
  intros (Hb & Hlen) Hc Hr.
  destruct rest as [|r0 [|r1 [|r2 [|]]]]; try done.
  assert (0 ≤ header < 256) as Hh by (by inversion Hb).
  unfold ServerMessage_decode_stream.
  rewrite to_bytes_1, lift_bind by done.
  read_step s Hc Hr s1 Hc1 Hr1.
  read_step s1 Hc1 Hr1 s2 Hc2 Hr2.
  exists s2. split; [done|]. split; [done|]. by rewrite Hr2.
Qed.

(** C8: [decode_stream] has the semantics of [decode].  On a stream whose
    header byte has been consumed and which delivers the rest of a
    well-formed frame, in whatever pieces, followed by later traffic,
    [SourceMessage.decode_stream] and [ServerMessage.decode_stream] return
    what [decode] returns on the whole frame (a message or the same
    failure, never a part of a message) and leave on the stream exactly
    the bytes that follow the frame: the fixed prefix, twelve bytes for
    each announced field and the checksum byte have been read, and
    nothing more. *)
Theorem decode_stream_refines_decode :
  (∀ header rest extra s,
     status_frame_shape (header :: rest) →
     closed s = false → remaining s = rest ++ extra →
     ∃ s', SourceMessage_decode_stream header s
           = (SourceMessage.decode (header :: rest), s')
       ∧ closed s' = false ∧ remaining s' = extra)
  ∧ (∀ header rest extra s,
       ack_frame_shape (header :: rest) →
       closed s = false → remaining s = rest ++ extra →
       ∃ s', ServerMessage_decode_stream header s
             = (ServerMessage.decode (header :: rest), s')
         ∧ closed s' = false ∧ remaining s' = extra).
Proof.
  split.
  - apply SourceMessage_decode_stream_spec.
  - apply ServerMessage_decode_stream_spec.
Qed.

Lemma decode_stream_refines_decode_witness :
  (∃ s', SourceMessage_decode_stream 0x01 stream_two_fields
         = (SourceMessage.decode frame_two_fields, s')
     ∧ closed s' = false ∧ remaining s' = [0x01])
  ∧ (∃ s', ServerMessage_decode_stream 0x11 stream_ack
           = (ServerMessage.decode [0x11; 0x00; 0x01; 0x10], s')
       ∧ closed s' = false ∧ remaining s' = [0x11]).
Proof.
  split.
  - apply (proj1 decode_stream_refines_decode 0x01 (tail frame_two_fields) [0x01]
             stream_two_fields).
    + split.
      * unfold is_bytes, frame_two_fields. simpl tail.
        repeat (apply Forall_cons; split; [lia|]). apply Forall_nil_2.
      * exists 2. split; reflexivity.
    + reflexivity.
    + reflexivity.
  - apply (proj2 decode_stream_refines_decode 0x11 [0x00; 0x01; 0x10] [0x11] stream_ack).
    + split; [|reflexivity].
      unfold is_bytes. repeat (apply Forall_cons; split; [lia|]). apply Forall_nil_2.
    + reflexivity.
    + reflexivity.
Defined.

(** ** Single-bit flips *)

Lemma xor_all_flip i k l :
  (i < length l)%nat → xor_all (flip_bit i k l) = Z.lxor (xor_all l) (2 ^ k).
Proof.
  unfold flip_bit. revert i. induction l as [|b l IH]; intros i Hi; [simpl in Hi; lia|].
  destruct i as [|i].
  - cbn [alter list_alter]. rewrite !xor_all_cons.
    rewrite !Z.lxor_assoc. f_equal. apply Z.lxor_comm.
  - cbn [alter list_alter]. rewrite !xor_all_cons.
    change (list_alter ?f i l) with (alter f i l).
    rewrite IH by (simpl in Hi; lia). by rewrite Z.lxor_assoc.
Qed.

Lemma be_digits_2_bytes a b :
  0 ≤ a < 256 → 0 ≤ b < 256 → be_digits 2 (a * 256 + b) = [a; b].
Proof.
  intros Ha Hb. rewrite be_digits_2.
  replace ((a * 256 + b) / 256) with a by (apply Z.div_unique with b; lia).
  rewrite (Z.mod_small a) by lia.
  replace ((a * 256 + b) mod 256) with b by (apply Z.mod_unique with a; lia).
  done.
Qed.

(** [get_raw] on a message whose field section is known. *)
Lemma get_raw_with_tail m nf fb :
  0 ≤ SourceMessage.header m < 256 →
  0 ≤ SourceMessage.num m ≤ 65535 →
  0 ≤ SourceMessage.status m < 256 →
  (if SourceMessage.truthy_dict (SourceMessage.data m)
   then fields ← SourceMessage._encode_data (default ∅ (SourceMessage.data m));
        Ok (Z.of_nat (size (default ∅ (SourceMessage.data m))) :: fields)
   else Ok [0x00]) = Ok (nf :: fb) →
  0 ≤ nf < 256 → is_bytes fb →
  SourceMessage.get_raw m
  = Ok ([SourceMessage.header m] ++ be_digits 2 (SourceMessage.num m)
        ++ trim_bytes (str_encode (SourceMessage.source_id m)) 8
        ++ [SourceMessage.status m; nf] ++ fb).
Proof.
  intros Hh Hn Hs Htail Hnf Hb.
  unfold SourceMessage.get_raw.
  rewrite (to_bytes_ok 2), (to_bytes_ok 1), Htail by (simpl; lia).
  simpl except_as. simpl except_all.
  repeat (change (Ok ?x ≫= ?f) with (f x); cbv beta).
  assert (be_digits 1 (SourceMessage.status m) = [SourceMessage.status m]) as ->.
  { unfold be_digits. simpl. by rewrite Z.mod_small. }
  rewrite py_bytes_ok; [done|].
  apply Forall_cons. split; [done|].
  apply Forall_app. split; [apply is_bytes_be_digits|].
  apply Forall_app. split; [apply is_bytes_trim_bytes, is_bytes_str_encode|].
  apply Forall_cons. split; [done|]. by apply Forall_cons.
Qed.

(** Flipping a bit of the header, sequence or status byte of the body of
    a valid message gives the body of the message that carries the
    flipped value. *)
Lemma flip_fixed_field m raw i k :
  valid_status_message m → SourceMessage.get_raw m = Ok raw → 0 ≤ k < 8 →
  i = 0%nat ∨ i = 1%nat ∨ i = 2%nat ∨ i = 11%nat →
  ∃ h n st,
    (i = 0%nat → h = Z.lxor (SourceMessage.header m) (2 ^ k))
    ∧ (i ≠ 0%nat → h = SourceMessage.header m)
    ∧ (i = 11%nat → st = Z.lxor (SourceMessage.status m) (2 ^ k))
    ∧ (i ≠ 11%nat → st = SourceMessage.status m)
    ∧ encodable (with_fixed m h n st)
    ∧ SourceMessage.get_raw (with_fixed m h n st) = Ok (flip_bit i k raw)
    ∧ (i < length raw)%nat.
Proof.
  intros Hm Hraw Hk Hi.
  pose proof (valid_encodable m Hm) as (Hh & Hn & Hs & Hid & Hf).
  destruct (fields_tail _ Hf) as (nf & fb & Htail & Hnf & Hb & _).
  rewrite (get_raw_with_tail m nf fb) in Hraw by done.
  assert (raw = [SourceMessage.header m] ++ be_digits 2 (SourceMessage.num m)
                ++ trim_bytes (str_encode (SourceMessage.source_id m)) 8
                ++ [SourceMessage.status m; nf] ++ fb) as -> by congruence.
  clear Hraw.
  pose proof (Z.mod_pos_bound (SourceMessage.num m / 256) 256 ltac:(lia)) as Hn1.
  pose proof (Z.mod_pos_bound (SourceMessage.num m) 256 ltac:(lia)) as Hn0.
  set (p := 2 ^ k).
  assert (∀ b, 0 ≤ b < 256 → 0 ≤ Z.lxor b p < 256) as Hflip
    by (intros b Hbb; by apply lxor_pow2_byte).
  pose proof (length_trim_bytes (str_encode (SourceMessage.source_id m)) 8) as Hl8.
  assert (∀ h n st,
            0 ≤ h < 256 → 0 ≤ n ≤ 65535 → 0 ≤ st < 256 →
            encodable (with_fixed m h n st)
            ∧ SourceMessage.get_raw (with_fixed m h n st)
              = Ok ([h] ++ be_digits 2 n
                    ++ trim_bytes (str_encode (SourceMessage.source_id m)) 8
                    ++ [st; nf] ++ fb)) as Hwith.
  { intros h n st Hh' Hn' Hs'. split; [done|].
    by apply (get_raw_with_tail (with_fixed m h n st) nf fb). }
  rewrite (be_digits_2 (SourceMessage.num m)).
  remember (trim_bytes (str_encode (SourceMessage.source_id m)) 8) as id8 eqn:Hid8.
  destruct id8 as [|i0 [|i1 [|i2 [|i3 [|i4 [|i5 [|i6 [|i7 [|]]]]]]]]]; try done.
  assert (∀ h n st,
            0 ≤ h < 256 → 0 ≤ n ≤ 65535 → 0 ≤ st < 256 →
            SourceMessage.get_raw (with_fixed m h n st)
            = Ok ([h] ++ be_digits 2 n
                  ++ [i0; i1; i2; i3; i4; i5; i6; i7] ++ [st; nf] ++ fb)) as Hwith'.
  { intros h n st Hh' Hn' Hs'. by apply Hwith. }
  assert (∀ h n st,
            0 ≤ h < 256 → 0 ≤ n ≤ 65535 → 0 ≤ st < 256 →
            encodable (with_fixed m h n st)) as Henc
    by (intros; by apply Hwith).
  clear Hwith Hid8.
  destruct Hi as [-> | [-> | [-> | ->]]].
  - exists (Z.lxor (SourceMessage.header m) p), (SourceMessage.num m),
      (SourceMessage.status m).
    split; [done|]. split; [done|]. split; [done|]. split; [done|].
    split; [apply Henc; [by apply Hflip|done|done]|].
    split; [|cbn [length app]; lia].
    rewrite Hwith' by (try done; by apply Hflip). by rewrite be_digits_2.
  - set (n1 := Z.lxor ((SourceMessage.num m / 256) mod 256) p).
    assert (0 ≤ n1 < 256) as Hn1' by (by apply Hflip).
    exists (SourceMessage.header m), (n1 * 256 + SourceMessage.num m mod 256),
      (SourceMessage.status m).
    split; [done|]. split; [done|]. split; [done|]. split; [done|].
    split; [apply Henc; [done|lia|done]|].
    split; [|cbn [length app]; lia].
    rewrite Hwith' by (try done; lia). by rewrite be_digits_2_bytes.
  - set (n0 := Z.lxor (SourceMessage.num m mod 256) p).
    assert (0 ≤ n0 < 256) as Hn0' by (by apply Hflip).
    exists (SourceMessage.header m), ((SourceMessage.num m / 256) mod 256 * 256 + n0),
      (SourceMessage.status m).
    split; [done|]. split; [done|]. split; [done|]. split; [done|].
    split; [apply Henc; [done|lia|done]|].
    split; [|cbn [length app]; lia].
    rewrite Hwith' by (try done; lia). by rewrite be_digits_2_bytes.
  - exists (SourceMessage.header m), (SourceMessage.num m),
      (Z.lxor (SourceMessage.status m) p).
    split; [done|]. split; [done|]. split; [done|]. split; [done|].
    split; [apply Henc; [done|done|by apply Hflip]|].
    split; [|cbn [length app]; lia].
    rewrite Hwith' by (try done; by apply Hflip). by rewrite be_digits_2.
Qed.

Lemma init_invalid n sid st h d :
  h ≠ 0 → h ≠ SourceMessage.DEFAULT_HEADER ∨ SourceMessage.in_STATUS st = false →
  SourceMessage.init n sid st (Some h) d = Raise InvalidMessageException.
Proof.
  intros Hh0 Hbad. unfold SourceMessage.init.
  assert (SourceMessage.truthy_int (Some h) = true) as ->
    by (by apply negb_true_iff, Z.eqb_neq).
  simpl default. unfold SourceMessage.in_HEADERS.
  destruct (h =? SourceMessage.DEFAULT_HEADER) eqn:E; [|done].
  apply Z.eqb_eq in E. destruct Hbad as [? | ->]; done.
Qed.

Lemma header_flip_invalid k :
  1 ≤ k < 8 →
  Z.lxor SourceMessage.DEFAULT_HEADER (2 ^ k) ≠ 0
  ∧ Z.lxor SourceMessage.DEFAULT_HEADER (2 ^ k) ≠ SourceMessage.DEFAULT_HEADER.
Proof.
  intros Hk. split; [|apply lxor_pow2_ne; lia].
  intros H%Z.lxor_eq. unfold SourceMessage.DEFAULT_HEADER in H.
  assert (2 ^ 1 ≤ 2 ^ k) by (apply Z.pow_le_mono_r; lia). lia.
Qed.

(** Flips in the fixed fields, which need no condition on the flipped
    frame: for every valid encoded status frame, flipping any single bit
    of the two sequence-number bytes or of the status byte, or any of the
    bits 1 to 7 of the header byte, makes [SourceMessage.decode] fail
    with [InvalidMessageException]. *)
Lemma flipped_fixed_field_rejected m frame i k :
  valid_status_message m →
  SourceMessage.encode m = Ok frame →
  0 ≤ k < 8 →
  (i = 0%nat ∧ 1 ≤ k) ∨ i = 1%nat ∨ i = 2%nat ∨ i = 11%nat →
  SourceMessage.decode (flip_bit i k frame) = Raise InvalidMessageException.
Proof.
  intros Hm Hframe Hk Hi.
  destruct (decode_valid m 0 Hm) as (raw & Hraw & Hb & Henc & _).
  assert (frame = raw ++ [xor_all raw]) as -> by congruence.
  destruct (flip_fixed_field m raw i k Hm Hraw Hk ltac:(tauto))
    as (h & n & st & Hh0 & Hh1 & Hs11 & Hs1 & He & Hr & Hlt).
  unfold flip_bit in *. rewrite alter_app_l by done.
  fold (flip_bit i k raw) in *.
  pose proof (xor_all_flip i k raw Hlt) as Hx.
  pose proof (lxor_pow2_ne (xor_all raw) k ltac:(lia)) as Hne.
  destruct (decode_layout _ (xor_all raw) He) as (raw' & Hraw' & _ & _ & Hdec).
  assert (raw' = flip_bit i k raw) as -> by congruence.
  destruct Hm as (Hmh & Hmn & Hms & Hmid & Hmf).
  destruct (decide (h = SourceMessage.DEFAULT_HEADER
                    ∧ SourceMessage.in_STATUS st = true)) as [[Hh Hst]|Hbad].
  - assert (valid_status_message (with_fixed m h n st)) as Hm'.
    { destruct He as (_ & Hn' & _ & Hid' & Hf').
      split; [exact Hh|]. split; [exact Hn'|]. split; [exact Hst|].
      split; [exact Hid'|exact Hf']. }
    destruct (decode_valid _ (xor_all raw) Hm') as (raw' & Hraw'' & _ & _ & Hdec').
    assert (raw' = flip_bit i k raw) as -> by congruence.
    rewrite Hdec', Hx.
    destruct (Z.lxor (xor_all raw) (2 ^ k) =? xor_all raw) eqn:E; [|reflexivity].
    by apply Z.eqb_eq in E.
  - rewrite Hdec. simpl SourceMessage.num. simpl SourceMessage.status.
    simpl SourceMessage.header. simpl SourceMessage.source_id.
    rewrite init_invalid; [done| |].
    + destruct (decide (i = 0%nat)) as [-> | Hi0].
      * rewrite (Hh0 eq_refl), Hmh. apply header_flip_invalid.
        destruct Hi as [[_ ?]|[?|[?|?]]]; [lia|done..].
      * rewrite (Hh1 Hi0), Hmh. done.
    + destruct (decide (h = SourceMessage.DEFAULT_HEADER)) as [Hh|Hh]; [|by left].
      right. destruct (SourceMessage.in_STATUS st); [|done]. by destruct Hbad.
Qed.

Lemma flipped_fixed_field_rejected_witness :
  SourceMessage.decode (flip_bit 11 1 frame_two_fields) = Raise InvalidMessageException.
Proof.
  apply (flipped_fixed_field_rejected msg_abc_fields frame_two_fields 11 1).
  - split; [reflexivity|]. split; [simpl; lia|]. split; [reflexivity|].
    split; [solve_text_ok|]. split; [|vm_compute; lia].
    unfold msg_abc_fields, field_map. simpl default.
    apply map_Forall_insert_2; [split; [solve_text_ok|lia]|].
    apply map_Forall_insert_2; [split; [solve_text_ok|lia]|].
    apply map_Forall_empty.
  - vm_compute. reflexivity.
  - lia.
  - right. right. right. reflexivity.
Defined.


(** Bit 0 of the header: the constructor takes the header 0 for an omitted
    header and substitutes the default, so the frame decodes. *)
Lemma header_zero_taken_for_default :
  SourceMessage.decode (flip_bit 0 0 frame_plain) = Ok msg_abc_plain.
Proof. vm_compute. reflexivity. Qed.

(** * Further properties of the code *)

(** ** Inversion of the error monad *)

Lemma bind_Ok_inv {A B} (r : result A) (k : A → result B) b :
  r ≫= k = Ok b → ∃ a, r = Ok a ∧ k a = Ok b.
Proof. destruct r as [a|e]; [by exists a|done]. Qed.

Lemma py_bytes_inv l l' : py_bytes l = Ok l' → l' = l ∧ is_bytes l.
Proof.
  unfold py_bytes. destruct (forallb is_byte l) eqn:E; [|done].
  intros [= <-]. split; [done|].
  apply Forall_forall. intros b Hb. apply is_byte_spec.
  rewrite forallb_forall in E. apply E. by apply list_elem_of_In.
Qed.

Lemma py_bytes_Raise l e : py_bytes l = Raise e → e = ValueError ∧ ¬ is_bytes l.
Proof.
  unfold py_bytes. destruct (forallb is_byte l) eqn:E; [done|].
  intros [= <-]. split; [done|]. intros Hb.
  assert (forallb is_byte l = true); [|congruence].
  apply forallb_forall. intros b Hin. apply is_byte_spec.
  unfold is_bytes in Hb. rewrite Forall_forall in Hb. apply Hb.
  by apply list_elem_of_In.
Qed.

Lemma to_bytes_cases n v :
  (0 ≤ v < 256 ^ Z.of_nat n ∧ to_bytes n v = Ok (be_digits n v))
  ∨ (¬ (0 ≤ v < 256 ^ Z.of_nat n) ∧ to_bytes n v = Raise OverflowError).
Proof.
  destruct (decide (0 ≤ v < 256 ^ Z.of_nat n)) as [H|H].
  - left. split; [done|]. by apply to_bytes_ok.
  - right. split; [done|]. by apply to_bytes_overflow.
Qed.

(** ** The encoder in closed form *)

Lemma encode_fields_values_ok d keys :
  Forall (λ k, ∃ v, d !! k = Some v ∧ 0 ≤ v < 2 ^ 32) keys →
  SourceMessage.encode_fields d keys = Ok (field_section d keys).
Proof.
  induction 1 as [|key keys (v & Hk & Hv) _ IH]; [done|].
  cbn [SourceMessage.encode_fields]. rewrite (encode_field_ok _ _ v), IH by done.
  assert (field_section d (key :: keys)
          = (trim_bytes (str_encode key) 8 ++ be_digits 4 v) ++ field_section d keys)
    as ->; [|done].
  unfold field_section. rewrite fmap_cons. cbn [concat].
  unfold field_chunk at 1. by rewrite Hk.
Qed.

Lemma wire_order_elem_of (d : gmap string Z) k :
  k ∈ wire_order d ↔ is_Some (d !! k).
Proof.
  unfold wire_order. rewrite sorted_Permutation, list_elem_of_fmap. split.
  - intros ([k' v] & -> & Hin). apply elem_of_map_to_list in Hin. by exists v.
  - intros [v Hv]. exists (k, v). split; [done|]. by apply elem_of_map_to_list.
Qed.

Lemma wire_order_values d :
  map_Forall (λ _ v, 0 ≤ v < 2 ^ 32) d →
  Forall (λ k, ∃ v, d !! k = Some v ∧ 0 ≤ v < 2 ^ 32) (wire_order d).
Proof.
  intros H. apply Forall_forall. intros k [v Hv]%wire_order_elem_of.
  exists v. split; [done|]. by apply (H k).
Qed.

Lemma length_field_section d keys :
  length (field_section d keys) = (12 * length keys)%nat.
Proof.
  unfold field_section. induction keys as [|k keys IH]; [done|].
  rewrite fmap_cons. cbn [concat length]. rewrite length_app, IH.
  unfold field_chunk. rewrite length_app, length_trim_bytes, length_be_digits. lia.
Qed.

Lemma is_bytes_field_section d keys : is_bytes (field_section d keys).
Proof.
  unfold field_section. induction keys as [|k keys IH]; [constructor|].
  rewrite fmap_cons. cbn [concat]. apply Forall_app. split; [|done].
  unfold field_chunk. apply Forall_app. split.
  - apply is_bytes_trim_bytes, is_bytes_str_encode.
  - apply is_bytes_be_digits.
Qed.

Lemma wire_order_empty : wire_order ∅ = [].
Proof. unfold wire_order. by rewrite map_to_list_empty. Qed.

Lemma field_map_falsy data :
  SourceMessage.truthy_dict data = false → field_map data = ∅.
Proof.
  destruct data as [d|]; [|done]. simpl.
  intros H%negb_false_iff%Nat.eqb_eq. by apply map_size_empty_inv.
Qed.

Lemma field_map_truthy data :
  SourceMessage.truthy_dict data = true →
  default ∅ data = field_map data ∧ size (field_map data) ≠ 0%nat.
Proof.
  destruct data as [d|]; [|done]. simpl.
  intros H%negb_true_iff%Nat.eqb_neq. done.
Qed.

(** The field section [get_raw] appends, when every value fits. *)
Lemma tail_expr_ok data :
  map_Forall (λ _ v, 0 ≤ v < 2 ^ 32) (field_map data) →
  (if SourceMessage.truthy_dict data
   then fields ← SourceMessage._encode_data (default ∅ data);
        Ok (Z.of_nat (size (default ∅ data)) :: fields)
   else Ok [0x00])
  = Ok (Z.of_nat (size (field_map data))
        :: field_section (field_map data) (wire_order (field_map data))).
Proof.
  intros Hv. destruct (SourceMessage.truthy_dict data) eqn:Ht.
  - destruct (field_map_truthy _ Ht) as [-> _].
    unfold SourceMessage._encode_data. fold (wire_order (field_map data)).
    by rewrite encode_fields_values_ok by by apply wire_order_values.
  - rewrite (field_map_falsy _ Ht), map_size_empty, wire_order_empty. done.
Qed.

Lemma is_bytes_layout m :
  0 ≤ SourceMessage.header m < 256 → 0 ≤ SourceMessage.status m < 256 →
  (size (field_map (SourceMessage.data m)) ≤ 255)%nat →
  is_bytes (layout m).
Proof.
  intros Hh Hs Hsize. unfold layout.
  apply Forall_cons. split; [done|].
  apply Forall_app. split; [apply is_bytes_be_digits|].
  apply Forall_app. split; [apply is_bytes_trim_bytes, is_bytes_str_encode|].
  apply Forall_cons. split; [done|].
  apply Forall_cons. split; [lia|]. apply is_bytes_field_section.
Qed.

Lemma get_raw_fits m : fits_wire m → SourceMessage.get_raw m = Ok (layout m).
Proof.
  intros (Hh & Hn & Hs & Hv & Hsize). unfold SourceMessage.get_raw.
  rewrite (to_bytes_ok 2), (to_bytes_ok 1), tail_expr_ok by (simpl; lia || done).
  simpl except_as. simpl except_all.
  repeat (change (Ok ?x ≫= ?f) with (f x); cbv beta).
  assert (be_digits 1 (SourceMessage.status m) = [SourceMessage.status m]) as ->.
  { unfold be_digits. simpl. by rewrite Z.mod_small. }
  rewrite py_bytes_ok; [done|]. by apply is_bytes_layout.
Qed.

Lemma not_is_bytes_layout m :
  ¬ (0 ≤ SourceMessage.header m < 256
     ∧ (size (field_map (SourceMessage.data m)) ≤ 255)%nat) →
  ¬ is_bytes (layout m).
Proof.
  intros Hbad Hb. apply Hbad. unfold layout, is_bytes in Hb.
  apply Forall_cons in Hb as [Hh Hb]. split; [done|].
  apply Forall_app in Hb as [_ Hb]. apply Forall_app in Hb as [_ Hb].
  apply Forall_cons in Hb as [_ Hb]. apply Forall_cons in Hb as [Hsize _]. lia.
Qed.

Lemma no_overflow_values m :
  ¬ value_overflows m →
  0 ≤ SourceMessage.num m < 65536
  ∧ 0 ≤ SourceMessage.status m < 256
  ∧ map_Forall (λ _ v, 0 ≤ v < 2 ^ 32) (field_map (SourceMessage.data m)).
Proof.
  intros H. unfold value_overflows in H.
  split; [lia|]. split; [lia|].
  intros k v Hk. destruct (decide (0 ≤ v < 2 ^ 32)) as [|Hv]; [done|].
  destruct H. right. right. by exists k, v.
Qed.

(** The outcomes of [SourceMessage.encode], case by case. *)
Lemma encode_three_cases m :
  (value_overflows m → SourceMessage.encode m = Raise EncodeMessageError)
  ∧ (¬ value_overflows m →
     ¬ (0 ≤ SourceMessage.header m < 256
        ∧ (size (field_map (SourceMessage.data m)) ≤ 255)%nat) →
     SourceMessage.encode m = Raise ValueError)
  ∧ (fits_wire m →
     SourceMessage.encode m = Ok (layout m ++ [xor_all (layout m)])).
Proof.
  split; [|split].
  - intros [Hn|[Hs|(k & v & Hk & Hv)]].
    + apply get_raw_num_overflow. lia.
    + apply get_raw_status_overflow. lia.
    + destruct (SourceMessage.data m) as [d|] eqn:Hd; [|done].
      by apply (encode_value_overflow m d k v).
  - intros (Hn & Hs & Hv)%no_overflow_values Hbad.
    unfold SourceMessage.encode, SourceMessage.get_raw.
    rewrite (to_bytes_ok 2), (to_bytes_ok 1), tail_expr_ok by (simpl; lia || done).
    simpl except_as. simpl except_all.
    repeat (change (Ok ?x ≫= ?f) with (f x); cbv beta).
    assert (be_digits 1 (SourceMessage.status m) = [SourceMessage.status m]) as ->.
    { unfold be_digits. simpl. by rewrite Z.mod_small. }
    match goal with
    | |- py_bytes ?l ≫= _ = _ => change l with (layout m)
    end.
    destruct (py_bytes (layout m)) as [l|e] eqn:E.
    + destruct (py_bytes_inv _ _ E) as [_ Hb].
      destruct (not_is_bytes_layout m Hbad Hb).
    + by destruct (py_bytes_Raise _ _ E) as [-> _].
  - intros Hfit. pose proof Hfit as (Hh & Hn & Hs & Hv & Hsize).
    unfold SourceMessage.encode. rewrite get_raw_fits by done.
    change (Ok ?x ≫= ?f) with (f x). cbv beta.
    unfold SourceMessage.check_sum, layout. cbn [app].
    rewrite xor_checksum_cons.
    change (Ok ?x ≫= ?f) with (f x). cbv beta.
    rewrite py_bytes_ok; [done|].
    apply Forall_cons. split; [|constructor].
    apply xor_all_byte. by apply (is_bytes_layout m).
Qed.

(** X1: the three outcomes of [SourceMessage.encode].  A sequence number,
    status or field value that is negative or too wide for its slot gives
    [EncodeMessageError]; otherwise a header outside a byte or more than
    255 fields gives the [ValueError] of [bytes(...)]; otherwise the
    result is the body in closed form followed by the XOR of its bytes. *)
Theorem encode_outcome m :
  (value_overflows m → SourceMessage.encode m = Raise EncodeMessageError)
  ∧ (¬ value_overflows m →
     ¬ (0 ≤ SourceMessage.header m < 256
        ∧ (size (field_map (SourceMessage.data m)) ≤ 255)%nat) →
     SourceMessage.encode m = Raise ValueError)
  ∧ (fits_wire m →
     SourceMessage.encode m = Ok (layout m ++ [xor_all (layout m)])).
Proof. apply encode_three_cases. Qed.

Lemma encode_outcome_witness :
  SourceMessage.encode (SourceMessage.mk 0x01 65536 "abc" 1 None)
  = Raise EncodeMessageError
  ∧ SourceMessage.encode (SourceMessage.mk 256 1 "abc" 1 None) = Raise ValueError
  ∧ SourceMessage.encode msg_abc_plain
    = Ok (layout msg_abc_plain ++ [xor_all (layout msg_abc_plain)]).
Proof.
  split; [|split].
  - apply (proj1 (encode_outcome _)). left. simpl. lia.
  - apply (proj1 (proj2 (encode_outcome _))).
    + intros [H|[H|(k & v & Hk & _)]]; [simpl in H; lia|simpl in H; lia|].
      simpl in Hk. by rewrite lookup_empty in Hk.
    + simpl. lia.
  - apply (proj2 (proj2 (encode_outcome _))).
    unfold msg_abc_plain, SourceMessage.STATUS_IDLE.
    split; [simpl; lia|]. split; [simpl; lia|]. split; [simpl; lia|].
    split; [apply map_Forall_empty|]. simpl. rewrite map_size_empty. lia.
Defined.

(** What holds of every frame of the encoder. *)
Lemma encode_frame_props m frame :
  SourceMessage.encode m = Ok frame →
  fits_wire m
  ∧ frame = layout m ++ [xor_all (layout m)]
  ∧ is_bytes frame
  ∧ xor_all frame = 0
  ∧ length frame = (14 + 12 * size (field_map (SourceMessage.data m)))%nat.
Proof.
  intros Henc.
  destruct (encode_three_cases m) as (Hover & Hval & Hok).
  assert (fits_wire m) as Hfit.
  { destruct (decide (0 ≤ SourceMessage.num m < 65536)) as [Hn|Hn];
      [|rewrite Hover in Henc by (by left); done].
    destruct (decide (0 ≤ SourceMessage.status m < 256)) as [Hs|Hs];
      [|rewrite Hover in Henc by (right; by left); done].
    destruct (decide (map_Forall (λ _ v, 0 ≤ v < 2 ^ 32)
                        (field_map (SourceMessage.data m)))) as [Hv|Hv].
    2:{ apply map_not_Forall in Hv; [|apply _].
        destruct Hv as (k & v & Hk & Hv).
        rewrite Hover in Henc; [done|]. right. right. by exists k, v. }
    destruct (decide (0 ≤ SourceMessage.header m < 256
                      ∧ (size (field_map (SourceMessage.data m)) ≤ 255)%nat))
      as [[Hh Hsize]|Hbad]; [done|].
    rewrite Hval in Henc; [done| |done].
    intros [?|[?|(k & v & Hk & Hbadv)]]; [done|done|].
    by apply Hbadv, (Hv k). }
  rewrite Hok in Henc by done.
  assert (frame = layout m ++ [xor_all (layout m)]) as -> by congruence.
  clear Henc.
  pose proof Hfit as (Hh & Hn & Hs & Hv & Hsize).
  split; [done|]. split; [done|]. split; [|split].
  - apply Forall_app. split; [by apply is_bytes_layout|].
    apply Forall_cons. split; [|constructor].
    apply xor_all_byte. by apply is_bytes_layout.
  - rewrite xor_all_app, xor_all_cons. change (xor_all []) with 0.
    rewrite Z.lxor_0_r. apply Z.lxor_nilpotent.
  - unfold layout. rewrite !length_app. cbn [length].
    rewrite length_be_digits, length_trim_bytes, length_field_section.
    unfold wire_order. rewrite length_sorted_keys. lia.
Qed.

(** X2: every frame [SourceMessage.encode] produces is its message in
    closed form and satisfies the frame invariants: all elements are
    bytes, the XOR of the whole frame is 0 (the last byte is the XOR of
    the others), and the length is 14 plus 12 for each field. *)
Theorem encode_frame_invariants m frame :
  SourceMessage.encode m = Ok frame →
  fits_wire m
  ∧ frame = layout m ++ [xor_all (layout m)]
  ∧ is_bytes frame
  ∧ xor_all frame = 0
  ∧ length frame = (14 + 12 * size (field_map (SourceMessage.data m)))%nat.
Proof. apply encode_frame_props. Qed.

Lemma encode_frame_invariants_witness :
  fits_wire msg_abc_fields
  ∧ frame_two_fields = layout msg_abc_fields ++ [xor_all (layout msg_abc_fields)]
  ∧ is_bytes frame_two_fields
  ∧ xor_all frame_two_fields = 0
  ∧ length frame_two_fields
    = (14 + 12 * size (field_map (SourceMessage.data msg_abc_fields)))%nat.
Proof.
  apply (encode_frame_invariants msg_abc_fields frame_two_fields).
  vm_compute. reflexivity.
Defined.

(** ** The order of the fields on the wire *)

Local Instance str_le_total : Total str_le.
Proof. intros a b. unfold str_le. apply String.leb_total. Qed.

(** X3: the bytes [_encode_data] produces.  When every value fits four
    bytes, they are the twelve-byte chunks of the fields (the name in its
    eight-byte slot, then the value on four bytes, big-endian), one chunk
    for each field of the map, in ascending order of the names.  When a
    value does not fit, the result is [EncodeMessageError]. *)
Theorem encode_data_sorted_chunks (d : gmap string Z) :
  Sorted str_le (wire_order d)
  ∧ NoDup (wire_order d)
  ∧ (∀ k, k ∈ wire_order d ↔ is_Some (d !! k))
  ∧ (map_Forall (λ _ v, 0 ≤ v < 2 ^ 32) d →
     SourceMessage._encode_data d
     = Ok (concat ((λ k, trim_bytes (str_encode k) 8
                         ++ be_digits 4 (default 0 (d !! k))) <$> wire_order d)))
  ∧ ((∃ k v, d !! k = Some v ∧ ¬ (0 ≤ v < 2 ^ 32)) →
     SourceMessage._encode_data d = Raise EncodeMessageError).
Proof.
  split; [|split; [|split; [|split]]].
  - apply Sorted_merge_sort. apply _.
  - unfold wire_order. rewrite sorted_Permutation. apply NoDup_fst_map_to_list.
  - apply wire_order_elem_of.
  - intros Hv. unfold SourceMessage._encode_data.
    change (sorted (map_to_list d).*1) with (wire_order d).
    by rewrite encode_fields_values_ok by (by apply wire_order_values).
  - intros (k & v & Hk & Hv). unfold SourceMessage._encode_data.
    change (sorted (map_to_list d).*1) with (wire_order d).
    apply encode_fields_overflow.
    + intros k' Hk'. by apply wire_order_elem_of.
    + exists k, v. split; [|done]. apply wire_order_elem_of. by exists v.
Qed.

Lemma encode_data_sorted_chunks_witness :
  SourceMessage._encode_data (<["b"%string := 2]> (<["a"%string := 1]> ∅))
  = Ok (concat ((λ k, trim_bytes (str_encode k) 8
                      ++ be_digits 4
                           (default 0
                              ((<["b"%string := 2]> (<["a"%string := 1]> ∅)
                                : gmap string Z) !! k)))
                  <$> wire_order (<["b"%string := 2]> (<["a"%string := 1]> ∅))))
  ∧ SourceMessage._encode_data (<["b"%string := 2 ^ 32]> (<["a"%string := 1]> ∅))
    = Raise EncodeMessageError.
Proof.
  split.
  - apply (proj1 (proj2 (proj2 (proj2 (encode_data_sorted_chunks
                                         (<["b"%string := 2]> (<["a"%string := 1]> ∅))))))).
    apply map_Forall_insert_2; [lia|].
    apply map_Forall_insert_2; [lia|].
    apply map_Forall_empty.
  - apply (proj2 (proj2 (proj2 (proj2 (encode_data_sorted_chunks
                                         (<["b"%string := 2 ^ 32]> (<["a"%string := 1]> ∅))))))).
    exists "b"%string, (2 ^ 32). split; [apply lookup_insert_eq|lia].
Defined.

(** ** What [SourceMessage.decode] accepts *)

Lemma decode_chunks_nonempty chunks acc d :
  SourceMessage.decode_chunks chunks acc = Ok d →
  chunks ≠ [] ∨ acc ≠ ∅ → d ≠ ∅.
Proof.
  revert acc. induction chunks as [|chunk chunks IH]; intros acc Hd Hne.
  - simpl in Hd. injection Hd as <-. by destruct Hne.
  - cbn [SourceMessage.decode_chunks] in Hd.
    apply bind_Ok_inv in Hd as (name & _ & Hd).
    apply (IH _ Hd). right. apply insert_non_empty.
Qed.

Lemma init_Ok_inv n sid st h data m :
  SourceMessage.init n sid st h data = Ok m →
  m = SourceMessage.mk SourceMessage.DEFAULT_HEADER n sid st data
  ∧ SourceMessage.in_STATUS st = true.
Proof.
  unfold SourceMessage.init.
  set (h' := if SourceMessage.truthy_int h then default 0 h
             else SourceMessage.DEFAULT_HEADER).
  destruct (SourceMessage.in_HEADERS h') eqn:Eh; [|done].
  destruct (SourceMessage.in_STATUS st) eqn:Es; [|done].
  simpl. intros [= <-]. apply Z.eqb_eq in Eh. by rewrite Eh.
Qed.

(** X4: whatever [SourceMessage.decode] returns is a message with header
    0x01 and a status of the defined set, whose field map is absent or
    non-empty (never an empty map), and which encodes again; the frame
    it encodes to ends in the very byte the decoded frame ended in. *)
Theorem decode_sound frame m :
  SourceMessage.decode frame = Ok m →
  SourceMessage.header m = SourceMessage.DEFAULT_HEADER
  ∧ SourceMessage.in_STATUS (SourceMessage.status m) = true
  ∧ (SourceMessage.data m = None
     ∨ ∃ d, SourceMessage.data m = Some d ∧ d ≠ ∅)
  ∧ ∃ raw c, last frame = Some c
      ∧ SourceMessage.get_raw m = Ok raw
      ∧ xor_all raw = c
      ∧ SourceMessage.encode m = Ok (raw ++ [c]).
Proof.
  unfold SourceMessage.decode. intros H.
  apply bind_Ok_inv in H as (h & Hh & H).
  apply bind_Ok_inv in H as (c & Hc & H). cbv zeta in H.
  apply bind_Ok_inv in H as (sid & Hsid & H).
  apply bind_Ok_inv in H as (st & Hst & H).
  apply bind_Ok_inv in H as (nf & Hnf & H).
  apply bind_Ok_inv in H as (data & Hdata & H).
  apply bind_Ok_inv in H as (message & Hinit & H).
  apply bind_Ok_inv in H as (cs & Hcs & H).
  destruct (negb (cs =? c)) eqn:E; [done|]. injection H as <-.
  apply negb_false_iff, Z.eqb_eq in E. subst cs.
  apply init_Ok_inv in Hinit as [-> Hstatus].
  split; [done|]. split; [done|]. split.
  - destruct (0 <? nf) eqn:Epos; [|injection Hdata as <-; by left].
    apply bind_Ok_inv in Hdata as (d & Hd & [= <-]). right. exists d.
    split; [done|].
    unfold except_as, SourceMessage._decode_data in Hd.
    destruct (negb _); [done|].
    destruct (SourceMessage.decode_chunks _ ∅) as [d'|e] eqn:Hch;
      [|by destruct (decide _)].
    injection Hd as <-. apply (decode_chunks_nonempty _ _ _ Hch). left.
    apply Z.ltb_lt in Epos.
    destruct (Z.to_nat nf) as [|n] eqn:En; [lia|]. done.
  - unfold SourceMessage.check_sum in Hcs.
    apply bind_Ok_inv in Hcs as (raw & Hraw & Hx).
    unfold py_last in Hc.
    destruct (last frame) as [c'|]; [|done]. injection Hc as ->.
    assert (is_bytes raw ∧ xor_checksum raw = Ok (xor_all raw)) as [Hb Hx'].
    { pose proof Hraw as Hraw'. unfold SourceMessage.get_raw in Hraw'.
      apply bind_Ok_inv in Hraw' as (? & _ & Hraw').
      apply bind_Ok_inv in Hraw' as (? & _ & Hraw').
      apply bind_Ok_inv in Hraw' as (? & _ & Hraw').
      apply py_bytes_inv in Hraw' as [-> Hb]. split; [done|].
      apply xor_checksum_cons. }
    assert (xor_all raw = c) as Hxc by congruence.
    exists raw, c. split; [done|]. split; [done|]. split; [done|].
    unfold SourceMessage.encode. rewrite Hraw.
    change (Ok ?x ≫= ?f) with (f x). cbv beta.
    assert (SourceMessage.check_sum
              (SourceMessage.mk SourceMessage.DEFAULT_HEADER
                 (from_bytes (py_slice (py_slice_1_m1 frame) 0 2))
                 (replace_nul sid) st data) (Some raw) = Ok c) as ->.
    { unfold SourceMessage.check_sum. destruct raw; [done|]. congruence. }
    change (Ok ?x ≫= ?f) with (f x). cbv beta.
    rewrite py_bytes_ok; [done|].
    apply Forall_cons. split; [|constructor].
    rewrite <- Hxc. by apply xor_all_byte.
Qed.

Lemma decode_sound_witness :
  SourceMessage.header msg_abc_fields = SourceMessage.DEFAULT_HEADER
  ∧ SourceMessage.in_STATUS (SourceMessage.status msg_abc_fields) = true
  ∧ (SourceMessage.data msg_abc_fields = None
     ∨ ∃ d, SourceMessage.data msg_abc_fields = Some d ∧ d ≠ ∅)
  ∧ ∃ raw c, last frame_two_fields = Some c
      ∧ SourceMessage.get_raw msg_abc_fields = Ok raw
      ∧ xor_all raw = c
      ∧ SourceMessage.encode msg_abc_fields = Ok (raw ++ [c]).
Proof.
  apply (decode_sound frame_two_fields msg_abc_fields). vm_compute. reflexivity.
Defined.

(** X5: a frame of fewer than 14 bytes, the size of a frame without
    fields, never decodes and is not reported as an invalid message
    either: [SourceMessage.decode] leaves with [IndexError], or with
    [UnicodeDecodeError] when the bytes in the identifier slot are not
    text. *)
Theorem decode_short_frame frame :
  (length frame < 14)%nat →
  SourceMessage.decode frame = Raise IndexError
  ∨ SourceMessage.decode frame = Raise UnicodeDecodeError.
Proof.
  intros Hlen. unfold SourceMessage.decode.
  destruct frame as [|h frame]; [by left|].
  change (py_index (h :: frame) 0) with (Ok h).
  change (Ok ?x ≫= ?f) with (f x). cbv beta.
  unfold py_last. destruct (last (h :: frame)) as [c|] eqn:Hlast.
  2:{ by apply last_None in Hlast. }
  change (Ok ?x ≫= ?f) with (f x). cbv beta zeta.
  destruct (str_decode _) as [sid|e] eqn:Hsid.
  2:{ right. unfold str_decode in Hsid. destruct (utf8_valid _); [done|].
      by injection Hsid as <-. }
  change (Ok ?x ≫= ?f) with (f x). cbv beta.
  left.
  assert (length (py_slice_1_m1 (h :: frame)) ≤ 11)%nat as Hbody.
  { unfold py_slice_1_m1. rewrite length_take. simpl in *. lia. }
  unfold py_index.
  destruct (py_slice_1_m1 (h :: frame) !! 10%nat) as [st|] eqn:H10; [|done].
  change (Ok ?x ≫= ?f) with (f x). cbv beta.
  rewrite (lookup_ge_None_2 _ 11) by done. done.
Qed.

Lemma decode_short_frame_witness :
  SourceMessage.decode [0x01; 0x00; 0x01] = Raise IndexError
  ∨ SourceMessage.decode [0x01; 0x00; 0x01] = Raise UnicodeDecodeError.
Proof. apply (decode_short_frame [0x01; 0x00; 0x01]). simpl. lia. Defined.

(** X6: a frame that announces fields (count byte above 0) but whose
    field section is not exactly twelve bytes per announced field is
    rejected with [InvalidMessageException], provided its identifier slot
    is text; the trailing byte is not even looked at. *)
Theorem decode_count_mismatch h n1 n0 id8 st nf rest c :
  length id8 = 8%nat → utf8_valid id8 = true →
  0 < nf → Z.of_nat (length rest) ≠ nf * 12 →
  SourceMessage.decode ([h; n1; n0] ++ id8 ++ [st; nf] ++ rest ++ [c])
  = Raise InvalidMessageException.
Proof.
  intros Hlen Hid Hnf Hrest. rewrite SourceMessage_decode_frame by done.
  unfold str_decode. rewrite Hid.
  change (Ok ?x ≫= ?f) with (f x). cbv beta.
  apply Z.ltb_lt in Hnf. rewrite Hnf.
  unfold SourceMessage._decode_data, SourceMessage.chunk_size.
  apply Z.eqb_neq in Hrest. change (Z.of_nat 12) with 12. by rewrite Hrest.
Qed.

Lemma decode_count_mismatch_witness :
  SourceMessage.decode
    ([0x01; 0x00; 0x01] ++ [0x00; 0x00; 0x00; 0x00; 0x00; 0x61; 0x62; 0x63]
     ++ [0x01; 0x02] ++ [0x00; 0x00; 0x00; 0x00; 0x00; 0x61; 0x62; 0x63; 0x00;
                          0x01; 0x02; 0x03] ++ [0x64])
  = Raise InvalidMessageException.
Proof.
  apply decode_count_mismatch; [reflexivity|reflexivity|lia|simpl; lia].
Defined.

(** ** Acknowledgements *)

(** The outcomes of [ServerMessage.encode], case by case. *)
Lemma ServerMessage_encode_three_cases (a : ServerMessage.t) :
  (¬ (0 ≤ ServerMessage.num a < 65536) →
   ServerMessage.encode a = Raise EncodeMessageError)
  ∧ (0 ≤ ServerMessage.num a < 65536 → ¬ (0 ≤ ServerMessage.header a < 256) →
     ServerMessage.encode a = Raise ValueError)
  ∧ (0 ≤ ServerMessage.num a < 65536 → 0 ≤ ServerMessage.header a < 256 →
     ServerMessage.encode a
     = Ok (ServerMessage.header a :: be_digits 2 (ServerMessage.num a)
           ++ [xor_all (ServerMessage.header a :: be_digits 2 (ServerMessage.num a))])).
Proof.
  unfold ServerMessage.encode, ServerMessage.get_raw. split; [|split].
  - intros Hn. rewrite to_bytes_overflow; [done|].
    change (256 ^ Z.of_nat 2) with 65536. lia.
  - intros Hn Hh. rewrite to_bytes_ok by (change (256 ^ Z.of_nat 2) with 65536; lia).
    simpl except_as. change (Ok ?x ≫= ?f) with (f x). cbv beta.
    destruct (py_bytes _) as [l|e] eqn:E.
    + destruct (py_bytes_inv _ _ E) as [_ Hb]. by apply Forall_cons in Hb as [? _].
    + by destruct (py_bytes_Raise _ _ E) as [-> _].
  - intros Hn Hh. rewrite to_bytes_ok by (change (256 ^ Z.of_nat 2) with 65536; lia).
    simpl except_as. change (Ok ?x ≫= ?f) with (f x). cbv beta.
    assert (is_bytes (ServerMessage.header a :: be_digits 2 (ServerMessage.num a))) as Hb
      by (apply Forall_cons; split; [done|apply is_bytes_be_digits]).
    rewrite py_bytes_ok by done.
    change (Ok ?x ≫= ?f) with (f x). cbv beta.
    unfold ServerMessage.check_sum. rewrite xor_checksum_cons.
    change (Ok ?x ≫= ?f) with (f x). cbv beta.
    rewrite py_bytes_ok; [done|].
    apply Forall_cons. split; [by apply xor_all_byte|constructor].
Qed.

(** X7: the three outcomes of [ServerMessage.encode]: a sequence number
    outside 16 bits gives [EncodeMessageError], otherwise a header outside
    a byte gives [ValueError], otherwise the frame is the header, the two
    sequence bytes and the XOR of the three. *)
Theorem ServerMessage_encode_outcome (a : ServerMessage.t) :
  (¬ (0 ≤ ServerMessage.num a < 65536) →
   ServerMessage.encode a = Raise EncodeMessageError)
  ∧ (0 ≤ ServerMessage.num a < 65536 → ¬ (0 ≤ ServerMessage.header a < 256) →
     ServerMessage.encode a = Raise ValueError)
  ∧ (0 ≤ ServerMessage.num a < 65536 → 0 ≤ ServerMessage.header a < 256 →
     ServerMessage.encode a
     = Ok (ServerMessage.header a :: be_digits 2 (ServerMessage.num a)
           ++ [xor_all (ServerMessage.header a :: be_digits 2 (ServerMessage.num a))])).
Proof. apply ServerMessage_encode_three_cases. Qed.

Lemma ServerMessage_encode_outcome_witness :
  ServerMessage.encode (ServerMessage.mk 0x11 65536) = Raise EncodeMessageError
  ∧ ServerMessage.encode (ServerMessage.mk 256 1) = Raise ValueError
  ∧ ServerMessage.encode ack_success_1
    = Ok (0x11 :: be_digits 2 1 ++ [xor_all (0x11 :: be_digits 2 1)]).
Proof.
  split; [|split].
  - apply (proj1 (ServerMessage_encode_outcome _)). simpl. lia.
  - apply (proj1 (proj2 (ServerMessage_encode_outcome _))); simpl; lia.
  - apply (proj2 (proj2 (ServerMessage_encode_outcome ack_success_1)));
      unfold ack_success_1, ServerMessage.HEADER_SUCCESS; simpl; lia.
Defined.

Lemma ServerMessage_init_Ok_inv n h a :
  ServerMessage.init n h = Ok a →
  ServerMessage.num a = n
  ∧ ServerMessage.in_HEADERS (ServerMessage.header a) = true
  ∧ (ServerMessage.header a = ServerMessage.HEADER_ERROR → n = 0).
Proof.
  unfold ServerMessage.init.
  set (h' := if SourceMessage.truthy_int h then default 0 h
             else ServerMessage.DEFAULT_HEADER).
  destruct (ServerMessage.in_HEADERS h') eqn:Eh; [|done]. simpl negb. cbv iota.
  destruct ((h' =? ServerMessage.HEADER_ERROR) && negb (n =? 0)) eqn:E; [done|].
  intros [= <-]. simpl. split; [done|]. split; [done|].
  intros Hh. rewrite Hh, Z.eqb_refl in E. simpl in E.
  by apply negb_false_iff, Z.eqb_eq in E.
Qed.

(** X8: whatever [ServerMessage.decode] returns carries an allowed header,
    carries sequence 0 when the header is ERROR, encodes again, and the
    frame it was decoded from ends in the XOR of its header and sequence
    bytes. *)
Theorem ServerMessage_decode_sound frame a :
  ServerMessage.decode frame = Ok a →
  ServerMessage.in_HEADERS (ServerMessage.header a) = true
  ∧ (ServerMessage.header a = ServerMessage.HEADER_ERROR → ServerMessage.num a = 0)
  ∧ ∃ raw, ServerMessage.get_raw a = Ok raw ∧ last frame = Some (xor_all raw).
Proof.
  unfold ServerMessage.decode. intros H.
  apply bind_Ok_inv in H as (h & Hh & H).
  apply bind_Ok_inv in H as (c & Hc & H). cbv zeta in H.
  apply bind_Ok_inv in H as (message & Hinit & H).
  apply bind_Ok_inv in H as (cs & Hcs & H).
  destruct (negb (cs =? c)) eqn:E; [done|]. injection H as <-.
  apply negb_false_iff, Z.eqb_eq in E. subst cs.
  apply ServerMessage_init_Ok_inv in Hinit as (Hn & Hhd & Herr).
  split; [done|]. split; [by rewrite Hn|].
  unfold ServerMessage.check_sum in Hcs.
  apply bind_Ok_inv in Hcs as (raw & Hraw & Hx).
  exists raw. split; [done|].
  unfold py_last in Hc. destruct (last frame) as [c'|]; [|done].
  injection Hc as ->. f_equal.
  unfold ServerMessage.get_raw in Hraw.
  apply bind_Ok_inv in Hraw as (? & _ & Hraw).
  apply py_bytes_inv in Hraw as [-> _].
  rewrite xor_checksum_cons in Hx. congruence.
Qed.

Lemma ServerMessage_decode_sound_witness :
  ServerMessage.in_HEADERS (ServerMessage.header ack_success_1) = true
  ∧ (ServerMessage.header ack_success_1 = ServerMessage.HEADER_ERROR
     → ServerMessage.num ack_success_1 = 0)
  ∧ ∃ raw, ServerMessage.get_raw ack_success_1 = Ok raw
           ∧ last [0x11; 0x00; 0x01; 0x10] = Some (xor_all raw).
Proof.
  apply (ServerMessage_decode_sound [0x11; 0x00; 0x01; 0x10] ack_success_1).
  reflexivity.
Defined.

(** The ERROR header admits the sequence number 0 only. *)
Lemma ServerMessage_error_with_sequence a b c :
  0 ≤ a → 0 ≤ b → a ≠ 0 ∨ b ≠ 0 →
  ServerMessage.decode [ServerMessage.HEADER_ERROR; a; b; c]
  = Raise InvalidMessageException.
Proof.
  intros Ha Hb Hne. rewrite ServerMessage_decode_frame.
  unfold ServerMessage.init. simpl SourceMessage.truthy_int. simpl default.
  simpl ServerMessage.in_HEADERS. simpl negb at 1. cbv iota.
  rewrite Z.eqb_refl.
  assert (from_bytes [a; b] ≠ 0) as Hn.
  { unfold from_bytes. simpl. lia. }
  apply Z.eqb_neq in Hn. by rewrite Hn.
Qed.

(** X9: an acknowledgement frame with the ERROR header and a sequence
    number other than 0 is rejected with [InvalidMessageException]
    whatever its trailing byte is. *)
Theorem ServerMessage_decode_error_with_sequence a b c :
  0 ≤ a → 0 ≤ b → a ≠ 0 ∨ b ≠ 0 →
  ServerMessage.decode [ServerMessage.HEADER_ERROR; a; b; c]
  = Raise InvalidMessageException.
Proof. apply ServerMessage_error_with_sequence. Qed.

Lemma ServerMessage_decode_error_with_sequence_witness :
  ServerMessage.decode [ServerMessage.HEADER_ERROR; 0x00; 0x01; 0x12]
  = Raise InvalidMessageException.
Proof.
  apply ServerMessage_decode_error_with_sequence; [lia|lia|right; lia].
Defined.

(** ** Sources *)

Lemma set_status_cases self v :
  (1 ≤ v ≤ 3
   ∧ Source.set_status self v
     = Ok (BaseSource.mk (BaseSource.source_id self) (BaseSource.messages self) (Some v)))
  ∨ (¬ (1 ≤ v ≤ 3) ∧ Source.set_status self v = Raise SourceException).
Proof.
  destruct (decide (1 ≤ v ≤ 3)) as [Hv|Hv].
  - left. split; [done|].
    unfold Source.set_status, BaseSource.set_status. simpl.
    rewrite bool_decide_eq_true_2; [done|].
    unfold Source.STATUS_IDLE, Source.STATUS_ACTIVE, Source.STATUS_RECHARGE.
    rewrite !elem_of_cons. lia.
  - right. split; [done|].
    unfold Source.set_status, BaseSource.set_status. simpl.
    rewrite bool_decide_eq_false_2; [done|].
    unfold Source.STATUS_IDLE, Source.STATUS_ACTIVE, Source.STATUS_RECHARGE.
    rewrite !elem_of_cons, elem_of_nil. lia.
Qed.

Lemma init_in_STATUS v : 1 ≤ v ≤ 3 → SourceMessage.in_STATUS v = true.
Proof.
  intros Hv. unfold SourceMessage.in_STATUS, SourceMessage.STATUS_IDLE,
    SourceMessage.STATUS_ACTIVE, SourceMessage.STATUS_RECHARGE.
  rewrite !orb_true_iff, !Z.eqb_eq. lia.
Qed.

Lemma new_message_defined self data :
  status_defined self →
  ∃ v, BaseSource._status self = Some v
    ∧ Source.new_message self data
      = Ok (SourceMessage.mk SourceMessage.DEFAULT_HEADER
              (Z.of_nat (length (BaseSource.messages self)))
              (BaseSource.source_id self) v data,
            BaseSource.mk (BaseSource.source_id self)
              (BaseSource.messages self
               ++ [SourceMessage.mk SourceMessage.DEFAULT_HEADER
                     (Z.of_nat (length (BaseSource.messages self)))
                     (BaseSource.source_id self) v data])
              (Some v)).
Proof.
  intros (v & Hs & Hv). exists v. split; [done|].
  unfold Source.new_message. rewrite Hs. unfold SourceMessage.init.
  simpl SourceMessage.truthy_int. cbv iota.
  by rewrite init_in_STATUS.
Qed.

Lemma source_after_keeps self op :
  status_defined self →
  status_defined (source_after self op)
  ∧ BaseSource.source_id (source_after self op) = BaseSource.source_id self
  ∧ BaseSource.messages self `prefix_of` BaseSource.messages (source_after self op).
Proof.
  intros Hdef. unfold source_after, source_step. destruct op as [v|m|data].
  - destruct (set_status_cases self v) as [[Hv ->]|[_ ->]]; [|done].
    split; [by exists v|done].
  - unfold Source.get_message, BaseSource.get_message.
    destruct (set_status_cases self (SourceMessage.status m)) as [[Hv H]|[_ H]];
      unfold Source.set_status in H; rewrite H; [|done].
    simpl. split; [by eexists|]. split; [done|]. by apply prefix_app_r.
  - destruct (new_message_defined self data Hdef) as (v & Hs & ->).
    destruct Hdef as (v' & Hs' & Hv').
    assert (v' = v) as -> by congruence.
    change (Ok ?x ≫= ?f) with (f x). cbv beta. simpl.
    split; [by exists v|]. split; [done|].
    by apply prefix_app_r.
Qed.

(** What every operation on a source preserves. *)
Lemma source_after_invariant source_id status self ops :
  Source.init source_id status = Ok self →
  status_defined (foldl source_after self ops)
  ∧ BaseSource.source_id (foldl source_after self ops) = source_id
  ∧ (str_len source_id ≤ Source.SOURCE_NAME_LENGTH)%nat
  ∧ BaseSource.messages self = []
  ∧ BaseSource.messages self
      `prefix_of` BaseSource.messages (foldl source_after self ops).
Proof.
  intros Hinit.
  assert (status_defined self ∧ BaseSource.source_id self = source_id
          ∧ (str_len source_id ≤ Source.SOURCE_NAME_LENGTH)%nat
          ∧ BaseSource.messages self = []) as (Hdef & Hid & Hlen & Hmsg).
  { unfold Source.init in Hinit.
    destruct (_ <? _)%nat eqn:E; [done|]. apply Nat.ltb_ge in E.
    unfold BaseSource.init in Hinit.
    destruct (set_status_cases (BaseSource.mk source_id [] None)
                (if SourceMessage.truthy_int status then default 0 status
                 else DEFAULT_STATUS Source.class)) as [[Hv H]|[_ H]];
      unfold Source.set_status in H; rewrite H in Hinit; [|done].
    injection Hinit as <-. split; [by eexists|done]. }
  split; [|split; [|split; [done|split; [done|]]]].
  - clear Hinit Hid Hmsg. revert self Hdef.
    induction ops as [|op ops IH]; intros self Hdef; [done|].
    simpl. by apply IH, source_after_keeps.
  - rewrite <- Hid. clear Hinit Hid Hmsg. revert self Hdef.
    induction ops as [|op ops IH]; intros self Hdef; [done|].
    simpl. rewrite IH by (by apply source_after_keeps).
    by apply source_after_keeps.
  - clear Hinit Hid Hmsg. revert self Hdef.
    induction ops as [|op ops IH]; intros self Hdef; [done|].
    simpl. etrans; [|apply IH; by apply source_after_keeps].
    by apply source_after_keeps.
Qed.

(** From a source with a defined status on, operations keep the status
    defined and the identifier, and only append to the message list. *)
Lemma source_after_history self ops :
  status_defined self →
  status_defined (foldl source_after self ops)
  ∧ BaseSource.source_id (foldl source_after self ops) = BaseSource.source_id self
  ∧ BaseSource.messages self
      `prefix_of` BaseSource.messages (foldl source_after self ops)
  ∧ (length (BaseSource.messages (foldl source_after self ops))
     ≤ length (BaseSource.messages self) + length ops)%nat.
Proof.
  revert self. induction ops as [|op ops IH]; intros self Hdef.
  - simpl. split; [done|]. split; [done|]. split; [done|lia].
  - destruct (source_after_keeps self op Hdef) as (Hdef' & Hid' & Hpre').
    destruct (IH _ Hdef') as (Hdef'' & Hid'' & Hpre'' & Hlen'').
    cbn [foldl]. split; [done|]. split; [congruence|]. split; [by etrans|].
    assert (length (BaseSource.messages (source_after self op))
            ≤ S (length (BaseSource.messages self)))%nat; [|simpl; lia].
    clear -Hdef. unfold source_after, source_step. destruct op as [v|m|data].
    + destruct (set_status_cases self v) as [[_ ->]|[_ ->]]; simpl; lia.
    + unfold Source.get_message, BaseSource.get_message.
      destruct (set_status_cases self (SourceMessage.status m)) as [[_ H]|[_ H]];
        unfold Source.set_status in H; rewrite H; simpl; [|lia].
      rewrite length_app. simpl. lia.
    + destruct (new_message_defined self data Hdef) as (v & _ & ->).
      change (Ok ?x ≫= ?f) with (f x). cbv beta. simpl.
      rewrite length_app. simpl. lia.
Qed.

(** X10: a source keeps its invariants through its whole life.  Take any
    source the constructor returns and any two successive sequences of
    status assignments, received messages and generated messages, each of
    which may go through or raise.  At the end the status is one of the
    three defined ones and the identifier is the one given at
    construction, which has at most eight characters.  The message list,
    empty at construction, only grows at its end: the list as it is after
    the first sequence is a prefix of the list after the second, and the
    second sequence has added at most one message per operation. *)
Theorem source_invariant source_id status self ops ops' :
  Source.init source_id status = Ok self →
  status_defined (foldl source_after self (ops ++ ops'))
  ∧ BaseSource.source_id (foldl source_after self (ops ++ ops')) = source_id
  ∧ (str_len source_id ≤ Source.SOURCE_NAME_LENGTH)%nat
  ∧ BaseSource.messages self = []
  ∧ BaseSource.messages (foldl source_after self ops)
      `prefix_of` BaseSource.messages (foldl source_after self (ops ++ ops'))
  ∧ (length (BaseSource.messages (foldl source_after self (ops ++ ops')))
     ≤ length (BaseSource.messages (foldl source_after self ops)) + length ops')%nat.
Proof.
  intros Hinit.
  destruct (source_after_invariant source_id status self (ops ++ ops') Hinit)
    as (Hdef & Hid & Hlen & Hmsg & _).
  destruct (source_after_invariant source_id status self ops Hinit)
    as (Hdef1 & _).
  destruct (source_after_history (foldl source_after self ops) ops' Hdef1)
    as (_ & _ & Hpre & Hcount).
  rewrite foldl_app. rewrite foldl_app in Hdef, Hid. done.
Qed.

Lemma source_invariant_witness :
  status_defined (foldl source_after source_abc
                    ([NewMessage None; SetStatus 0x22]
                     ++ [GetMessage msg_abc_plain; SetStatus 3]))
  ∧ BaseSource.source_id (foldl source_after source_abc
                            ([NewMessage None; SetStatus 0x22]
                             ++ [GetMessage msg_abc_plain; SetStatus 3]))
    = "abc"%string
  ∧ (str_len "abc" ≤ Source.SOURCE_NAME_LENGTH)%nat
  ∧ BaseSource.messages source_abc = []
  ∧ BaseSource.messages (foldl source_after source_abc
                           [NewMessage None; SetStatus 0x22])
      `prefix_of` BaseSource.messages
                    (foldl source_after source_abc
                       ([NewMessage None; SetStatus 0x22]
                        ++ [GetMessage msg_abc_plain; SetStatus 3]))
  ∧ (length (BaseSource.messages
               (foldl source_after source_abc
                  ([NewMessage None; SetStatus 0x22]
                   ++ [GetMessage msg_abc_plain; SetStatus 3])))
     ≤ length (BaseSource.messages
                 (foldl source_after source_abc [NewMessage None; SetStatus 0x22]))
       + length [GetMessage msg_abc_plain; SetStatus 3])%nat.
Proof. apply (source_invariant "abc" None). reflexivity. Defined.

(** X11: a received message whose status is one of the three defined
    ones always updates the source: the status becomes the message's,
    the message becomes the last of the list and [last_message] returns
    it; nothing else changes. *)
Theorem get_message_updates self message :
  1 ≤ SourceMessage.status message ≤ 3 →
  ∃ self', Source.get_message self message = Ok self'
    ∧ BaseSource._status self' = Some (SourceMessage.status message)
    ∧ BaseSource.messages self' = BaseSource.messages self ++ [message]
    ∧ BaseSource.last_message self' = Some message
    ∧ BaseSource.source_id self' = BaseSource.source_id self.
Proof.
  intros Hv. unfold Source.get_message, BaseSource.get_message.
  destruct (set_status_cases self (SourceMessage.status message)) as [[_ H]|[? _]];
    [|done].
  unfold Source.set_status in H. rewrite H. eexists. split; [done|].
  simpl. split; [done|]. split; [done|]. split; [|done].
  unfold BaseSource.last_message. simpl. apply last_snoc.
Qed.

Lemma get_message_updates_witness :
  ∃ self', Source.get_message source_abc msg_abc_fields = Ok self'
    ∧ BaseSource._status self' = Some (SourceMessage.status msg_abc_fields)
    ∧ BaseSource.messages self' = BaseSource.messages source_abc ++ [msg_abc_fields]
    ∧ BaseSource.last_message self' = Some msg_abc_fields
    ∧ BaseSource.source_id self' = BaseSource.source_id source_abc.
Proof.
  apply (get_message_updates source_abc msg_abc_fields).
  unfold msg_abc_fields, SourceMessage.STATUS_IDLE. simpl. lia.
Defined.

Lemma new_messages_nums self datas :
  status_defined self →
  SourceMessage.num <$> BaseSource.messages (foldl source_after self (NewMessage <$> datas))
  = (SourceMessage.num <$> BaseSource.messages self)
    ++ (Z.of_nat <$> seq (length (BaseSource.messages self)) (length datas)).
Proof.
  revert self. induction datas as [|data datas IH]; intros self Hdef.
  - simpl. by rewrite app_nil_r.
  - rewrite fmap_cons. cbn [foldl].
    pose proof (source_after_keeps self (NewMessage data) Hdef) as (Hdef' & _ & _).
    rewrite IH by done.
    unfold source_after, source_step.
    destruct (new_message_defined self data Hdef) as (v & Hs & ->).
    simpl. rewrite fmap_app, length_app. simpl.
    rewrite <- app_assoc. f_equal. simpl. do 3 f_equal. lia.
Qed.

(** X12: a source numbers the messages it generates from 0, one by one:
    after [n] calls of [new_message] on a newly constructed source, the
    sequence numbers in its list are 0, 1, ..., n-1, whatever data the
    messages carry. *)
Theorem new_message_numbering source_id status self datas :
  Source.init source_id status = Ok self →
  SourceMessage.num <$> BaseSource.messages (foldl source_after self (NewMessage <$> datas))
  = Z.of_nat <$> seq 0 (length datas).
Proof.
  intros Hinit.
  destruct (source_after_invariant source_id status self [] Hinit) as (Hdef & _ & _ & Hmsg & _).
  simpl in Hdef. rewrite new_messages_nums by done. by rewrite Hmsg.
Qed.

Lemma new_message_numbering_witness :
  SourceMessage.num <$> BaseSource.messages
                          (foldl source_after source_abc
                             (NewMessage <$> [None; SourceMessage.data msg_abc_fields; None]))
  = Z.of_nat <$> seq 0 3.
Proof.
  apply (new_message_numbering "abc" None source_abc
           [None; SourceMessage.data msg_abc_fields; None]).
  reflexivity.
Defined.

(** ** Broadcast, in general *)

Lemma dict_update_middle {V} (pre post : dict V) k v v' :
  k ∉ pre.*1 → dict_update k v' (pre ++ (k, v) :: post) = pre ++ (k, v') :: post.
Proof.
  induction pre as [|[k0 v0] pre IH]; intros Hk.
  - simpl. by rewrite decide_True.
  - rewrite fmap_cons in Hk. apply not_elem_of_cons in Hk as [Hne Hk].
    simpl. rewrite decide_False by done. by rewrite IH.
Qed.

Lemma dict_pop_middle {V} (pre post : dict V) k v :
  k ∉ pre.*1 → dict_pop k (pre ++ (k, v) :: post) = Ok (pre ++ post).
Proof.
  induction pre as [|[k0 v0] pre IH]; intros Hk.
  - simpl. by rewrite decide_True.
  - rewrite fmap_cons in Hk. apply not_elem_of_cons in Hk as [Hne Hk].
    simpl. rewrite decide_False by done. by rewrite IH.
Qed.

Lemma send_open payload l :
  listener_open l → BaseListener.send l payload = (Ok tt, sent payload l).
Proof.
  unfold listener_open, BaseListener.send, write, sent. by intros ->.
Qed.

Lemma send_closed payload l :
  ¬ listener_open l →
  BaseListener.send l payload = (Raise ListenerClosedException, l).
Proof.
  unfold listener_open, BaseListener.send, write.
  destruct l as [[b i [] w]]; simpl; [done|]. by intros [].
Qed.

Lemma sent_all_keys payload d : (sent_all payload d).*1 = d.*1.
Proof.
  unfold sent_all. rewrite <- list_fmap_compose. by apply list_fmap_ext.
Qed.

Lemma length_sent_all payload d : length (sent_all payload d) = length d.
Proof. unfold sent_all. apply length_fmap. Qed.

(** The loop over entries that are all open, with the entries [pre]
    before them already served and the entries [rest] still to come. *)
Lemma broadcast_loop_open {Message} (text : Message → list Z) (message : Message)
    (items pre rest : dict BaseListener.t) used :
  NoDup (pre ++ items ++ rest).*1 →
  Forall (λ kv, listener_open kv.2) items →
  length (pre ++ items ++ rest) = used →
  ApplicationServer.broadcast_loop text used (items ++ rest) message
    (pre ++ items ++ rest)
  = ApplicationServer.broadcast_loop text used rest message
      ((pre ++ sent_all (text message) items) ++ rest).
Proof.
  revert pre. induction items as [|[k l] items IH]; intros pre Hnd Hopen Hlen.
  - simpl. by rewrite app_nil_r.
  - apply Forall_cons in Hopen as [Hl Hopen]. simpl in Hl.
    change (((k, l) :: items) ++ rest) with ((k, l) :: items ++ rest) in *.
    cbn [ApplicationServer.broadcast_loop].
    rewrite Hlen, Nat.eqb_refl. simpl negb. cbv iota.
    rewrite send_open by done.
    rewrite dict_update_middle.
    2:{ rewrite fmap_app in Hnd. apply NoDup_app in Hnd as (_ & Hnd & _).
        intros Hin. apply (Hnd k Hin). rewrite fmap_cons. left. }
    replace (pre ++ (k, sent (text message) l) :: items ++ rest)
      with ((pre ++ [(k, sent (text message) l)]) ++ items ++ rest)
      by (by rewrite <- app_assoc).
    rewrite IH.
    + do 2 f_equal. rewrite <- !app_assoc. done.
    + rewrite <- app_assoc. simpl.
      rewrite !fmap_app, !fmap_cons in *. done.
    + done.
    + rewrite <- Hlen, <- app_assoc. simpl. rewrite !length_app. simpl. done.
Qed.

(** The broadcast over a registry of open listeners. *)
Lemma broadcast_message_open {Message} (text : Message → list Z) (message : Message)
    (listeners : dict BaseListener.t) :
  NoDup listeners.*1 →
  Forall (λ kv, listener_open kv.2) listeners →
  ApplicationServer.broadcast_message text message listeners
  = (Ok tt, sent_all (text message) listeners).
Proof.
  intros Hnd Hopen. unfold ApplicationServer.broadcast_message.
  destruct listeners as [|kv listeners]; [done|].
  change (negb (length (kv :: listeners) =? 0)%nat) with true. cbv iota.
  pose proof (broadcast_loop_open text message (kv :: listeners) [] []
                (length (kv :: listeners))) as H.
  rewrite !app_nil_r in H. simpl app in H. rewrite H; [|done..].
  cbn [ApplicationServer.broadcast_loop].
  change ((kv.1, sent (text message) kv.2) :: sent_all (text message) listeners)
    with (sent_all (text message) (kv :: listeners)).
  by rewrite length_sent_all, Nat.eqb_refl.
Qed.

(** X13: when the keys of the registry are distinct and every listener
    accepts the write, the broadcast returns normally, every listener has
    been sent the text of the message exactly once, and the registry
    holds the same listeners in the same order. *)
Theorem broadcast_all_open {Message} (text : Message → list Z) (message : Message)
    (listeners : dict BaseListener.t) :
  NoDup listeners.*1 →
  Forall (λ kv, listener_open kv.2) listeners →
  ApplicationServer.broadcast_message text message listeners
  = (Ok tt, sent_all (text message) listeners).
Proof. apply broadcast_message_open. Qed.

Lemma broadcast_all_open_witness :
  ApplicationServer.broadcast_message (λ _ : unit, [0x61; 0x0A]) tt
    [(listener_1, open_listener); (listener_3, open_listener)]
  = (Ok tt, sent_all [0x61; 0x0A]
              [(listener_1, open_listener); (listener_3, open_listener)]).
Proof.
  apply (broadcast_all_open (λ _ : unit, [0x61; 0x0A]) tt).
  - apply (bool_decide_unpack _). vm_compute. exact I.
  - repeat constructor.
Defined.

(** The broadcast over a registry whose first refusing listener is [l]. *)
Lemma broadcast_message_first_closed {Message} (text : Message → list Z) (message : Message)
    (pre post : dict BaseListener.t) k l :
  NoDup (pre ++ (k, l) :: post).*1 →
  Forall (λ kv, listener_open kv.2) pre →
  ¬ listener_open l →
  ApplicationServer.broadcast_message text message (pre ++ (k, l) :: post)
  = (Raise RuntimeError, sent_all (text message) pre ++ post).
Proof.
  intros Hnd Hopen Hclosed. unfold ApplicationServer.broadcast_message.
  assert (negb (length (pre ++ (k, l) :: post) =? 0)%nat = true) as ->.
  { apply negb_true_iff, Nat.eqb_neq. rewrite length_app. simpl. lia. }
  pose proof (broadcast_loop_open text message pre [] ((k, l) :: post)
                (length (pre ++ (k, l) :: post))) as H.
  simpl app in H. rewrite H; [|done..]. clear H.
  cbn [ApplicationServer.broadcast_loop].
  assert (length (sent_all (text message) pre ++ (k, l) :: post)
          = length (pre ++ (k, l) :: post)) as Hlen
    by (by rewrite !length_app, length_sent_all).
  rewrite Hlen, Nat.eqb_refl. simpl negb. cbv iota.
  rewrite send_closed by done.
  assert (k ∉ (sent_all (text message) pre).*1) as Hk.
  { rewrite sent_all_keys. rewrite fmap_app in Hnd.
    apply NoDup_app in Hnd as (_ & Hnd & _).
    intros Hin. apply (Hnd k Hin). rewrite fmap_cons. left. }
  rewrite dict_update_middle, dict_pop_middle by done.
  destruct post as [|kv post]; cbn [ApplicationServer.broadcast_loop].
  - assert ((length (sent_all (text message) pre ++ [])
             =? length (pre ++ [(k, l)]))%nat = false) as ->; [|done].
    apply Nat.eqb_neq. rewrite !length_app, length_sent_all. simpl. lia.
  - assert ((length (sent_all (text message) pre ++ kv :: post)
             =? length (pre ++ (k, l) :: kv :: post))%nat = false) as ->; [|done].
    apply Nat.eqb_neq. rewrite !length_app, length_sent_all. simpl. lia.
Qed.

(** X14: when the keys of the registry are distinct and a listener
    refuses the write, the broadcast ends there with [RuntimeError]: the
    listeners before the first refusing one have been sent the text, that
    one has been removed from the registry, and the listeners after it
    are left as they were, nothing sent, whether open or not. *)
Theorem broadcast_first_closed {Message} (text : Message → list Z) (message : Message)
    (pre post : dict BaseListener.t) k l :
  NoDup (pre ++ (k, l) :: post).*1 →
  Forall (λ kv, listener_open kv.2) pre →
  ¬ listener_open l →
  ApplicationServer.broadcast_message text message (pre ++ (k, l) :: post)
  = (Raise RuntimeError, sent_all (text message) pre ++ post).
Proof. apply broadcast_message_first_closed. Qed.

Lemma broadcast_first_closed_witness :
  ApplicationServer.broadcast_message (λ _ : unit, [0x61; 0x0A]) tt
    ([(listener_1, open_listener)]
     ++ (listener_2, closed_listener) :: [(listener_3, open_listener)])
  = (Raise RuntimeError,
     sent_all [0x61; 0x0A] [(listener_1, open_listener)]
     ++ [(listener_3, open_listener)]).
Proof.
  apply (broadcast_first_closed (λ _ : unit, [0x61; 0x0A]) tt).
  - apply (bool_decide_unpack _). vm_compute. exact I.
  - repeat constructor.
  - unfold listener_open. simpl. discriminate.
Defined.

(** ** Streams that end inside a frame *)

Lemma fill_None n chunks buf :
  (length (buf ++ concat chunks) < n)%nat → fill n buf chunks = None.
Proof.
  revert buf. induction chunks as [|c chunks IH]; intros buf Hlen.
  - simpl in *. rewrite app_nil_r in Hlen.
    by apply Nat.leb_gt in Hlen as ->.
  - cbn [fill]. assert ((n <=? length buf)%nat = false) as ->.
    { apply Nat.leb_gt. rewrite length_app in Hlen. lia. }
    apply IH. simpl in Hlen. by rewrite <- app_assoc.
Qed.

(** A read of more bytes than the stream will ever deliver ends in
    [StreamClosedError] and leaves the stream closed. *)
Lemma read_bytes_short {B} n (k : list Z → io B) s :
  closed s = false → (length (remaining s) < n)%nat →
  ∃ s', (read_bytes n ≫= k) s = (Raise StreamClosedError, s') ∧ closed s' = true.
Proof.
  intros Hc Hlen. eexists. unfold mbind, io_bind, read_bytes.
  rewrite Hc, fill_None by done. done.
Qed.

(** One [yield stream.read_bytes(n)] on a stream that may or may not hold
    [n] more bytes: the second case closes the goal. *)
Ltac read_case s Hc s' Hc' Hr' Hle :=
  match goal with
  | |- context [(read_bytes ?n ≫= ?k) s] =>
    let H := fresh in
    destruct (le_lt_dec n (length (remaining s))) as [Hle|Hle];
    [ destruct (read_bytes_take n k s _ Hc eq_refl Hle) as (s' & H & Hc' & Hr');
      rewrite H; clear H
    | destruct (read_bytes_short n k s Hc Hle) as (s' & H & Hc');
      rewrite H; by exists s' ]
  end.

Lemma SourceMessage_decode_stream_truncated header rest more s :
  status_frame_shape (header :: rest) →
  closed s = false → more ≠ [] → remaining s ++ more = rest →
  ∃ s', SourceMessage_decode_stream header s = (Raise StreamClosedError, s')
    ∧ closed s' = true.
Proof.
  intros (Hb & nf & Hnf & Hlen) Hc Hmore Hr.
  assert (0 ≤ header < 256) as Hh by (by inversion Hb).
  assert (0 < length more)%nat as Hmore' by (destruct more; [done|simpl; lia]).
  unfold SourceMessage_decode_stream.
  rewrite to_bytes_1, lift_bind by done.
  destruct (le_lt_dec 12 (length (remaining s))) as [Hpre|Hpre].
  - remember (remaining s) as pre eqn:Hpre_eq. symmetry in Hpre_eq.
    destruct pre as [|p0 [|p1 [|p2 [|p3 [|p4 [|p5 [|p6 [|p7 [|p8 [|p9 [|p10 [|p11 pre]]]]]]]]]]]];
      try (simpl in Hpre; lia).
    subst rest. cbn [lookup list_lookup app] in Hnf. injection Hnf as ->.
    assert (length pre + length more = 12 * Z.to_nat nf + 1)%nat as Hlen'
      by (cbn [length app] in Hlen; rewrite length_app in Hlen; lia).
    assert (0 ≤ nf < 256) as Hnfb.
    { unfold is_bytes in Hb. rewrite Forall_forall in Hb. apply Hb.
      do 12 right. left. }
    read_step s Hc Hpre_eq s1 Hc1 Hr1.
    read_step s1 Hc1 Hr1 s2 Hc2 Hr2.
    read_step s2 Hc2 Hr2 s3 Hc3 Hr3.
    read_step s3 Hc3 Hr3 s4 Hc4 Hr4.
    cbn [app take drop] in *.
    change (take 0 pre) with (@nil Z) in *.
    change (drop 0 pre) with pre in *.
    change (from_bytes [nf]) with nf.
    destruct (0 <? nf) eqn:E.
    + apply Z.ltb_lt in E.
      assert (Z.to_nat (nf * Z.of_nat SourceMessage.chunk_size) = (12 * Z.to_nat nf)%nat) as ->
        by (unfold SourceMessage.chunk_size; lia).
      rewrite io_bind_assoc.
      read_case s4 Hc4 s5 Hc5 Hr5 Hle5.
      rewrite mret_bind.
      destruct (read_bytes_short 1 (λ b5, lift (SourceMessage.decode
                  (([header; p0; p1; p2; p3; p4; p5; p6; p7; p8; p9; p10; nf]
                    ++ take (12 * Z.to_nat nf) (remaining s4)) ++ b5))) s5 Hc5)
        as (s6 & H & Hc6).
      { rewrite Hr5, length_drop. rewrite Hr4 in Hle5 |- *. lia. }
      exists s6. split; [|done]. rewrite <- H. done.
    + rewrite mret_bind.
      destruct (read_bytes_short 1 (λ b5, lift (SourceMessage.decode
                  ([header; p0; p1; p2; p3; p4; p5; p6; p7; p8; p9; p10; nf] ++ b5)))
                  s4 Hc4) as (s6 & H & Hc6).
      { rewrite Hr4. apply Z.ltb_ge in E. lia. }
      exists s6. split; [|done]. rewrite <- H. done.
  - read_case s Hc s1 Hc1 Hr1 Hle1.
    read_case s1 Hc1 s2 Hc2 Hr2 Hle2.
    read_case s2 Hc2 s3 Hc3 Hr3 Hle3.
    read_case s3 Hc3 s4 Hc4 Hr4 Hle4.
    rewrite Hr3, Hr2, Hr1, !length_drop in Hle4. lia.
Qed.

Lemma ServerMessage_decode_stream_truncated header rest more s :
  ack_frame_shape (header :: rest) →
  closed s = false → more ≠ [] → remaining s ++ more = rest →
  ∃ s', ServerMessage_decode_stream header s = (Raise StreamClosedError, s')
    ∧ closed s' = true.
Proof.
  intros (Hb & Hlen) Hc Hmore Hr.
  assert (0 ≤ header < 256) as Hh by (by inversion Hb).
  assert (0 < length more)%nat as Hmore' by (destruct more; [done|simpl; lia]).
  assert (length (remaining s) < 3)%nat as Hpre.
  { subst rest. cbn [length] in Hlen. rewrite length_app in Hlen. lia. }
  unfold ServerMessage_decode_stream.
  rewrite to_bytes_1, lift_bind by done.
  read_case s Hc s1 Hc1 Hr1 Hle1.
  read_case s1 Hc1 s2 Hc2 Hr2 Hle2.
  rewrite Hr1, length_drop in Hle2. lia.
Qed.

(** X15: when the peer closes the connection inside a frame, so that the
    stream delivers only a proper prefix of what follows the header byte,
    [decode_stream] of either message kind ends in [StreamClosedError]
    with the stream closed; it returns neither a message built from the
    part received nor a decoding error. *)
Theorem decode_stream_truncated :
  (∀ header rest more s,
     status_frame_shape (header :: rest) →
     closed s = false → more ≠ [] → remaining s ++ more = rest →
     ∃ s', SourceMessage_decode_stream header s = (Raise StreamClosedError, s')
       ∧ closed s' = true)
  ∧ (∀ header rest more s,
       ack_frame_shape (header :: rest) →
       closed s = false → more ≠ [] → remaining s ++ more = rest →
       ∃ s', ServerMessage_decode_stream header s = (Raise StreamClosedError, s')
         ∧ closed s' = true).
Proof.
  split.
  - apply SourceMessage_decode_stream_truncated.
  - apply ServerMessage_decode_stream_truncated.
Qed.

Lemma decode_stream_truncated_witness :
  (∃ s', SourceMessage_decode_stream 0x01
           (mkStream [0x00] [[0x01; 0x00; 0x00; 0x00]] false [])
         = (Raise StreamClosedError, s') ∧ closed s' = true)
  ∧ (∃ s', ServerMessage_decode_stream 0x11 (mkStream [] [[0x00]] false [])
           = (Raise StreamClosedError, s') ∧ closed s' = true).
Proof.
  split.
  - apply (proj1 decode_stream_truncated 0x01 (tail frame_two_fields)
             (drop 5 (tail frame_two_fields))).
    + split.
      * unfold is_bytes, frame_two_fields. simpl tail.
        repeat (apply Forall_cons; split; [lia|]). apply Forall_nil_2.
      * exists 2. split; reflexivity.
    + reflexivity.
    + discriminate.
    + reflexivity.
  - apply (proj2 decode_stream_truncated 0x11 [0x00; 0x01; 0x10] [0x01; 0x10]).
    + split; [|reflexivity].
      unfold is_bytes. repeat (apply Forall_cons; split; [lia|]). apply Forall_nil_2.
    + reflexivity.
    + discriminate.
    + reflexivity.
Defined.

(** ** The dispatcher *)

Lemma read_bytes_written n s : written (read_bytes n s).2 = written s.
Proof.
  unfold read_bytes. destruct (closed s); [by destruct (_ <=? _)%nat|].
  by destruct (fill n (rbuf s) (incoming s)) as [[buf chunks]|].
Qed.

Lemma io_bind_written {A B} (c : io A) (k : A → io B) s :
  written (c s).2 = written s →
  (∀ a s', written (k a s').2 = written s') →
  written ((c ≫= k) s).2 = written s.
Proof.
  intros Hc Hk. unfold mbind, io_bind.
  destruct (c s) as [[a|e] s'] eqn:E; simpl in *; [|done].
  by rewrite Hk.
Qed.

(** Reading a message off a stream writes nothing to it. *)
Lemma SourceMessage_decode_stream_written header s :
  written (SourceMessage_decode_stream header s).2 = written s.
Proof.
  unfold SourceMessage_decode_stream.
  apply io_bind_written; [done|]. intros b0 s0.
  apply io_bind_written; [apply read_bytes_written|]. intros b1 s1.
  apply io_bind_written; [apply read_bytes_written|]. intros b2 s2.
  apply io_bind_written; [apply read_bytes_written|]. intros b3 s3.
  apply io_bind_written; [apply read_bytes_written|]. intros b4 s4.
  apply io_bind_written.
  - destruct (0 <? from_bytes b4); [|done].
    apply io_bind_written; [apply read_bytes_written|done].
  - intros b5 s5. apply io_bind_written; [apply read_bytes_written|done].
Qed.

Lemma ServerMessage_decode_stream_written header s :
  written (ServerMessage_decode_stream header s).2 = written s.
Proof.
  unfold ServerMessage_decode_stream.
  apply io_bind_written; [done|]. intros b0 s0.
  apply io_bind_written; [apply read_bytes_written|]. intros b1 s1.
  apply io_bind_written; [apply read_bytes_written|done].
Qed.

Lemma sources_get_set k k' v d :
  ApplicationServer.sources_get k' (ApplicationServer.sources_set k v d)
  = if decide (k' = k) then Some v else ApplicationServer.sources_get k' d.
Proof.
  induction d as [|[k0 v0] d IH]; simpl.
  - by destruct (decide (k' = k)).
  - destruct (decide (k = k0)) as [->|Hne]; simpl.
    + by destruct (decide (k' = k0)).
    + rewrite IH. destruct (decide (k' = k0)) as [->|]; [|done].
      by rewrite decide_False.
Qed.

Lemma sources_set_set k v v' d :
  ApplicationServer.sources_set k v' (ApplicationServer.sources_set k v d)
  = ApplicationServer.sources_set k v' d.
Proof.
  induction d as [|[k0 v0] d IH]; simpl.
  - by rewrite decide_True.
  - destruct (decide (k = k0)) as [->|Hne]; simpl.
    + by rewrite decide_True.
    + by rewrite decide_False, IH.
Qed.

Lemma str_len_le s : (str_len s ≤ length (str_encode s))%nat.
Proof. unfold str_len. apply length_filter. Qed.

Lemma get_message_ok self message :
  1 ≤ SourceMessage.status message ≤ 3 →
  Source.get_message self message
  = Ok (BaseSource.mk (BaseSource.source_id self)
          (BaseSource.messages self ++ [message])
          (Some (SourceMessage.status message))).
Proof.
  intros Hv. unfold Source.get_message, BaseSource.get_message.
  destruct (set_status_cases self (SourceMessage.status message)) as [[_ H]|[? _]];
    [|done].
  unfold Source.set_status in H. by rewrite H.
Qed.

Lemma Source_init_ok source_id v :
  (length (str_encode source_id) ≤ 8)%nat → 1 ≤ v ≤ 3 →
  Source.init source_id (Some v) = Ok (BaseSource.mk source_id [] (Some v)).
Proof.
  intros Hlen Hv. unfold Source.init.
  assert ((Source.SOURCE_NAME_LENGTH <? str_len source_id)%nat = false) as ->.
  { apply Nat.ltb_ge. pose proof (str_len_le source_id).
    unfold Source.SOURCE_NAME_LENGTH. lia. }
  unfold BaseSource.init.
  assert (SourceMessage.truthy_int (Some v) = true) as ->
    by (simpl; apply negb_true_iff, Z.eqb_neq; lia).
  simpl default.
  destruct (set_status_cases (BaseSource.mk source_id [] None) v) as [[_ H]|[? _]];
    [|done].
  unfold Source.set_status in H. by rewrite H.
Qed.

Lemma success_ack_encode n :
  0 ≤ n < 65536 →
  (ok_message ← ServerMessage.init n (Some ServerMessage.HEADER_SUCCESS);
   ServerMessage.encode ok_message) = Ok (success_ack n).
Proof.
  intros Hn.
  change (ServerMessage.init n (Some ServerMessage.HEADER_SUCCESS))
    with (Ok (ServerMessage.mk ServerMessage.HEADER_SUCCESS n)).
  change (Ok ?x ≫= ?f) with (f x). cbv beta.
  by apply (ServerMessage_encode_three_cases (ServerMessage.mk ServerMessage.HEADER_SUCCESS n)).
Qed.

Lemma error_ack_encode :
  (error_message ← ServerMessage.init 0 (Some ServerMessage.HEADER_ERROR);
   ServerMessage.encode error_message) = Ok error_ack.
Proof. reflexivity. Qed.

Lemma conn_bind_ok {A B} (c : ApplicationServer.conn A)
    (k : A → ApplicationServer.conn B) w a w' :
  c w = (Ok a, w') → (c ≫= k) w = k a w'.
Proof. unfold mbind, ApplicationServer.conn_bind. by intros ->. Qed.

Lemma conn_bind_raise {A B} (c : ApplicationServer.conn A)
    (k : A → ApplicationServer.conn B) w e w' :
  c w = (Raise e, w') → (c ≫= k) w = (Raise e, w').
Proof. unfold mbind, ApplicationServer.conn_bind. by intros ->. Qed.

(** Every frame of the encoder has the shape the stream reader relies
    on. *)
Lemma encode_frame_shape m frame :
  SourceMessage.encode m = Ok frame → status_frame_shape frame.
Proof.
  intros Henc.
  destruct (encode_frame_props m frame Henc) as (Hfit & -> & Hb & _ & Hlen).
  split; [done|].
  exists (Z.of_nat (size (field_map (SourceMessage.data m)))).
  split; [|by rewrite Nat2Z.id].
  unfold layout. rewrite be_digits_2.
  pose proof (length_trim_bytes (str_encode (SourceMessage.source_id m)) 8) as Hl8.
  destruct (trim_bytes (str_encode (SourceMessage.source_id m)) 8)
    as [|i0 [|i1 [|i2 [|i3 [|i4 [|i5 [|i6 [|i7 [|]]]]]]]]]; try done.
Qed.

(** The handler on the frame of a valid message, up to the outcome [r] of
    the broadcast. *)
Lemma handler_SourceMessage_broadcast (text : SourceMessage.t → list Z) m header rest extra
    self stream r listeners' :
  valid_status_message m →
  SourceMessage.encode m = Ok (header :: rest) →
  closed stream = false → remaining stream = rest ++ extra →
  ApplicationServer.broadcast_message text (normalise m)
    (ApplicationServer.listeners self) = (r, listeners') →
  (∀ e, r = Raise e → e ∉ [InvalidMessageException; SourceException]) →
  ∃ stream1,
    closed stream1 = false ∧ remaining stream1 = extra
    ∧ written stream1 = written stream
    ∧ ApplicationServer.handler_SourceMessage text header (self, stream)
      = (r,
         (ApplicationServer.mk
            (ApplicationServer.sources_set (SourceMessage.source_id m)
               (source_after_message (ApplicationServer.sources self) (normalise m))
               (ApplicationServer.sources self))
            listeners',
          wrote (success_ack (SourceMessage.num m)) stream1)).
Proof.
  intros Hm Henc Hc Hr Hbc Hr_exn.
  pose proof (encode_frame_shape _ _ Henc) as Hshape.
  destruct (decode_valid m (xor_all (default [] (match SourceMessage.get_raw m
                                                   with Ok r => Some r | _ => None end))) Hm)
    as (raw & Hraw & _ & Henc' & Hdec).
  rewrite Hraw in Hdec. simpl default in Hdec. rewrite Z.eqb_refl in Hdec.
  rewrite Henc in Henc'. injection Henc' as Hframe. rewrite <- Hframe in Hdec.
  destruct (SourceMessage_decode_stream_spec header rest extra stream Hshape Hc Hr)
    as (s1 & Hstream & Hc1 & Hr1).
  rewrite Hdec in Hstream.
  pose proof (SourceMessage_decode_stream_written header stream) as Hw.
  rewrite Hstream in Hw. simpl in Hw.
  exists s1. split; [done|]. split; [done|]. split; [done|].
  destruct Hm as (Hh & Hn & Hs%in_STATUS_range & [[_ Hidlen] _] & _).
  set (m' := normalise m) in *.
  assert (SourceMessage.source_id m' = SourceMessage.source_id m) as Hid' by done.
  assert (SourceMessage.status m' = SourceMessage.status m) as Hs' by done.
  assert (SourceMessage.num m' = SourceMessage.num m) as Hn' by done.
  unfold ApplicationServer.handler_SourceMessage, ApplicationServer.try_except.
  erewrite conn_bind_ok;
    [|unfold ApplicationServer.on_stream; simpl; by rewrite Hstream].
  cbv zeta. rewrite Hid', Hs', Hn'.
  erewrite conn_bind_ok by reflexivity. simpl ApplicationServer.sources.
  unfold source_after_message. rewrite Hid', Hs'.
  destruct (ApplicationServer.sources_get (SourceMessage.source_id m)
              (ApplicationServer.sources self)) as [source|] eqn:Hget.
  - erewrite conn_bind_ok by reflexivity.
    erewrite conn_bind_ok;
      [|unfold ApplicationServer.eval; rewrite get_message_ok by (by rewrite Hs');
        reflexivity].
    erewrite conn_bind_ok by reflexivity.
    erewrite conn_bind_ok by reflexivity.
    rewrite Hs'.
    change (ServerMessage.init (SourceMessage.num m) (Some ServerMessage.HEADER_SUCCESS))
      with (Ok (ServerMessage.mk ServerMessage.HEADER_SUCCESS (SourceMessage.num m))).
    erewrite conn_bind_ok by reflexivity.
    pose proof (success_ack_encode (SourceMessage.num m) ltac:(lia)) as Hack.
    change (ServerMessage.init (SourceMessage.num m) (Some ServerMessage.HEADER_SUCCESS))
      with (Ok (ServerMessage.mk ServerMessage.HEADER_SUCCESS (SourceMessage.num m)))
      in Hack.
    change (Ok ?x ≫= ?f) with (f x) in Hack. cbv beta in Hack.
    erewrite conn_bind_ok; [|unfold ApplicationServer.eval; by rewrite Hack].
    erewrite conn_bind_ok;
      [|unfold ApplicationServer.on_stream, write; simpl; by rewrite Hc1].
    unfold ApplicationServer.broadcast. simpl.
    rewrite Hbc. destruct r as [[]|e]; [done|].
    by rewrite bool_decide_eq_false_2 by (by apply Hr_exn).
  - erewrite conn_bind_ok;
      [|erewrite conn_bind_ok;
         [|unfold ApplicationServer.eval; rewrite Source_init_ok by (done || lia);
           reflexivity];
        erewrite conn_bind_ok by reflexivity; reflexivity].
    erewrite conn_bind_ok;
      [|unfold ApplicationServer.eval; rewrite get_message_ok by (by rewrite Hs');
        reflexivity].
    erewrite conn_bind_ok by reflexivity.
    erewrite conn_bind_ok by reflexivity.
    simpl. rewrite sources_set_set.
    change (ServerMessage.init (SourceMessage.num m) (Some ServerMessage.HEADER_SUCCESS))
      with (Ok (ServerMessage.mk ServerMessage.HEADER_SUCCESS (SourceMessage.num m))).
    erewrite conn_bind_ok by reflexivity.
    pose proof (success_ack_encode (SourceMessage.num m) ltac:(lia)) as Hack.
    change (ServerMessage.init (SourceMessage.num m) (Some ServerMessage.HEADER_SUCCESS))
      with (Ok (ServerMessage.mk ServerMessage.HEADER_SUCCESS (SourceMessage.num m)))
      in Hack.
    change (Ok ?x ≫= ?f) with (f x) in Hack. cbv beta in Hack.
    erewrite conn_bind_ok; [|unfold ApplicationServer.eval; by rewrite Hack].
    erewrite conn_bind_ok;
      [|unfold ApplicationServer.on_stream, write; simpl; by rewrite Hc1].
    unfold ApplicationServer.broadcast. simpl.
    rewrite Hbc. destruct r as [[]|e]; [done|].
    by rewrite bool_decide_eq_false_2 by (by apply Hr_exn).
Qed.

(** The handler on the frame of a valid message. *)
Lemma handler_SourceMessage_valid (text : SourceMessage.t → list Z) m header rest extra self stream :
  valid_status_message m →
  SourceMessage.encode m = Ok (header :: rest) →
  closed stream = false → remaining stream = rest ++ extra →
  listeners_ok (ApplicationServer.listeners self) →
  ∃ stream1,
    closed stream1 = false ∧ remaining stream1 = extra
    ∧ written stream1 = written stream
    ∧ ApplicationServer.handler_SourceMessage text header (self, stream)
      = (Ok tt,
         (ApplicationServer.mk
            (ApplicationServer.sources_set (SourceMessage.source_id m)
               (source_after_message (ApplicationServer.sources self) (normalise m))
               (ApplicationServer.sources self))
            (sent_all (text (normalise m)) (ApplicationServer.listeners self)),
          wrote (success_ack (SourceMessage.num m)) stream1)).
Proof.
  intros Hm Henc Hc Hr [Hnd Hopen].
  apply (handler_SourceMessage_broadcast text m header rest); [done..| |done].
  by apply broadcast_message_open.
Qed.

(** X16: a valid status frame arriving on a source connection, in any
    pieces, is processed to the end when the registry of listeners has
    distinct addresses and open streams: the handler returns normally,
    has read exactly the frame, has answered on the same connection with
    the SUCCESS acknowledgement of the message's sequence number, has
    registered or updated the source of that identifier (status of the
    message, message appended to its list), and has sent the text of the
    message to every listener. *)
Theorem handler_accepts (text : SourceMessage.t → list Z) m header rest extra self stream :
  valid_status_message m →
  SourceMessage.encode m = Ok (header :: rest) →
  closed stream = false → remaining stream = rest ++ extra →
  listeners_ok (ApplicationServer.listeners self) →
  ∃ stream1,
    closed stream1 = false ∧ remaining stream1 = extra
    ∧ written stream1 = written stream
    ∧ ApplicationServer.handler_SourceMessage text header (self, stream)
      = (Ok tt,
         (ApplicationServer.mk
            (ApplicationServer.sources_set (SourceMessage.source_id m)
               (source_after_message (ApplicationServer.sources self) (normalise m))
               (ApplicationServer.sources self))
            (sent_all (text (normalise m)) (ApplicationServer.listeners self)),
          wrote (success_ack (SourceMessage.num m)) stream1)).
Proof. apply handler_SourceMessage_valid. Qed.

Lemma handler_accepts_witness :
  ∃ stream1,
    closed stream1 = false ∧ remaining stream1 = [0x01]
    ∧ written stream1 = []
    ∧ ApplicationServer.handler_SourceMessage (λ _, [0x61; 0x0A]) 0x01
        (ApplicationServer.mk [] [(listener_1, open_listener)],
         mkStream [] [tail frame_plain; [0x01]] false [])
      = (Ok tt,
         (ApplicationServer.mk
            (ApplicationServer.sources_set (SourceMessage.source_id msg_abc_plain)
               (source_after_message [] (normalise msg_abc_plain)) [])
            (sent_all [0x61; 0x0A] [(listener_1, open_listener)]),
          wrote (success_ack (SourceMessage.num msg_abc_plain)) stream1)).
Proof.
  apply (handler_accepts (λ _, [0x61; 0x0A]) msg_abc_plain 0x01 (tail frame_plain) [0x01]
           (ApplicationServer.mk [] [(listener_1, open_listener)])
           (mkStream [] [tail frame_plain; [0x01]] false [])).
  - split; [reflexivity|]. split; [simpl; lia|]. split; [reflexivity|].
    split; [solve_text_ok|]. split; [apply map_Forall_empty|vm_compute; lia].
  - vm_compute. reflexivity.
  - reflexivity.
  - reflexivity.
  - split; [apply (bool_decide_unpack _); vm_compute; exact I|].
    repeat constructor.
Defined.


(** The handler on a complete frame that the decoder refuses. *)
Lemma handler_SourceMessage_refused (text : SourceMessage.t → list Z) e header rest extra self stream :
  status_frame_shape (header :: rest) →
  SourceMessage.decode (header :: rest) = Raise e →
  closed stream = false → remaining stream = rest ++ extra →
  ∃ stream1,
    closed stream1 = false ∧ remaining stream1 = extra
    ∧ written stream1 = written stream
    ∧ ApplicationServer.handler_SourceMessage text header (self, stream)
      = if bool_decide (e ∈ [InvalidMessageException; SourceException])
        then (Ok tt, (self, wrote error_ack stream1))
        else (Raise e, (self, stream1)).
Proof.
  intros Hshape Hdec Hc Hr.
  destruct (SourceMessage_decode_stream_spec header rest extra stream Hshape Hc Hr)
    as (s1 & Hstream & Hc1 & Hr1).
  rewrite Hdec in Hstream.
  pose proof (SourceMessage_decode_stream_written header stream) as Hw.
  rewrite Hstream in Hw. simpl in Hw.
  exists s1. split; [done|]. split; [done|]. split; [done|].
  unfold ApplicationServer.handler_SourceMessage, ApplicationServer.try_except.
  erewrite conn_bind_raise;
    [|unfold ApplicationServer.on_stream; simpl; by rewrite Hstream].
  destruct (bool_decide (e ∈ [InvalidMessageException; SourceException])); [|done].
  change (ServerMessage.init 0 (Some ServerMessage.HEADER_ERROR))
    with (Ok (ServerMessage.mk ServerMessage.HEADER_ERROR 0)).
  erewrite conn_bind_ok by reflexivity.
  pose proof error_ack_encode as Hack.
  change (ServerMessage.init 0 (Some ServerMessage.HEADER_ERROR))
    with (Ok (ServerMessage.mk ServerMessage.HEADER_ERROR 0)) in Hack.
  change (Ok ?x ≫= ?f) with (f x) in Hack. cbv beta in Hack.
  erewrite conn_bind_ok; [|unfold ApplicationServer.eval; by rewrite Hack].
  unfold ApplicationServer.on_stream, write. simpl. by rewrite Hc1.
Qed.

(** X17: a complete frame that [SourceMessage.decode] refuses never
    reaches the registries or the listeners.  When the refusal is one of
    the exceptions the handler catches ([InvalidMessageException]: bad
    checksum, unknown status, broken field section), the handler returns
    normally after answering with the ERROR acknowledgement, whose
    sequence number is 0 whatever the frame carried; when it is any other
    exception (such as [UnicodeDecodeError] for an identifier slot that
    is not text), that exception leaves the handler and nothing is
    answered.  In both cases exactly the frame has been read. *)
Theorem handler_rejects (text : SourceMessage.t → list Z) e header rest extra self stream :
  status_frame_shape (header :: rest) →
  SourceMessage.decode (header :: rest) = Raise e →
  closed stream = false → remaining stream = rest ++ extra →
  ∃ stream1,
    closed stream1 = false ∧ remaining stream1 = extra
    ∧ written stream1 = written stream
    ∧ ApplicationServer.handler_SourceMessage text header (self, stream)
      = if bool_decide (e ∈ [InvalidMessageException; SourceException])
        then (Ok tt, (self, wrote error_ack stream1))
        else (Raise e, (self, stream1)).
Proof. apply handler_SourceMessage_refused. Qed.

Lemma handler_rejects_witness :
  ∃ stream1,
    closed stream1 = false ∧ remaining stream1 = [0x01]
    ∧ written stream1 = []
    ∧ ApplicationServer.handler_SourceMessage (λ _, [0x61; 0x0A]) 0x01
        (ApplicationServer.mk [] [(listener_1, open_listener)],
         mkStream [] [[0x00; 0x01; 0x00; 0x00; 0x00; 0x00; 0x00; 0x61; 0x62; 0x63;
                       0x01; 0x00; 0x60; 0x01]] false [])
      = if bool_decide (InvalidMessageException
                        ∈ [InvalidMessageException; SourceException])
        then (Ok tt, (ApplicationServer.mk [] [(listener_1, open_listener)],
                      wrote error_ack stream1))
        else (Raise InvalidMessageException,
              (ApplicationServer.mk [] [(listener_1, open_listener)], stream1)).
Proof.
  apply (handler_rejects (λ _, [0x61; 0x0A]) InvalidMessageException 0x01
           [0x00; 0x01; 0x00; 0x00; 0x00; 0x00; 0x00; 0x61; 0x62; 0x63; 0x01; 0x00; 0x60]
           [0x01]
           (ApplicationServer.mk [] [(listener_1, open_listener)])
           (mkStream [] [[0x00; 0x01; 0x00; 0x00; 0x00; 0x00; 0x00; 0x61; 0x62; 0x63;
                          0x01; 0x00; 0x60; 0x01]] false [])).
  - split.
    + unfold is_bytes. repeat (apply Forall_cons; split; [lia|]). apply Forall_nil_2.
    + exists 0. split; reflexivity.
  - vm_compute. reflexivity.
  - reflexivity.
  - reflexivity.
Defined.

(** ** The loop of a source connection *)

Lemma listeners_ok_sent_all payload d : listeners_ok d → listeners_ok (sent_all payload d).
Proof.
  intros [Hnd Hopen]. split; [by rewrite sent_all_keys|].
  unfold sent_all. rewrite Forall_fmap. eapply Forall_impl; [exact Hopen|done].
Qed.

Lemma read_header_ok s h l :
  closed s = false → remaining s = h :: l →
  ∃ s', read_bytes 1 s = (Ok [h], s')
    ∧ closed s' = false ∧ remaining s' = l ∧ written s' = written s.
Proof.
  intros Hc Hl.
  destruct (fill_spec 1 (incoming s) (rbuf s) (h :: l) Hl ltac:(simpl; lia))
    as (buf & chunks & Hf & Hl' & Hn').
  exists (mkStream (drop 1 buf) chunks false (written s)).
  unfold read_bytes. rewrite Hc, Hf.
  destruct buf as [|b buf]; [simpl in Hn'; lia|].
  simpl in Hl'. injection Hl' as -> Hl'.
  split; [done|]. split; [done|]. split; [|done].
  unfold remaining. simpl. by rewrite ?drop_0.
Qed.

Lemma read_header_eof s :
  closed s = false → remaining s = [] →
  ∃ s', read_bytes 1 s = (Raise StreamClosedError, s')
    ∧ closed s' = true ∧ written s' = written s.
Proof.
  intros Hc Hl. eexists. unfold read_bytes.
  rewrite Hc, fill_None; [done|].
  unfold remaining in Hl. rewrite Hl. simpl. lia.
Qed.

Lemma handle_frames text ms : ∀ frames self stream fuel,
  Forall valid_status_message ms →
  Forall2 (λ m frame, SourceMessage.encode m = Ok frame) ms frames →
  closed stream = false → remaining stream = concat frames →
  listeners_ok (ApplicationServer.listeners self) →
  (length ms < fuel)%nat →
  ∃ stream',
    ApplicationServer.handle text fuel (self, stream)
    = Some (StreamClosedError, (foldl (server_after text) self ms, stream'))
    ∧ written stream'
      = written stream ++ ((λ m, success_ack (SourceMessage.num m)) <$> ms)
    ∧ closed stream' = true.
Proof.
  induction ms as [|m ms IH]; intros frames self stream fuel Hv Hf Hc Hr Hl Hfuel.
  - apply Forall2_nil_inv_l in Hf as ->.
    destruct fuel as [|fuel]; [simpl in Hfuel; lia|].
    destruct (read_header_eof stream Hc Hr) as (s' & Hread & Hc' & Hw').
    exists s'. split; [|split; [by rewrite app_nil_r|done]].
    cbn [ApplicationServer.handle].
    erewrite conn_bind_raise; [done|].
    unfold ApplicationServer.on_stream. simpl. by rewrite Hread.
  - apply Forall2_cons_inv_l in Hf as (frame & frames' & Henc & Hf & ->).
    apply Forall_cons in Hv as [Hm Hv].
    destruct fuel as [|fuel]; [simpl in Hfuel; lia|].
    destruct (encode_frame_props m frame Henc) as (_ & Hframe & _).
    unfold layout in Hframe. cbn [app] in Hframe.
    destruct frame as [|header rest]; [done|].
    assert (header = 1) as ->.
    { destruct Hm as (Hh & _). unfold SourceMessage.DEFAULT_HEADER in Hh. congruence. }
    clear Hframe. cbn [concat app] in Hr.
    destruct (read_header_ok stream 1 _ Hc Hr) as (s0 & Hread & Hc0 & Hr0 & Hw0).
    destruct (handler_SourceMessage_valid text m 1 rest (concat frames') self s0
                Hm Henc Hc0 Hr0 Hl) as (s1 & Hc1 & Hr1 & Hw1 & Hh).
    destruct (IH frames' (server_after text self m)
                (wrote (success_ack (SourceMessage.num m)) s1) fuel Hv Hf)
      as (s' & Hrun & Hw' & Hc'); [done|done| |simpl in Hfuel; lia|].
    { simpl. by apply listeners_ok_sent_all. }
    exists s'. split; [|split; [|done]].
    + cbn [ApplicationServer.handle].
      erewrite conn_bind_ok;
        [|unfold ApplicationServer.on_stream; simpl; by rewrite Hread].
      change (ApplicationServer.catch_message text (from_bytes [1]))
        with (ApplicationServer.handler_SourceMessage text 1).
      rewrite Hh. exact Hrun.
    + rewrite Hw'. simpl. rewrite Hw1, Hw0, <- app_assoc. done.
Qed.

(** X18: a source connection that delivers the frames of valid status
    messages one after the other, cut into pieces in any way, and is then
    closed by the peer, is served to the end when the listeners have
    distinct addresses and open streams: every message is processed in
    order (source registered or updated, text sent to every listener),
    the connection has been answered with the SUCCESS acknowledgements of
    the sequence numbers in the same order and nothing else, and the
    closing of the connection ends [handle_stream] normally. *)
Theorem handle_stream_frames text ms frames self stream fuel :
  Forall valid_status_message ms →
  Forall2 (λ m frame, SourceMessage.encode m = Ok frame) ms frames →
  closed stream = false → remaining stream = concat frames →
  listeners_ok (ApplicationServer.listeners self) →
  (length ms < fuel)%nat →
  ∃ stream',
    ApplicationServer.handle_stream text fuel (self, stream)
    = Some (Ok tt, (foldl (server_after text) self ms, stream'))
    ∧ written stream'
      = written stream ++ ((λ m, success_ack (SourceMessage.num m)) <$> ms)
    ∧ closed stream' = true.
Proof.
  intros Hv Hf Hc Hr Hl Hfuel.
  destruct (handle_frames text ms frames self stream fuel Hv Hf Hc Hr Hl Hfuel)
    as (s' & Hrun & Hw & Hc').
  exists s'. unfold ApplicationServer.handle_stream. by rewrite Hrun.
Qed.

Lemma handle_stream_frames_witness :
  ∃ stream',
    ApplicationServer.handle_stream (λ _, [0x61; 0x0A]) 3
      (ApplicationServer.mk [] [(listener_1, open_listener)],
       mkStream [] [[0x01; 0x00]; tail (tail frame_plain) ++ frame_one_field] false [])
    = Some (Ok tt,
            (foldl (server_after (λ _, [0x61; 0x0A]))
               (ApplicationServer.mk [] [(listener_1, open_listener)])
               [msg_abc_plain; msg_one_field],
             stream'))
    ∧ written stream'
      = [] ++ ((λ m, success_ack (SourceMessage.num m))
               <$> [msg_abc_plain; msg_one_field])
    ∧ closed stream' = true.
Proof.
  apply (handle_stream_frames (λ _, [0x61; 0x0A]) [msg_abc_plain; msg_one_field]
           [frame_plain; frame_one_field]
           (ApplicationServer.mk [] [(listener_1, open_listener)])
           (mkStream [] [[0x01; 0x00]; tail (tail frame_plain) ++ frame_one_field]
              false [])
           3).
  - apply Forall_cons. split; [|apply Forall_cons; split; [|apply Forall_nil_2]].
    + split; [reflexivity|]. split; [simpl; lia|]. split; [reflexivity|].
      split; [solve_text_ok|]. split; [apply map_Forall_empty|vm_compute; lia].
    + split; [reflexivity|]. split; [simpl; lia|]. split; [reflexivity|].
      split; [solve_text_ok|]. split; [|vm_compute; lia].
      unfold msg_one_field, field_map. simpl default.
      apply map_Forall_insert_2; [split; [solve_text_ok|lia]|].
      apply map_Forall_empty.
  - constructor; [vm_compute; reflexivity|].
    constructor; [vm_compute; reflexivity|]. constructor.
  - reflexivity.
  - reflexivity.
  - split; [apply (bool_decide_unpack _); vm_compute; exact I|].
    repeat constructor.
  - simpl. lia.
Defined.

Lemma handle_junk text junk : ∀ self stream fuel,
  Forall (λ b, b ≠ 1) junk →
  closed stream = false → remaining stream = junk →
  (length junk < fuel)%nat →
  ∃ stream',
    ApplicationServer.handle text fuel (self, stream)
    = Some (StreamClosedError, (self, stream'))
    ∧ written stream' = written stream ∧ closed stream' = true.
Proof.
  induction junk as [|b junk IH]; intros self stream fuel Hj Hc Hr Hfuel.
  - destruct fuel as [|fuel]; [simpl in Hfuel; lia|].
    destruct (read_header_eof stream Hc Hr) as (s' & Hread & Hc' & Hw').
    exists s'. split; [|done].
    cbn [ApplicationServer.handle].
    erewrite conn_bind_raise; [done|].
    unfold ApplicationServer.on_stream. simpl. by rewrite Hread.
  - apply Forall_cons in Hj as [Hb Hj].
    destruct fuel as [|fuel]; [simpl in Hfuel; lia|].
    destruct (read_header_ok stream b junk Hc Hr) as (s0 & Hread & Hc0 & Hr0 & Hw0).
    destruct (IH self s0 fuel Hj Hc0 Hr0) as (s' & Hrun & Hw' & Hc');
      [simpl in Hfuel; lia|].
    exists s'. split; [|split; [congruence|done]].
    cbn [ApplicationServer.handle].
    erewrite conn_bind_ok;
      [|unfold ApplicationServer.on_stream; simpl; by rewrite Hread].
    assert (from_bytes [b] = b) as -> by (unfold from_bytes; simpl; lia).
    unfold ApplicationServer.catch_message, SourceMessage.in_HEADERS,
      SourceMessage.DEFAULT_HEADER.
    apply Z.eqb_neq in Hb. rewrite Hb.
    exact Hrun.
Qed.

(** X19: bytes that are not the header of a status message are dropped
    one by one without any answer.  A source connection that delivers
    only such bytes and is then closed leaves the registries of sources
    and listeners as they were, has nothing written to it, not even an
    ERROR acknowledgement, and [handle_stream] ends normally. *)
Theorem handle_stream_ignores_unknown_headers text junk self stream fuel :
  Forall (λ b, b ≠ 1) junk →
  closed stream = false → remaining stream = junk →
  (length junk < fuel)%nat →
  ∃ stream',
    ApplicationServer.handle_stream text fuel (self, stream)
    = Some (Ok tt, (self, stream'))
    ∧ written stream' = written stream ∧ closed stream' = true.
Proof.
  intros Hj Hc Hr Hfuel.
  destruct (handle_junk text junk self stream fuel Hj Hc Hr Hfuel)
    as (s' & Hrun & Hw & Hc').
  exists s'. unfold ApplicationServer.handle_stream. by rewrite Hrun.
Qed.

Lemma handle_stream_ignores_unknown_headers_witness :
  ∃ stream',
    ApplicationServer.handle_stream (λ _, [0x61; 0x0A]) 4
      (ApplicationServer.mk [("abc"%string, source_abc)]
         [(listener_1, open_listener)],
       mkStream [0x11] [[0x00; 0x02]] false [])
    = Some (Ok tt,
            (ApplicationServer.mk [("abc"%string, source_abc)]
               [(listener_1, open_listener)],
             stream'))
    ∧ written stream' = [] ∧ closed stream' = true.
Proof.
  apply (handle_stream_ignores_unknown_headers (λ _, [0x61; 0x0A]) [0x11; 0x00; 0x02]
           (ApplicationServer.mk [("abc"%string, source_abc)]
              [(listener_1, open_listener)])
           (mkStream [0x11] [[0x00; 0x02]] false []) 4).
  - repeat (apply Forall_cons; split; [lia|]). apply Forall_nil_2.
  - reflexivity.
  - reflexivity.
  - simpl. lia.
Defined.

(** ** Listener connections *)

Lemma dict_update_set {V} k (v v' : V) d :
  dict_update k v' (ApplicationServer.dict_set k v d) = ApplicationServer.dict_set k v' d.
Proof.
  induction d as [|[k0 v0] d IH]; simpl.
  - by rewrite decide_True.
  - destruct (decide (k = k0)) as [->|Hne]; simpl.
    + by rewrite decide_True.
    + by rewrite decide_False, IH.
Qed.

Lemma filter_other_keys {V} (k : address) (d : list (address * V)) :
  k ∉ d.*1 → filter (λ kv, kv.1 ≠ k) d = d.
Proof.
  induction d as [|[k0 v0] d IH]; [done|].
  rewrite fmap_cons, not_elem_of_cons. intros [Hne Hk].
  rewrite filter_cons_True by (simpl in *; congruence). by rewrite IH.
Qed.

Lemma dict_pop_set {V} k (v : V) (d : list (address * V)) :
  NoDup d.*1 →
  dict_pop k (ApplicationServer.dict_set k v d) = Ok (filter (λ kv, kv.1 ≠ k) d).
Proof.
  induction d as [|[k0 v0] d IH]; intros Hnd.
  - simpl. by rewrite decide_True.
  - rewrite fmap_cons in Hnd. apply NoDup_cons in Hnd as [Hk0 Hnd]. simpl.
    destruct (decide (k = k0)) as [->|Hne]; simpl.
    + rewrite decide_True by done.
      rewrite filter_cons_False by (simpl; tauto).
      by rewrite filter_other_keys.
    + rewrite decide_False by done. rewrite IH by done.
      by rewrite filter_cons_True by (simpl; congruence).
Qed.

Lemma str_encode_app s t :
  str_encode (String.append s t) = str_encode s ++ str_encode t.
Proof.
  unfold str_encode. induction s as [|c s IH]; [done|].
  simpl. by rewrite IH.
Qed.

Lemma status_str_defined self :
  status_defined self → ∃ name, Source.status_str self = Ok name.
Proof.
  intros (v & Hs & Hv). unfold Source.status_str, Source.STATUS_name. rewrite Hs.
  unfold Source.STATUS_IDLE, Source.STATUS_ACTIVE, Source.STATUS_RECHARGE.
  destruct (v =? 1) eqn:E1; [by eexists|].
  destruct (v =? 2) eqn:E2; [by eexists|].
  destruct (v =? 3) eqn:E3; [by eexists|].
  apply Z.eqb_neq in E1, E2, E3. lia.
Qed.

Lemma source_lines_ok milliseconds sources :
  Forall status_defined sources →
  Forall (λ source, BaseSource.messages source ≠ []) sources →
  ∃ lines, ApplicationServer.source_lines milliseconds sources = Ok lines
    ∧ length lines = length sources.
Proof.
  induction sources as [|source sources IH]; intros Hdef Hmsg.
  - by exists [].
  - apply Forall_cons in Hdef as [Hd Hdef]. apply Forall_cons in Hmsg as [Hm Hmsg].
    destruct (IH Hdef Hmsg) as (lines & Hlines & Hlen).
    destruct (status_str_defined source Hd) as (name & Hname).
    cbn [ApplicationServer.source_lines]. unfold Source.str, BaseSource.last_message.
    destruct (last (BaseSource.messages source)) as [message|] eqn:Hlast.
    + rewrite Hname. change (Ok ?x ≫= ?f) with (f x). cbv beta.
      change (Ok ?x ≫= ?f) with (f x). cbv beta.
      rewrite Hlines. eexists. split; [done|]. simpl. by rewrite Hlen.
    + by apply last_None in Hlast.
Qed.

Lemma source_lines_no_message milliseconds sources :
  Forall status_defined sources →
  Exists (λ source, BaseSource.messages source = []) sources →
  ApplicationServer.source_lines milliseconds sources = Raise AttributeError.
Proof.
  induction sources as [|source sources IH]; intros Hdef Hex.
  - by apply Exists_nil in Hex.
  - apply Forall_cons in Hdef as [Hd Hdef].
    cbn [ApplicationServer.source_lines]. unfold Source.str, BaseSource.last_message.
    destruct (BaseSource.messages source) as [|m0 ms] eqn:Hms; [done|].
    apply Exists_cons in Hex as [Hex|Hex]; [by rewrite Hms in Hex|].
    destruct (status_str_defined source Hd) as (name & Hname).
    destruct (last (m0 :: ms)) as [message|] eqn:Hlast;
      [|by apply last_None in Hlast].
    rewrite Hname. change (Ok ?x ≫= ?f) with (f x). cbv beta.
    change (Ok ?x ≫= ?f) with (f x). cbv beta.
    by rewrite (IH Hdef Hex).
Qed.

(** X20: what [handle_listener] does with a listener connection.  The
    listener is stored under the address of the connection first,
    replacing whatever was stored there.  When every registered source
    has received a message, an open connection is then written exactly
    one text, which ends in a line feed and is [No sources yet] when no
    source is registered, and the listener stays registered; on a
    connection that is already closed the call returns normally as well
    and the registry then holds no listener under that address, neither
    the new one nor one registered there before.  When some registered
    source has no message, [str(source)] raises [AttributeError], which
    leaves [handle_listener]: nothing is written and the listener stays
    registered, whether its connection is open or not.  The registry of
    sources is never touched.  (Every registered source is taken to have
    one of the three statuses, as every [Source] has.) *)
Theorem handle_listener_outcome milliseconds address_ self stream :
  NoDup (ApplicationServer.listeners self).*1 →
  Forall status_defined (ApplicationServer.sources self).*2 →
  (Forall (λ source, BaseSource.messages source ≠ [])
     (ApplicationServer.sources self).*2 →
   ∃ greeting,
     last greeting = Some 0x0A
     ∧ (ApplicationServer.sources self = [] →
        greeting = str_encode "No sources yet" ++ [0x0A])
     ∧ (closed stream = false →
        ApplicationServer.handle_listener milliseconds address_ (self, stream)
        = (Ok tt,
           ApplicationServer.mk (ApplicationServer.sources self)
             (ApplicationServer.dict_set address_
                (BaseListener.mk (wrote greeting stream))
                (ApplicationServer.listeners self))))
     ∧ (closed stream = true →
        ApplicationServer.handle_listener milliseconds address_ (self, stream)
        = (Ok tt,
           ApplicationServer.mk (ApplicationServer.sources self)
             (filter (λ kv, kv.1 ≠ address_) (ApplicationServer.listeners self)))))
  ∧ (Exists (λ source, BaseSource.messages source = [])
       (ApplicationServer.sources self).*2 →
     ApplicationServer.handle_listener milliseconds address_ (self, stream)
     = (Raise AttributeError,
        ApplicationServer.mk (ApplicationServer.sources self)
          (ApplicationServer.dict_set address_ (BaseListener.mk stream)
             (ApplicationServer.listeners self)))).
Proof.
  intros Hnd Hdef. split.
  - intros Hmsg.
    destruct (source_lines_ok milliseconds _ Hdef Hmsg) as (lines & Hlines & Hlen).
    unfold ApplicationServer.handle_listener. cbv zeta.
    simpl fst. simpl snd. rewrite Hlines.
    set (text := if decide (_ = EmptyString) then _ else _).
    exists (str_encode (String.append text (String "010" EmptyString))).
    rewrite str_encode_app.
    change (str_encode (String "010" EmptyString)) with [0x0A].
    split; [by rewrite last_snoc|]. split; [|split].
    + intros Hs. rewrite Hs in Hlen. destruct lines; [|done]. done.
    + intros Hc.
      rewrite send_open by done. unfold sent. simpl.
      by rewrite dict_update_set.
    + intros Hc.
      rewrite send_closed by (unfold listener_open; simpl; congruence).
      by rewrite dict_update_set, dict_pop_set.
  - intros Hex. unfold ApplicationServer.handle_listener. cbv zeta.
    simpl fst. simpl snd.
    by rewrite (source_lines_no_message milliseconds _ Hdef Hex).
Qed.

Lemma handle_listener_outcome_witness :
  (Forall (λ source, BaseSource.messages source ≠ [])
     (ApplicationServer.sources
        (ApplicationServer.mk
           [("abc"%string, BaseSource.mk "abc" [msg_abc_plain] (Some 1))]
           three_listeners)).*2 →
   ∃ greeting,
     last greeting = Some 0x0A
     ∧ (ApplicationServer.sources
          (ApplicationServer.mk
             [("abc"%string, BaseSource.mk "abc" [msg_abc_plain] (Some 1))]
             three_listeners) = [] →
        greeting = str_encode "No sources yet" ++ [0x0A])
     ∧ (closed (mkStream [] [] true []) = false →
        ApplicationServer.handle_listener (λ _, "5"%string) listener_2
          (ApplicationServer.mk
             [("abc"%string, BaseSource.mk "abc" [msg_abc_plain] (Some 1))]
             three_listeners,
           mkStream [] [] true [])
        = (Ok tt,
           ApplicationServer.mk
             (ApplicationServer.sources
                (ApplicationServer.mk
                   [("abc"%string, BaseSource.mk "abc" [msg_abc_plain] (Some 1))]
                   three_listeners))
             (ApplicationServer.dict_set listener_2
                (BaseListener.mk (wrote greeting (mkStream [] [] true [])))
                (ApplicationServer.listeners
                   (ApplicationServer.mk
                      [("abc"%string, BaseSource.mk "abc" [msg_abc_plain] (Some 1))]
                      three_listeners)))))
     ∧ (closed (mkStream [] [] true []) = true →
        ApplicationServer.handle_listener (λ _, "5"%string) listener_2
          (ApplicationServer.mk
             [("abc"%string, BaseSource.mk "abc" [msg_abc_plain] (Some 1))]
             three_listeners,
           mkStream [] [] true [])
        = (Ok tt,
           ApplicationServer.mk
             (ApplicationServer.sources
                (ApplicationServer.mk
                   [("abc"%string, BaseSource.mk "abc" [msg_abc_plain] (Some 1))]
                   three_listeners))
             (filter (λ kv, kv.1 ≠ listener_2)
                (ApplicationServer.listeners
                   (ApplicationServer.mk
                      [("abc"%string, BaseSource.mk "abc" [msg_abc_plain] (Some 1))]
                      three_listeners))))))
  ∧ (Exists (λ source, BaseSource.messages source = [])
       (ApplicationServer.sources
          (ApplicationServer.mk
             [("abc"%string, BaseSource.mk "abc" [msg_abc_plain] (Some 1))]
             three_listeners)).*2 →
     ApplicationServer.handle_listener (λ _, "5"%string) listener_2
       (ApplicationServer.mk
          [("abc"%string, BaseSource.mk "abc" [msg_abc_plain] (Some 1))]
          three_listeners,
        mkStream [] [] true [])
     = (Raise AttributeError,
        ApplicationServer.mk
          (ApplicationServer.sources
             (ApplicationServer.mk
                [("abc"%string, BaseSource.mk "abc" [msg_abc_plain] (Some 1))]
                three_listeners))
          (ApplicationServer.dict_set listener_2
             (BaseListener.mk (mkStream [] [] true []))
             (ApplicationServer.listeners
                (ApplicationServer.mk
                   [("abc"%string, BaseSource.mk "abc" [msg_abc_plain] (Some 1))]
                   three_listeners))))).
Proof.
  apply (handle_listener_outcome (λ _, "5"%string) listener_2
           (ApplicationServer.mk
              [("abc"%string, BaseSource.mk "abc" [msg_abc_plain] (Some 1))]
              three_listeners)
           (mkStream [] [] true [])).
  - apply (bool_decide_unpack _). vm_compute. exact I.
  - apply Forall_cons. split; [|apply Forall_nil_2].
    exists 1. split; [reflexivity|lia].
Defined.

(** The greeting for one source whose last message has number 1, and the
    failure on a source that has not received a message. *)
Lemma handle_listener_examples :
  ApplicationServer.handle_listener (λ _, "5"%string) listener_1
    (ApplicationServer.mk
       [("abc"%string, BaseSource.mk "abc" [msg_abc_plain] (Some 1))] [],
     mkStream [] [] false [])
  = (Ok tt,
     ApplicationServer.mk
       [("abc"%string, BaseSource.mk "abc" [msg_abc_plain] (Some 1))]
       [(listener_1,
         BaseListener.mk
           (mkStream [] [] false [str_encode "[abc] 1 | IDLE | 5" ++ [0x0A]]))])
  ∧ ApplicationServer.handle_listener (λ _, "5"%string) listener_1
      (ApplicationServer.mk [("abc"%string, source_abc)] [],
       mkStream [] [] false [])
    = (Raise AttributeError,
       ApplicationServer.mk [("abc"%string, source_abc)]
         [(listener_1, BaseListener.mk (mkStream [] [] false []))]).
Proof. split; vm_compute; reflexivity. Qed.

(** ** The source client *)

(** X21: a message the client cannot encode still uses up a sequence
    number.  When a field value does not fit four bytes, [send_message]
    raises [ClientException] and writes nothing to the connection, but
    the message has already been appended to the list of the source; the
    next message the source generates therefore carries the sequence
    number after the one of the message that was never sent. *)
Theorem send_message_failure_consumes_number self d k v :
  status_defined (ApplicationSourceClient.source self) →
  d !! k = Some v → ¬ (0 ≤ v < 2 ^ 32) →
  ∃ self',
    ApplicationSourceClient.send_message self (Some d) = (inr ApplicationSourceClient.ClientException, self')
    ∧ ApplicationSourceClient.stream self' = ApplicationSourceClient.stream self
    ∧ length (BaseSource.messages (ApplicationSourceClient.source self'))
      = S (length (BaseSource.messages (ApplicationSourceClient.source self)))
    ∧ ∀ data, ∃ message source',
        Source.new_message (ApplicationSourceClient.source self') data
        = Ok (message, source')
        ∧ SourceMessage.num message
          = Z.of_nat (length (BaseSource.messages (ApplicationSourceClient.source self))) + 1.
Proof.
  intros Hdef Hk Hv.
  destruct (new_message_defined (ApplicationSourceClient.source self) (Some d) Hdef)
    as (st & Hst & Hnew).
  destruct Hdef as (st' & Hst' & Hrange).
  assert (st' = st) as -> by congruence.
  unfold ApplicationSourceClient.send_message. rewrite Hnew.
  match goal with
  | |- context [SourceMessage.encode ?m] =>
    assert (SourceMessage.encode m = Raise EncodeMessageError) as ->
  end.
  { apply encode_three_cases. right. right. by exists k, v. }
  rewrite decide_True by done.
  eexists. split; [done|]. simpl. split; [done|]. split.
  - rewrite length_app. simpl. lia.
  - intros data.
    match goal with
    | |- context [Source.new_message ?s data] =>
      destruct (new_message_defined s data) as (st2 & Hst2 & Hnew2)
    end.
    { exists st. done. }
    eexists _, _. split; [exact Hnew2|]. simpl.
    rewrite length_app. simpl. lia.
Qed.

Lemma send_message_failure_consumes_number_witness :
  ∃ self',
    ApplicationSourceClient.send_message
      (ApplicationSourceClient.mk source_abc (mkStream [] [] false []))
      (Some (<["a"%string := 2 ^ 32]> ∅))
    = (inr ApplicationSourceClient.ClientException, self')
    ∧ ApplicationSourceClient.stream self'
      = ApplicationSourceClient.stream
          (ApplicationSourceClient.mk source_abc (mkStream [] [] false []))
    ∧ length (BaseSource.messages (ApplicationSourceClient.source self'))
      = S (length (BaseSource.messages
                     (ApplicationSourceClient.source
                        (ApplicationSourceClient.mk source_abc
                           (mkStream [] [] false [])))))
    ∧ ∀ data, ∃ message source',
        Source.new_message (ApplicationSourceClient.source self') data
        = Ok (message, source')
        ∧ SourceMessage.num message
          = Z.of_nat (length (BaseSource.messages
                                (ApplicationSourceClient.source
                                   (ApplicationSourceClient.mk source_abc
                                      (mkStream [] [] false []))))) + 1.
Proof.
  apply (send_message_failure_consumes_number
           (ApplicationSourceClient.mk source_abc (mkStream [] [] false []))
           (<["a"%string := 2 ^ 32]> ∅) "a"%string (2 ^ 32)).
  - exists 1. split; [reflexivity|lia].
  - apply lookup_insert_eq.
  - lia.
Defined.

(** [listen] on an acknowledgement, on an ERROR header with a sequence
    number, and on any other first byte. *)
Lemma listen_cases :
  (∀ a c extra s,
     valid_ack_message a → 0 ≤ c < 256 →
     closed s = false →
     remaining s
     = (ServerMessage.header a :: be_digits 2 (ServerMessage.num a)) ++ [c] ++ extra →
     ∃ s', ApplicationSourceClient.listen s
           = (if xor_all (ServerMessage.header a :: be_digits 2 (ServerMessage.num a)) =? c
              then Ok (Some a) else Raise IndexError, s')
       ∧ closed s' = false ∧ remaining s' = extra)
  ∧ (∀ n1 n0 c extra s,
       is_bytes [n1; n0; c] → n1 ≠ 0 ∨ n0 ≠ 0 →
       closed s = false →
       remaining s = [ServerMessage.HEADER_ERROR; n1; n0; c] ++ extra →
       ∃ s', ApplicationSourceClient.listen s = (Ok None, s')
         ∧ closed s' = false ∧ remaining s' = extra)
  ∧ (∀ b rest s,
       ServerMessage.in_HEADERS b = false →
       closed s = false → remaining s = b :: rest →
       ∃ s', ApplicationSourceClient.listen s = (Ok None, s')
         ∧ closed s' = false ∧ remaining s' = rest).
Proof.
  split; [|split].
  - intros a c extra s Ha Hcb Hc Hr.
    destruct (ServerMessage_decode_valid a c Ha) as (raw & Hraw & _ & Hdec).
    rewrite ServerMessage_get_raw_ok in Hraw by done.
    assert (raw = ServerMessage.header a :: be_digits 2 (ServerMessage.num a))
      as -> by congruence.
    assert (is_bytes (ServerMessage.header a :: be_digits 2 (ServerMessage.num a)))
      as Hb.
    { apply Forall_cons. split; [|apply is_bytes_be_digits].
      destruct Ha as (Hh & _).
      unfold ServerMessage.in_HEADERS, ServerMessage.HEADER_SUCCESS,
        ServerMessage.HEADER_ERROR in Hh.
      apply orb_true_iff in Hh as [?%Z.eqb_eq|?%Z.eqb_eq]; lia. }
    rewrite be_digits_2 in *.
    cbn [app] in Hr, Hdec.
    destruct (read_header_ok s _ _ Hc Hr) as (s0 & Hread & Hc0 & Hr0 & _).
    destruct (ServerMessage_decode_stream_spec (ServerMessage.header a)
                [ServerMessage.num a / 256 mod 256; ServerMessage.num a mod 256; c]
                extra s0) as (s1 & Hstream & Hc1 & Hr1); [|done|done|].
    { split; [|done]. unfold is_bytes in *.
      repeat (apply Forall_cons; split; [by (inversion Hb as [|? ? ? Hb']; try lia;
                inversion Hb' as [|? ? ? Hb'']; try lia; inversion Hb''; lia)|]).
      apply Forall_nil_2. }
    exists s1. split; [|done].
    unfold ApplicationSourceClient.listen. rewrite Hread.
    assert (from_bytes [ServerMessage.header a] = ServerMessage.header a) as ->
      by (unfold from_bytes; simpl; lia).
    destruct Ha as (-> & _). rewrite Hstream, Hdec.
    by destruct (_ =? c).
  - intros n1 n0 c extra s Hb Hne Hc Hr.
    cbn [app] in Hr.
    destruct (read_header_ok s _ _ Hc Hr) as (s0 & Hread & Hc0 & Hr0 & _).
    destruct (ServerMessage_decode_stream_spec ServerMessage.HEADER_ERROR
                [n1; n0; c] extra s0) as (s1 & Hstream & Hc1 & Hr1); [|done|done|].
    { split; [|done]. apply Forall_cons. split; [|done].
      unfold ServerMessage.HEADER_ERROR. lia. }
    exists s1. split; [|done].
    unfold ApplicationSourceClient.listen. rewrite Hread.
    change (from_bytes [ServerMessage.HEADER_ERROR]) with ServerMessage.HEADER_ERROR.
    change (ServerMessage.in_HEADERS ServerMessage.HEADER_ERROR) with true. cbv iota.
    rewrite Hstream, ServerMessage_error_with_sequence; [done| | |done].
    + inversion Hb; lia.
    + inversion Hb as [|? ? ? Hb']; inversion Hb'; lia.
  - intros b rest s Hh Hc Hr.
    destruct (read_header_ok s _ _ Hc Hr) as (s0 & Hread & Hc0 & Hr0 & _).
    exists s0. split; [|done].
    unfold ApplicationSourceClient.listen. rewrite Hread.
    assert (from_bytes [b] = b) as -> by (unfold from_bytes; simpl; lia).
    by rewrite Hh.
Qed.

(** X22: what the client's [listen] makes of the bytes on its connection.
    The four bytes of a well-formed acknowledgement, arriving in any
    pieces, are returned as that acknowledgement and nothing more is
    read; if their last byte is not the XOR of the first three, [listen]
    does not return [None] but leaves with [IndexError].  An ERROR header
    followed by a sequence number other than 0 is read to its end and
    gives [None].  A first byte that is not an acknowledgement header
    gives [None] after that single byte has been read. *)
Theorem listen_outcome :
  (∀ a c extra s,
     valid_ack_message a → 0 ≤ c < 256 →
     closed s = false →
     remaining s
     = (ServerMessage.header a :: be_digits 2 (ServerMessage.num a)) ++ [c] ++ extra →
     ∃ s', ApplicationSourceClient.listen s
           = (if xor_all (ServerMessage.header a :: be_digits 2 (ServerMessage.num a)) =? c
              then Ok (Some a) else Raise IndexError, s')
       ∧ closed s' = false ∧ remaining s' = extra)
  ∧ (∀ n1 n0 c extra s,
       is_bytes [n1; n0; c] → n1 ≠ 0 ∨ n0 ≠ 0 →
       closed s = false →
       remaining s = [ServerMessage.HEADER_ERROR; n1; n0; c] ++ extra →
       ∃ s', ApplicationSourceClient.listen s = (Ok None, s')
         ∧ closed s' = false ∧ remaining s' = extra)
  ∧ (∀ b rest s,
       ServerMessage.in_HEADERS b = false →
       closed s = false → remaining s = b :: rest →
       ∃ s', ApplicationSourceClient.listen s = (Ok None, s')
         ∧ closed s' = false ∧ remaining s' = rest).
Proof. apply listen_cases. Qed.

Lemma listen_outcome_witness :
  (∃ s', ApplicationSourceClient.listen
           (mkStream [0x11] [[0x00]; [0x01; 0x10; 0x11]] false [])
         = (if xor_all (ServerMessage.header ack_success_1
                        :: be_digits 2 (ServerMessage.num ack_success_1)) =? 0x10
            then Ok (Some ack_success_1) else Raise IndexError, s')
     ∧ closed s' = false ∧ remaining s' = [0x11])
  ∧ (∃ s', ApplicationSourceClient.listen
             (mkStream [] [[0x12; 0x00]; [0x01; 0x13]] false [])
           = (Ok None, s')
       ∧ closed s' = false ∧ remaining s' = [])
  ∧ (∃ s', ApplicationSourceClient.listen (mkStream [0x01; 0x00] [] false [])
           = (Ok None, s')
       ∧ closed s' = false ∧ remaining s' = [0x00]).
Proof.
  split; [|split].
  - apply (proj1 listen_outcome ack_success_1 0x10 [0x11]
             (mkStream [0x11] [[0x00]; [0x01; 0x10; 0x11]] false [])).
    + split; [reflexivity|]. split; [simpl; lia|]. intros H. discriminate H.
    + lia.
    + reflexivity.
    + reflexivity.
  - apply (proj1 (proj2 listen_outcome) 0x00 0x01 0x13 []
             (mkStream [] [[0x12; 0x00]; [0x01; 0x13]] false [])).
    + unfold is_bytes. repeat (apply Forall_cons; split; [lia|]). apply Forall_nil_2.
    + right. lia.
    + reflexivity.
    + reflexivity.
  - apply (proj2 (proj2 listen_outcome) 0x01 [0x00]
             (mkStream [0x01; 0x00] [] false [])).
    + reflexivity.
    + reflexivity.
    + reflexivity.
Defined.

(** ** A listener that has gone away *)

(** X23: one listener whose connection is closed ends the connection of
    the source that sends the next valid message.  The message is
    processed up to the broadcast: its source is registered or updated
    and the SUCCESS acknowledgement is written.  The broadcast then stops
    at the closed listener, which is removed; the listeners after it do
    not get the message; [RuntimeError] leaves [handle_stream], and
    whatever the source sent after that frame is never read. *)
Theorem closed_listener_ends_source_connection text m header rest extra self stream
    pre k l post fuel :
  valid_status_message m →
  SourceMessage.encode m = Ok (header :: rest) →
  closed stream = false → remaining stream = header :: rest ++ extra →
  ApplicationServer.listeners self = pre ++ (k, l) :: post →
  NoDup (pre ++ (k, l) :: post).*1 →
  Forall (λ kv, listener_open kv.2) pre →
  ¬ listener_open l →
  ∃ stream1,
    remaining stream1 = extra ∧ written stream1 = written stream
    ∧ ApplicationServer.handle_stream text (S fuel) (self, stream)
      = Some (Raise RuntimeError,
              (ApplicationServer.mk
                 (ApplicationServer.sources_set (SourceMessage.source_id m)
                    (source_after_message (ApplicationServer.sources self) (normalise m))
                    (ApplicationServer.sources self))
                 (sent_all (text (normalise m)) pre ++ post),
               wrote (success_ack (SourceMessage.num m)) stream1)).
Proof.
  intros Hm Henc Hc Hr Hls Hnd Hopen Hclosed.
  destruct (encode_frame_props m _ Henc) as (_ & Hframe & _).
  unfold layout in Hframe. cbn [app] in Hframe.
  assert (header = 1) as ->.
  { destruct Hm as (Hh & _). unfold SourceMessage.DEFAULT_HEADER in Hh. congruence. }
  clear Hframe.
  destruct (read_header_ok stream 1 _ Hc Hr) as (s0 & Hread & Hc0 & Hr0 & Hw0).
  destruct (handler_SourceMessage_broadcast text m 1 rest extra self s0
              (Raise RuntimeError) (sent_all (text (normalise m)) pre ++ post)
              Hm Henc Hc0 Hr0) as (s1 & Hc1 & Hr1 & Hw1 & Hh).
  { rewrite Hls. by apply broadcast_message_first_closed. }
  { intros e [= <-]. rewrite !elem_of_cons, elem_of_nil.
    intros [H | [H | []]]; discriminate H. }
  exists s1. split; [done|]. split; [congruence|].
  unfold ApplicationServer.handle_stream. cbn [ApplicationServer.handle].
  erewrite conn_bind_ok;
    [|unfold ApplicationServer.on_stream; simpl; by rewrite Hread].
  change (ApplicationServer.catch_message text (from_bytes [1]))
    with (ApplicationServer.handler_SourceMessage text 1).
  by rewrite Hh.
Qed.

Lemma closed_listener_ends_source_connection_witness :
  ∃ stream1,
    remaining stream1 = frame_plain ∧ written stream1 = []
    ∧ ApplicationServer.handle_stream (λ _, [0x61; 0x0A]) 5
        (ApplicationServer.mk [] three_listeners,
         mkStream [] [frame_plain; frame_plain] false [])
      = Some (Raise RuntimeError,
              (ApplicationServer.mk
                 (ApplicationServer.sources_set (SourceMessage.source_id msg_abc_plain)
                    (source_after_message [] (normalise msg_abc_plain)) [])
                 (sent_all [0x61; 0x0A] [(listener_1, open_listener)]
                  ++ [(listener_3, open_listener)]),
               wrote (success_ack (SourceMessage.num msg_abc_plain)) stream1)).
Proof.
  apply (closed_listener_ends_source_connection (λ _, [0x61; 0x0A]) msg_abc_plain
           0x01 (tail frame_plain) frame_plain
           (ApplicationServer.mk [] three_listeners)
           (mkStream [] [frame_plain; frame_plain] false [])
           [(listener_1, open_listener)] listener_2 closed_listener
           [(listener_3, open_listener)] 4).
  - split; [reflexivity|]. split; [simpl; lia|]. split; [reflexivity|].
    split; [solve_text_ok|]. split; [apply map_Forall_empty|vm_compute; lia].
  - vm_compute. reflexivity.
  - reflexivity.
  - reflexivity.
  - reflexivity.
  - apply (bool_decide_unpack _). vm_compute. exact I.
  - repeat constructor.
  - intros H. discriminate H.
Defined.

(** ** Identifiers longer than their slot *)

(** X24: the identifier is cut to eight bytes without regard to
    characters.  When the cut leaves bytes that are not well-formed text
    (it falls inside a multi-byte character), the message still encodes,
    but its frame cannot be decoded: [decode] leaves with
    [UnicodeDecodeError], which the server does not catch, so the frame
    is not acknowledged at all, not even with ERROR, the registries stay
    as they were, and the connection of the source ends there with what
    follows the frame unread. *)
Theorem identifier_cut_inside_character text m header rest extra self stream fuel :
  SourceMessage.header m = SourceMessage.DEFAULT_HEADER →
  SourceMessage.encode m = Ok (header :: rest) →
  utf8_valid (trim_bytes (str_encode (SourceMessage.source_id m)) 8) = false →
  closed stream = false → remaining stream = header :: rest ++ extra →
  SourceMessage.decode (header :: rest) = Raise UnicodeDecodeError
  ∧ ∃ stream1,
      remaining stream1 = extra ∧ written stream1 = written stream
      ∧ ApplicationServer.handle_stream text (S fuel) (self, stream)
        = Some (Raise UnicodeDecodeError, (self, stream1)).
Proof.
  intros Hh Henc Hcut Hc Hr.
  pose proof (encode_frame_shape _ _ Henc) as Hshape.
  destruct (encode_frame_props m _ Henc) as (_ & Hframe & _).
  assert (SourceMessage.decode (header :: rest) = Raise UnicodeDecodeError) as Hdec.
  { rewrite Hframe. unfold layout. rewrite be_digits_2.
    rewrite <- !app_assoc.
    change ([SourceMessage.header m] ++ [?a; ?b] ++ ?l)
      with ([SourceMessage.header m; a; b] ++ l).
    change ([SourceMessage.status m] ++ (?nf :: ?fs) ++ ?c)
      with ([SourceMessage.status m; nf] ++ fs ++ c).
    rewrite SourceMessage_decode_frame by apply length_trim_bytes.
    unfold str_decode. by rewrite Hcut. }
  split; [done|].
  unfold layout in Hframe. cbn [app] in Hframe.
  assert (header = 1) as ->.
  { unfold SourceMessage.DEFAULT_HEADER in Hh. congruence. }
  clear Hframe.
  destruct (read_header_ok stream 1 _ Hc Hr) as (s0 & Hread & Hc0 & Hr0 & Hw0).
  destruct (handler_SourceMessage_refused text UnicodeDecodeError 1 rest extra self s0
              Hshape Hdec Hc0 Hr0) as (s1 & Hc1 & Hr1 & Hw1 & Hhandler).
  exists s1. split; [done|]. split; [congruence|].
  unfold ApplicationServer.handle_stream. cbn [ApplicationServer.handle].
  erewrite conn_bind_ok;
    [|unfold ApplicationServer.on_stream; simpl; by rewrite Hread].
  change (ApplicationServer.catch_message text (from_bytes [1]))
    with (ApplicationServer.handler_SourceMessage text 1).
  rewrite Hhandler.
  rewrite bool_decide_eq_false_2; [done|].
  rewrite !elem_of_cons, elem_of_nil. intros [H | [H | []]]; discriminate H.
Qed.

Lemma identifier_cut_inside_character_witness :
  SourceMessage.decode
    (0x01 :: [0x00; 0x00; 0x61; 0xC3; 0xA9; 0xC3; 0xA9; 0xC3; 0xA9; 0xC3; 0x01; 0x00; 0xC8])
  = Raise UnicodeDecodeError
  ∧ ∃ stream1,
      remaining stream1 = [0x01] ∧ written stream1 = []
      ∧ ApplicationServer.handle_stream (λ _, [0x61; 0x0A]) 2
          (ApplicationServer.mk [] [(listener_1, open_listener)],
           mkStream []
             [[0x01; 0x00; 0x00; 0x61; 0xC3; 0xA9; 0xC3; 0xA9; 0xC3; 0xA9; 0xC3; 0x01;
               0x00; 0xC8; 0x01]] false [])
        = Some (Raise UnicodeDecodeError,
                (ApplicationServer.mk [] [(listener_1, open_listener)], stream1)).
Proof.
  apply (identifier_cut_inside_character (λ _, [0x61; 0x0A]) msg_nine_bytes 0x01
           [0x00; 0x00; 0x61; 0xC3; 0xA9; 0xC3; 0xA9; 0xC3; 0xA9; 0xC3; 0x01; 0x00; 0xC8]
           [0x01]
           (ApplicationServer.mk [] [(listener_1, open_listener)])
           (mkStream []
              [[0x01; 0x00; 0x00; 0x61; 0xC3; 0xA9; 0xC3; 0xA9; 0xC3; 0xA9; 0xC3; 0x01;
                0x00; 0xC8; 0x01]] false [])
           1).
  - reflexivity.
  - vm_compute. reflexivity.
  - vm_compute. reflexivity.
  - reflexivity.
  - reflexivity.
Defined.

(** ** The checksum *)

Lemma lxor_inj_l a x y : Z.lxor a x = Z.lxor a y → x = y.
Proof.
  intros H. apply Z.lxor_eq.
  replace (Z.lxor x y) with (Z.lxor (Z.lxor a x) (Z.lxor a y)).
  - rewrite H. apply Z.lxor_nilpotent.
  - rewrite (Z.lxor_comm a x), Z.lxor_assoc, <- (Z.lxor_assoc a a y).
    by rewrite Z.lxor_nilpotent, Z.lxor_0_l.
Qed.

Lemma xor_all_Permutation l l' : l ≡ₚ l' → xor_all l = xor_all l'.
Proof.
  induction 1 as [|b l l' _ IH|a b l|l1 l2 l3 _ IH1 _ IH2].
  - done.
  - by rewrite !xor_all_cons, IH.
  - rewrite !xor_all_cons, <- !Z.lxor_assoc. by rewrite (Z.lxor_comm a b).
  - congruence.
Qed.

Lemma xor_checksum_xor_all l : l ≠ [] → xor_checksum l = Ok (xor_all l).
Proof. destruct l as [|b l]; [done|]. intros _. apply xor_checksum_cons. Qed.

(** X25: what the XOR checksum sees.  It raises [TypeError] on no bytes
    at all.  Replacing any one byte by a different one always changes
    it, so a frame with a single altered byte never carries a matching
    checksum.  The order of the bytes does not matter to it: any
    rearrangement of the same bytes has the same checksum. *)
Theorem xor_checksum_detects :
  xor_checksum [] = Raise TypeError
  ∧ (∀ l i b b',
       l !! i = Some b → b' ≠ b →
       xor_checksum (<[i := b']> l) ≠ xor_checksum l)
  ∧ (∀ l l', l ≡ₚ l' → xor_checksum l = xor_checksum l').
Proof.
  split; [done|]. split.
  - intros l i b b' Hi Hne.
    assert (xor_checksum l = xor_checksum (take i l ++ b :: drop (S i) l)) as ->
      by (by rewrite take_drop_middle).
    rewrite insert_take_drop by (by eapply lookup_lt_Some).
    rewrite !xor_checksum_xor_all by (by destruct (take i l)).
    rewrite !xor_all_app, !xor_all_cons. intros [= H].
    apply lxor_inj_l in H. rewrite !(Z.lxor_comm _ (xor_all (drop (S i) l))) in H.
    by apply lxor_inj_l in H.
  - intros l l' Hp. destruct l as [|b l].
    + by apply Permutation_nil_l in Hp as ->.
    + destruct l' as [|b' l']; [by apply Permutation_nil_r in Hp|].
      rewrite !xor_checksum_cons. f_equal. by apply xor_all_Permutation.
Qed.

Lemma xor_checksum_detects_witness :
  xor_checksum [] = Raise TypeError
  ∧ xor_checksum (<[1%nat := 0x02]> [0x11; 0x00; 0x01]) ≠ xor_checksum [0x11; 0x00; 0x01]
  ∧ xor_checksum [0x11; 0x00; 0x01] = xor_checksum [0x11; 0x01; 0x00].
Proof.
  split; [apply (proj1 xor_checksum_detects)|]. split.
  - apply (proj1 (proj2 xor_checksum_detects) [0x11; 0x00; 0x01] 1%nat 0x00 0x02).
    + reflexivity.
    + lia.
  - apply (proj2 (proj2 xor_checksum_detects) [0x11; 0x00; 0x01] [0x11; 0x01; 0x00]).
    apply perm_skip, perm_swap.
Defined.

(** ** A message from the client to the server and back *)







(** * Single-bit flips anywhere in a frame *)

(** ** The checksum of what [decode] builds *)










(** A name in the chunks that is not text ends the loop with
    [UnicodeDecodeError]. *)
Lemma decode_chunks_not_text chunks acc :
  ¬ Forall (λ chunk, utf8_valid (take 8 chunk) = true) chunks →
  SourceMessage.decode_chunks chunks acc = Raise UnicodeDecodeError.
Proof.
  revert acc. induction chunks as [|chunk chunks IH]; intros acc Hn.
  - destruct Hn. constructor.
  - cbn [SourceMessage.decode_chunks]. unfold str_decode.
    destruct (utf8_valid (take 8 chunk)) eqn:E; [|done].
    change (Ok ?x ≫= ?f) with (f x). cbv beta. apply IH.
    intros Hall. apply Hn. by constructor.
Qed.











(** ** The flipped frame *)


Lemma length_flip_bit i k l : length (flip_bit i k l) = length l.
Proof. unfold flip_bit. apply length_alter. Qed.

(** Any list of at least fourteen items, cut the way [decode] cuts a
    frame. *)
Lemma frame_parts f :
  (14 ≤ length f)%nat →
  ∃ h n1 n0 st nf c,
    f = [h; n1; n0] ++ id_slot f ++ [st; nf] ++ field_bytes f ++ [c]
    ∧ length (id_slot f) = 8%nat
    ∧ f !! 0%nat = Some h ∧ f !! 12%nat = Some nf.
Proof.
  intros Hlen.
  destruct f as [|h [|n1 [|n0 [|i0 [|i1 [|i2 [|i3 [|i4 [|i5 [|i6 [|i7 [|st [|nf tl]]]]]]]]]]]]];
    try (simpl in Hlen; lia).
  destruct tl as [|c tl _] using rev_ind; [simpl in Hlen; lia|].
  exists h, n1, n0, st, nf, c.
  assert (field_bytes (h :: n1 :: n0 :: i0 :: i1 :: i2 :: i3 :: i4 :: i5 :: i6 :: i7
                       :: st :: nf :: tl ++ [c]) = tl) as ->.
  { unfold field_bytes, py_slice. cbn [length drop]. rewrite length_app. simpl length.
    replace (S (S (S (S (S (S (S (S (S (S (S (S (S (length tl + 1))))))))))))) - 1 - 13)%nat
      with (length tl) by lia.
    apply take_app_length. }
  done.
Qed.

Lemma lookup_flip_bit_ne i j k l : i ≠ j → flip_bit i k l !! j = l !! j.
Proof. intros Hne. unfold flip_bit. by apply list_lookup_alter_ne. Qed.





(** ** The exceptions are needed, and on the frame of the test-suite
       they are exact *)

(** Every one of the 304 single-bit flips of the two-field frame of the
    test-suite: flipping bit 0 of the header gives a frame that decodes;
    flipping bit 7 of a byte of the identifier slot or of a name slot
    ends in [UnicodeDecodeError]; every other flip, among them every flip
    of a value byte, of the count byte, of the checksum byte and of bits
    0 to 6 of the text bytes, ends in [InvalidMessageException], and
    these are the flips that meet the conditions of the theorem. *)
Lemma frame_two_fields_all_flips :
  SourceMessage.encode msg_abc_fields = Ok frame_two_fields
  ∧ Forall (λ p,
      exn_of (SourceMessage.decode (flip_bit p.1 p.2 frame_two_fields))
      = (if bool_decide (p = (0%nat, 0)) then None
         else if in_text_slot (length frame_two_fields) p.1 && bool_decide (p.2 = 7)
              then Some UnicodeDecodeError
              else Some InvalidMessageException)
      ∧ (flip_covered frame_two_fields p.1 p.2
         ↔ exn_of (SourceMessage.decode (flip_bit p.1 p.2 frame_two_fields))
           = Some InvalidMessageException))
    (all_flips (length frame_two_fields)).
Proof.
  split; [vm_compute; reflexivity|].
  unfold flip_covered.
  apply (bool_decide_unpack _). vm_compute. exact I.
Qed.

(** A flip that makes two field names equal can go unnoticed: in the
    frame of a message with the fields [a] and [c], flipping bit 1 of the
    byte [a] gives a frame that decodes, to a message with the single
    field [c]. *)
Lemma flip_name_collision_accepted :
  SourceMessage.encode msg_near_names = Ok frame_near_names
  ∧ SourceMessage.decode (flip_bit 20 1 frame_near_names) = Ok msg_field_c.
Proof. split; vm_compute; reflexivity. Qed.

(** A slot that is not text: [decode] leaves with [UnicodeDecodeError],
    from the identifier slot at once, from a name slot once the field
    bytes have the announced length. *)
Lemma decode_not_text h n1 n0 id8 st nf rest c :
  length id8 = 8%nat →
  utf8_valid id8 = false
  ∨ (0 < nf ∧ length rest = (Z.to_nat nf * SourceMessage.chunk_size)%nat
     ∧ ¬ Forall (λ chunk, utf8_valid (take 8 chunk) = true)
           (SourceMessage.chunks_of rest (Z.to_nat nf))) →
  SourceMessage.decode ([h; n1; n0] ++ id8 ++ [st; nf] ++ rest ++ [c])
  = Raise UnicodeDecodeError.
Proof.
  intros Hlen Hbad. rewrite SourceMessage_decode_frame by done.
  unfold str_decode. destruct (utf8_valid id8) eqn:Eid.
  - destruct Hbad as [?|(Hpos & Hl & Hn)]; [done|].
    change (Ok ?x ≫= ?f) with (f x). cbv beta.
    apply Z.ltb_lt in Hpos. rewrite Hpos.
    unfold SourceMessage._decode_data.
    assert ((Z.of_nat (length rest) =? nf * Z.of_nat SourceMessage.chunk_size) = true)
      as -> by (apply Z.eqb_eq; apply Z.ltb_lt in Hpos; lia).
    simpl negb. cbv iota. by rewrite decode_chunks_not_text.
  - done.
Qed.

(** The second exception of the theorem is exact: a flip, elsewhere than
    in the count byte, after which the identifier slot or a name slot is
    not well-formed UTF-8 always ends in [UnicodeDecodeError]. *)
Lemma flipped_text_not_utf8 m frame i k :
  valid_status_message m →
  SourceMessage.encode m = Ok frame →
  0 ≤ k < 8 → (i < length frame)%nat → i ≠ 12%nat →
  ¬ Forall (λ slot, utf8_valid slot = true) (text_slots (flip_bit i k frame)) →
  SourceMessage.decode (flip_bit i k frame) = Raise UnicodeDecodeError.
Proof.
  intros Hm Henc Hk Hi Hne Htext.
  destruct (encode_frame_shape m frame Henc) as (Hb & nf0 & Hnf0 & Hlen0).
  assert (0 ≤ nf0 < 256) as Hnf0b.
  { unfold is_bytes in Hb. rewrite Forall_forall in Hb. apply Hb.
    by apply (list_elem_of_lookup_2 _ 12%nat). }
  destruct (frame_parts (flip_bit i k frame)) as (h & n1 & n0 & st & nf & c & Hparts
                                                   & Hl8 & Hh & Hnf);
    [rewrite length_flip_bit; lia|].
  rewrite lookup_flip_bit_ne, Hnf0 in Hnf by done. injection Hnf as <-.
  assert (length (field_bytes (flip_bit i k frame))
          = (Z.to_nat nf0 * SourceMessage.chunk_size)%nat) as Hlrest.
  { unfold field_bytes, py_slice, SourceMessage.chunk_size.
    rewrite length_take, length_drop, length_flip_bit. lia. }
  unfold text_slots, field_chunks in Htext. rewrite Hlrest in Htext.
  unfold SourceMessage.chunk_size in Htext at 1 2.
  rewrite Nat.div_mul in Htext by done.
  rewrite Hparts. apply decode_not_text; [done|].
  destruct (utf8_valid (id_slot (flip_bit i k frame))) eqn:Eid; [|by left].
  right.
  assert (¬ Forall (λ chunk, utf8_valid (take 8 chunk) = true)
              (SourceMessage.chunks_of (field_bytes (flip_bit i k frame))
                 (Z.to_nat nf0))) as Hchunks.
  { intros Hall. apply Htext. apply Forall_cons. split; [done|].
    by rewrite Forall_fmap. }
  split; [|done].
  destruct (decide (0 < nf0)) as [|Hz]; [done|].
  destruct Hchunks. assert (Z.to_nat nf0 = 0%nat) as -> by lia. constructor.
Qed.
